(** * Terraforming zone: the spreading spawner engine of [src/terraforming.ts]

    A shallow embedding of the class [Terraforming] (the variant with the
    spawner lifecycle) and the properties of its bounds policy, its growth
    step and its spawner registry.

    Conventions of the embedding.
    - Grid coordinates, block ids, sizes, elevations and millisecond clocks
      are integers ([Z]); [elevationSpeed] and [spawnerSpreadRadius] are
      rationals ([Q]), since their defaults are [0.5] and [10].
    - [Math.floor (a / b)] on integers is [Z.div]; on a rational it is
      [Qfloor].
    - The height of a column on a hill, the block under the feet of a
      player and the length of the facing direction are computed as the
      source computes them, in doubles: [Double] rounds every operation to
      the nearest binary64 value.  Rounding changes these results on
      small inputs already ([height_rounded_down]).
    - A distance is compared with the wave radius, the spacing and the
      spread radius on the squares, in exact arithmetic: the embedding
      keeps the argument of [Math.sqrt] (the squared distance, a sum of
      two integer squares); [sqrt_le_real], [sqrt_lt_real] and
      [sqrt_gt_real] relate the decisions to the real square root.
    - [Date.now ()] and the draws of [Math.random ()] are inputs of the
      functions that read them.
    - [this.world] is the external voxel grid.  It is a finite map of
      stored block ids together with the coordinates at which its two
      operations throw.
    - Target objects are shared by reference between [currentTarget] and
      [completedTargets]; they live in a store and are named by their
      index in it.

    The second part of the definitions embeds the rest of the class (the
    constructor, [start], [stop], the interval timer, [clearAllSpawners]
    and the public getters, with the text keys of the registry), the
    earlier variant of the class in the same file, and the block breaking
    of [src/blockBreaking.ts]. *)

From Stdlib Require Import ZArith QArith Qround Qminmax Qpower Qabs List Lia Bool.
From Stdlib Require Import Reals Qreals Lra.
From Stdlib Require String Ascii DecimalString DecimalPos Lqa SpecFloat.
From stdpp Require Import base option list gmap.
Import ListNotations.
Import String.StringSyntax Ascii.AsciiSyntax.
Delimit Scope char_scope with char.
Delimit Scope string_scope with string.

Local Open Scope Z_scope.

(** ** Numbers *)

Definition Qlt_bool (a b : Q) : bool := negb (Qle_bool b a).

(** [sqrt_le n r] decides [Math.sqrt n <= r] for an integer [n >= 0]. *)
Definition sqrt_le (n : Z) (r : Q) : bool :=
  Qle_bool 0 r && Qle_bool (inject_Z n) (r * r).

(** [sqrt_lt n r] decides [Math.sqrt n < r] for an integer [n >= 0]. *)
Definition sqrt_lt (n : Z) (r : Q) : bool :=
  Qlt_bool 0 r && Qlt_bool (inject_Z n) (r * r).

(** [sqrt_gt n r] decides [Math.sqrt n > r]. *)
Definition sqrt_gt (n : Z) (r : Q) : bool := negb (sqrt_le n r).

(** ** Doubles

    The numbers of the source are IEEE 754 binary64 values.  A finite
    double is the rational it denotes; an operation is the exact operation
    followed by rounding to the nearest double, ties to even, with 53
    significant bits and the smallest exponent [-1074] (so that subnormal
    results round as they do in the source).  The largest exponent is not
    bounded: a result of magnitude [2^1024] or more, which overflows to an
    infinity in the source, is outside the embedding. *)

Module Double.

Definition pow2 (e : Z) : Q := (2 ^ e)%Q.

(** [floor (log2 q)] for [q > 0]. *)
Definition log2floor (q : Q) : Z :=
  let k := Z.log2 (Qnum q) - Z.log2 (Zpos (Qden q)) in
  if Qle_bool (pow2 k) q then k else k - 1.

(** The exponent of the smallest positive double, [2^-1074]. *)
Definition minExponent : Z := -1074.

(** The integer nearest to [q], the even one when two are as near. *)
Definition nearestEven (q : Q) : Z :=
  let m := Qfloor q in
  match (q - inject_Z m ?= 1 # 2)%Q with
  | Lt => m
  | Gt => m + 1
  | Eq => if Z.even m then m else m + 1
  end.

(** [q > 0] with 53 significant bits: [e] is the exponent of the last
    bit, and [choose] rounds the mantissa [q / 2^e]. *)
Definition roundPositive (choose : Q -> Z) (q : Q) : Q :=
  let e := Z.max (log2floor q - 52) minExponent in
  (inject_Z (choose (q / pow2 e)) * pow2 e)%Q.

Definition roundWith (choose : Q -> Z) (q : Q) : Q :=
  match (q ?= 0)%Q with
  | Eq => 0%Q
  | Gt => roundPositive choose q
  | Lt => (- roundPositive choose (- q))%Q
  end.

(** Round to nearest, ties to even: the rounding of every operation. *)
Definition round : Q -> Q := roundWith nearestEven.

(** Round towards zero. *)
Definition truncate : Q -> Q := roundWith Qfloor.

(** The double that holds an integer of the program.  Every integer up to
    [2^53] in absolute value is a double; beyond, the integers that are
    not doubles do not occur in the program, and the embedding reads them
    towards zero. *)
Definition ofZ (n : Z) : Q := truncate (inject_Z n).

(** The double of a decimal literal or of a number handed in. *)
Definition ofQ (q : Q) : Q := round q.

Definition add (a b : Q) : Q := round (a + b).
Definition sub (a b : Q) : Q := round (a - b).
Definition mul (a b : Q) : Q := round (a * b).

(** [a / b] for [b] other than 0. *)
Definition div (a b : Q) : Q := round (a / b).

(** [Math.sqrt q] for [q >= 0]: the mantissa is the integer square root
    of [q / 4^e], rounded on the comparison with the square of the
    midpoint. *)
Definition sqrt (q : Q) : Q :=
  match (q ?= 0)%Q with
  | Gt =>
      let e := log2floor q / 2 - 52 in
      let n := (q / pow2 (2 * e))%Q in
      let s := Z.sqrt (Qfloor n) in
      let m := match (n ?= inject_Z (s * s + s) + (1 # 4))%Q with
               | Lt => s
               | Gt => s + 1
               | Eq => if Z.even s then s else s + 1
               end in
      (inject_Z m * pow2 e)%Q
  | _ => 0%Q
  end.

(** [Math.floor]. *)
Definition floor (q : Q) : Z := Qfloor q.

(** The values of the doubles. *)
Definition representable (v : Q) : Prop :=
  ∃ m e : Z, minExponent <= e ∧ Z.abs m <= 2 ^ 53 ∧ (v == inject_Z m * pow2 e)%Q.

(** What a rounding of the mantissa does: it picks the integer below or,
    off an integer, the one above. *)
Definition rounds (choose : Q -> Z) : Prop :=
  ∀ M : Q, choose M = Qfloor M ∨ (choose M = Qfloor M + 1 ∧ (inject_Z (Qfloor M) < M)%Q).

End Double.

(** [zrange lo n] is [lo, lo + 1, ..., lo + n - 1]: the values taken by
    [for (let i = lo; i < lo + n; i++)]. *)
Definition zrange (lo : Z) (n : nat) : list Z :=
  map (fun i => lo + Z.of_nat i) (seq 0 n).

(** ** The voxel grid *)

(** A grid coordinate [(x, y, z)]. *)
Abbreviation Pos := (Z * Z * Z)%type.

(** What [chunkLattice.getBlockId] may hand back. *)
Inductive BlockId : Type :=
| IdNum (n : Z)
| IdNull
| IdUndefined.

Inductive Outcome (A : Type) : Type :=
| Returns (a : A)
| Throws.
Arguments Returns {A} a.
Arguments Throws {A}.

Record World : Type := mkWorld {
  cells : gmap Pos BlockId;      (* stored blocks; air ([IdNum 0]) elsewhere *)
  unreadable : Pos -> bool;      (* where [getBlockId] throws *)
  unwritable : Pos -> bool       (* where [setBlock] throws *)
}.

Definition getBlockId (w : World) (p : Pos) : Outcome BlockId :=
  if unreadable w p then Throws
  else Returns (default (IdNum 0) (cells w !! p)).

Definition lattice_setBlock (w : World) (p : Pos) (blockTypeId : Z) : Outcome World :=
  if unwritable w p then Throws
  else Returns (mkWorld (<[p := IdNum blockTypeId]> (cells w)) (unreadable w) (unwritable w)).

(** ** Data model *)

Record TerraformingTarget : Type := mkTarget {
  target_x : Z;
  target_y : Z;
  target_z : Z;
  startTime : Z;
  spawnerPosition : option Pos;
  isActive : bool
}.

(** The options of a zone after the constructor has filled in the defaults. *)
Record TerraformingOptions : Type := mkOptions {
  centerX : Z;
  centerZ : Z;
  size : Z;
  targetHeight : Z;
  intervalMs : Z;
  terraformSize : Z;
  blockTypeId : Z;
  elevationSpeed : Q;
  spawnerBlockId : Z;
  initialSpawnPoints : list (Z * Z);
  spawnerSpreadRadius : Q
}.

(** Console output, newest entry first. *)
Inductive LogEntry : Type :=
| LogCreatingInitialSpawners
| WarnOutsideBounds (x z : Z)
| LogInitialSpawnerCreated (p : Pos)
| LogNoValidPosition
| LogNewTarget (x y z : Z)
| WarnNoActiveSpawners
| LogTargetInactive
| LogSpawnerBlockDestroyed
| LogStep (blocksModified : Z) (waveRadius : Q)
| LogHillCompleted
| ErrorSetBlock (x y z : Z)
| LogSpawnerBlockCreated (p : Pos)
| LogSpawnerDestroyed (p : Pos).

(** The mutable fields of the class.  [currentTarget] and the entries of
    [completedTargets] are references into [targets]; a key of
    [spawnerPositions] is the coordinate triple that the source prints as
    ["x,y,z"] and parses back, kept in insertion order as a JS [Set] does. *)
Record Terraforming : Type := mkState {
  world : World;
  targets : list TerraformingTarget;
  currentTarget : option nat;
  completedTargets : list nat;
  spawnerPositions : list Pos;
  hasInitialSpawners : bool;
  console : list LogEntry
}.

Definition set_world (w : World) (st : Terraforming) : Terraforming :=
  mkState w (targets st) (currentTarget st) (completedTargets st)
          (spawnerPositions st) (hasInitialSpawners st) (console st).

Definition set_targets (ts : list TerraformingTarget) (st : Terraforming) : Terraforming :=
  mkState (world st) ts (currentTarget st) (completedTargets st)
          (spawnerPositions st) (hasInitialSpawners st) (console st).

Definition set_currentTarget (c : option nat) (st : Terraforming) : Terraforming :=
  mkState (world st) (targets st) c (completedTargets st)
          (spawnerPositions st) (hasInitialSpawners st) (console st).

Definition set_completedTargets (cs : list nat) (st : Terraforming) : Terraforming :=
  mkState (world st) (targets st) (currentTarget st) cs
          (spawnerPositions st) (hasInitialSpawners st) (console st).

Definition set_spawnerPositions (ps : list Pos) (st : Terraforming) : Terraforming :=
  mkState (world st) (targets st) (currentTarget st) (completedTargets st)
          ps (hasInitialSpawners st) (console st).

Definition set_hasInitialSpawners (b : bool) (st : Terraforming) : Terraforming :=
  mkState (world st) (targets st) (currentTarget st) (completedTargets st)
          (spawnerPositions st) b (console st).

Definition say (e : LogEntry) (st : Terraforming) : Terraforming :=
  mkState (world st) (targets st) (currentTarget st) (completedTargets st)
          (spawnerPositions st) (hasInitialSpawners st) (e :: console st).

(** [new T] : the object is put at the end of the store. *)
Definition alloc (t : TerraformingTarget) (st : Terraforming) : nat * Terraforming :=
  (length (targets st), set_targets (targets st ++ [t]) st).

(** [Set.prototype.add] and [Set.prototype.delete] on the insertion-ordered keys. *)
Definition set_add (p : Pos) (ps : list Pos) : list Pos :=
  if bool_decide (p ∈ ps) then ps else ps ++ [p].

Definition set_delete (p : Pos) (ps : list Pos) : list Pos :=
  filter (fun q => q ≠ p) ps.

(** One draw of the spreading search: the index
    [Math.floor (Math.random () * activeSpawners.length)] and the rounded
    displacement [Math.round (cos angle * distance)],
    [Math.round (sin angle * distance)] from the chosen spawner. *)
Record Draw : Type := mkDraw {
  pick : nat;
  offX : Z;
  offZ : Z
}.

Section Zone.

Variable cfg : TerraformingOptions.

(** ** Bounds policy *)

Definition isWithinBounds (x z : Z) : bool :=
  let halfSize := size cfg / 2 in
  let minX := centerX cfg - halfSize in
  let maxX := centerX cfg + halfSize - 1 in
  let minZ := centerZ cfg - halfSize in
  let maxZ := centerZ cfg + halfSize - 1 in
  (x >=? minX) && (x <=? maxX) && (z >=? minZ) && (z <=? maxZ).

(** ** Grid access with the failures caught *)

Definition hasBlockAt (w : World) (x y z : Z) : bool :=
  match getBlockId w (x, y, z) with
  | Returns blockId =>
      match blockId with
      | IdNum n => negb (n =? 0)
      | IdNull => false
      | IdUndefined => false
      end
  | Throws => false
  end.

Definition setBlock (x y z : Z) (blockTypeId : Z) (st : Terraforming) : Terraforming :=
  match lattice_setBlock (world st) (x, y, z) blockTypeId with
  | Returns w' => set_world w' st
  | Throws => say (ErrorSetBlock x y z) st
  end.

Definition isSpawnerBlockPresent (w : World) (position : Pos) : bool :=
  match getBlockId w position with
  | Returns blockId =>
      match blockId with
      | IdNum n => n =? spawnerBlockId cfg
      | _ => false
      end
  | Throws => false
  end.

(** [probe w x z n] looks at the levels [n - 1], ..., [0] in turn. *)
Fixpoint probe (w : World) (x z : Z) (n : nat) : Z :=
  match n with
  | O => -1
  | S k => if hasBlockAt w x (Z.of_nat k) z then Z.of_nat k else probe w x z k
  end.

(** [for (let y = targetHeight + 10; y >= 0; y--)]. *)
Definition getCurrentHeight (w : World) (x z : Z) : Z :=
  probe w x z (Z.to_nat (targetHeight cfg + 10 + 1)).

(** ** Spawner registry *)

(** The keys are the positions themselves, so splitting and parsing them
    gives the list back. *)
Definition getSpawnerPositions (st : Terraforming) : list Pos :=
  spawnerPositions st.

Definition getActiveSpawnerPositions (st : Terraforming) : list Pos :=
  List.filter (isSpawnerBlockPresent (world st)) (getSpawnerPositions st).

(** [(x - spawner.x) ** 2 + (z - spawner.z) ** 2], the argument of [Math.sqrt]. *)
Definition dist2 (x z : Z) (spawner : Pos) : Z :=
  let '(sx, _, sz) := spawner in
  (x - sx) * (x - sx) + (z - sz) * (z - sz).

Definition minDistance : Q := 5.

Definition isValidSpawnerPosition (st : Terraforming) (x z : Z) : bool :=
  if negb (isWithinBounds x z) then false
  else
    let activeSpawners := getActiveSpawnerPositions st in
    if existsb (fun spawner => sqrt_lt (dist2 x z spawner) minDistance) activeSpawners
    then false
    else existsb (fun spawner => sqrt_le (dist2 x z spawner) (spawnerSpreadRadius cfg))
                 activeSpawners.

(** The attempts [attempts], [attempts + 1], ..., while [fuel] of them are left. *)
Fixpoint searchFrom (rnd : nat -> Draw) (st : Terraforming) (activeSpawners : list Pos)
         (attempts fuel : nat) : option (Z * Z) :=
  match fuel with
  | O => None
  | S fuel' =>
      match activeSpawners !! pick (rnd attempts) with
      | None => searchFrom rnd st activeSpawners (S attempts) fuel'
      | Some (sx, _, sz) =>
          let newX := sx + offX (rnd attempts) in
          let newZ := sz + offZ (rnd attempts) in
          if isValidSpawnerPosition st newX newZ then Some (newX, newZ)
          else searchFrom rnd st activeSpawners (S attempts) fuel'
      end
  end.

Definition maxAttempts : nat := 50.

(** Returns what it writes to the console together with the site. *)
Definition findValidSpawnerPosition (rnd : nat -> Draw) (st : Terraforming)
  : list LogEntry * option (Z * Z) :=
  let activeSpawners := getActiveSpawnerPositions st in
  if (length activeSpawners =? 0)%nat then ([WarnNoActiveSpawners], None)
  else ([], searchFrom rnd st activeSpawners 0 maxAttempts).

Definition findSpawnerPositionAt (st : Terraforming) (x z : Z) : option Pos :=
  List.find (fun spawner => let '(sx, _, sz) := spawner in (sx =? x) && (sz =? z))
            (getActiveSpawnerPositions st).

Definition bound_to (p : Pos) (t : TerraformingTarget) : bool :=
  match spawnerPosition t with
  | Some q => bool_decide (q = p)
  | None => false
  end.

Definition findTargetByPosition (st : Terraforming) (p : Pos) : option nat :=
  let viaCurrent :=
    match currentTarget st with
    | Some r =>
        match targets st !! r with
        | Some t => if bound_to p t then Some r else None
        | None => None
        end
    | None => None
    end in
  match viaCurrent with
  | Some r => Some r
  | None =>
      List.find (fun r => match targets st !! r with
                          | Some t => bound_to p t
                          | None => false
                          end)
                (completedTargets st)
  end.

(** ** Target selection *)

Definition createSpawnerBlock (st : Terraforming) : Terraforming :=
  match currentTarget st with
  | None => st
  | Some r =>
      match targets st !! r with
      | None => st
      | Some t =>
          let targetHeight' := getCurrentHeight (world st) (target_x t) (target_z t) in
          let spawnerY := Z.max (targetHeight' + 2) 2 in
          let st1 := setBlock (target_x t) spawnerY (target_z t) (spawnerBlockId cfg) st in
          let spawnerPosition' := (target_x t, spawnerY, target_z t) in
          let st2 := set_spawnerPositions (set_add spawnerPosition' (spawnerPositions st1)) st1 in
          let t' := mkTarget (target_x t) (target_y t) (target_z t) (startTime t)
                             (Some spawnerPosition') true in
          let st3 := set_targets (<[r := t']> (targets st2)) st2 in
          say (LogSpawnerBlockCreated spawnerPosition') st3
      end
  end.

(** The body of the loop over [initialSpawnPoints].  The object [target]
    that the source builds there is never stored, so it leaves no trace. *)
Definition placeInitialSpawner (st : Terraforming) (spawnPoint : Z * Z) : Terraforming :=
  let '(sx, sz) := spawnPoint in
  if negb (isWithinBounds sx sz) then say (WarnOutsideBounds sx sz) st
  else
    let targetHeight' := getCurrentHeight (world st) sx sz in
    let spawnerY := Z.max (targetHeight' + 2) 2 in
    let st1 := setBlock sx spawnerY sz (spawnerBlockId cfg) st in
    let spawnerPosition' := (sx, spawnerY, sz) in
    let st2 := set_spawnerPositions (set_add spawnerPosition' (spawnerPositions st1)) st1 in
    say (LogInitialSpawnerCreated spawnerPosition') st2.

Definition createInitialSpawners (now : Z) (st : Terraforming) : Terraforming :=
  let st0 := say LogCreatingInitialSpawners st in
  let st1 := fold_left placeInitialSpawner (initialSpawnPoints cfg) st0 in
  let st2 := set_hasInitialSpawners true st1 in
  match initialSpawnPoints cfg with
  | [] => st2
  | firstSpawn :: _ =>
      let '(fx, fz) := firstSpawn in
      if isWithinBounds fx fz then
        let t := mkTarget fx (targetHeight cfg) fz now (findSpawnerPositionAt st2 fx fz) true in
        let '(r, st3) := alloc t st2 in
        set_currentTarget (Some r) st3
      else st2
  end.

Definition selectNewTarget (now : Z) (rnd : nat -> Draw) (st : Terraforming) : Terraforming :=
  if negb (hasInitialSpawners st) then createInitialSpawners now st
  else
    let '(out, validPosition) := findValidSpawnerPosition rnd st in
    let st0 := fold_right say st out in
    match validPosition with
    | None => say LogNoValidPosition st0
    | Some (vx, vz) =>
        let t := mkTarget vx (targetHeight cfg) vz now None true in
        let '(r, st1) := alloc t st0 in
        let st2 := set_currentTarget (Some r) st1 in
        let st3 := createSpawnerBlock st2 in
        say (LogNewTarget vx (targetHeight cfg) vz) st3
    end.

(** ** Destruction handling *)

Definition onSpawnerDestroyed (now : Z) (rnd : nat -> Draw) (position : Pos)
           (st : Terraforming) : Terraforming :=
  let posKey := position in
  let target := findTargetByPosition st position in
  let st1 :=
    match target with
    | Some r =>
        match targets st !! r with
        | Some t =>
            let t' := mkTarget (target_x t) (target_y t) (target_z t) (startTime t) None false in
            let sta := set_targets (<[r := t']> (targets st)) st in
            let stb := say (LogSpawnerDestroyed position) sta in
            if bool_decide (currentTarget stb = Some r) then selectNewTarget now rnd stb
            else stb
        | None => st
        end
    | None => st
    end in
  set_spawnerPositions (set_delete posKey (spawnerPositions st1)) st1.

(** ** The growth step *)

(** [Math.max (0, 1 - normalizedDistance * normalizedDistance)] with
    [distanceFromCenter = Math.sqrt d2] and
    [normalizedDistance = distanceFromCenter / maxRadius], every operation
    rounded as the source rounds it.  The loops run for [maxRadius >= 1]
    only. *)
Definition heightMultiplier (d2 maxRadius : Z) : Q :=
  let distanceFromCenter := Double.sqrt (Double.ofZ d2) in
  let normalizedDistance := Double.div distanceFromCenter (Double.ofZ maxRadius) in
  Qmax 0 (Double.sub 1 (Double.mul normalizedDistance normalizedDistance)).

(** [Math.floor (this.currentTarget.y * heightMultiplier)]. *)
Definition targetHeightForPosition (y d2 maxRadius : Z) : Z :=
  Double.floor (Double.mul (Double.ofZ y) (heightMultiplier d2 maxRadius)).

(** The locals that the two nested loops update. *)
Record Sweep : Type := mkSweep {
  zone : Terraforming;
  blocksModified : Z;
  targetComplete : bool
}.

(** The columns in the order the loops visit them. *)
Definition windowColumns (tx tz halfTerraform : Z) : list (Z * Z) :=
  flat_map (fun x => map (fun z => (x, z)) (zrange (tz - halfTerraform) (Z.to_nat (2 * halfTerraform))))
           (zrange (tx - halfTerraform) (Z.to_nat (2 * halfTerraform))).

(** The body of the inner loop.  [distance2] is the argument of the
    [Math.sqrt] that gives [distanceFromCenter]. *)
Definition terraformColumn (t : TerraformingTarget) (maxRadius : Z) (currentWaveRadius : Q)
           (acc : Sweep) (column : Z * Z) : Sweep :=
  let '(x, z) := column in
  if negb (isWithinBounds x z) then acc
  else
    let deltaX := x - target_x t in
    let deltaZ := z - target_z t in
    let distance2 := deltaX * deltaX + deltaZ * deltaZ in
    if sqrt_gt distance2 currentWaveRadius
    then mkSweep (zone acc) (blocksModified acc) false
    else
      let h := targetHeightForPosition (target_y t) distance2 maxRadius in
      if h <? 1 then acc
      else
        let currentHeight := getCurrentHeight (world (zone acc)) x z in
        if currentHeight <? h then
          let newHeight := Z.min (currentHeight + 1) h in
          mkSweep (setBlock x newHeight z (blockTypeId cfg) (zone acc))
                  (blocksModified acc + 1) false
        else acc.

(** [Math.floor (timeElapsed / this.intervalMs)].  The two agree for every
    interval but 0, where the source divides by zero. *)
Definition stepsElapsed (now : Z) (t : TerraformingTarget) : Z :=
  (now - startTime t) / intervalMs cfg.

Definition currentWaveRadius (now : Z) (t : TerraformingTarget) : Q :=
  inject_Z (stepsElapsed now t) * elevationSpeed cfg.

Definition sweep (now : Z) (t : TerraformingTarget) (st : Terraforming) : Sweep :=
  let halfTerraform := terraformSize cfg / 2 in
  let maxRadius := halfTerraform in
  fold_left (terraformColumn t maxRadius (currentWaveRadius now t))
            (windowColumns (target_x t) (target_z t) halfTerraform)
            (mkSweep st 0 true).

(** What follows the loops: the report, and on completion the archive and
    the next selection. *)
Definition finishStep (now : Z) (rnd : nat -> Draw) (r : nat) (t : TerraformingTarget)
           (sw : Sweep) : Terraforming :=
  let st1 := say (LogStep (blocksModified sw) (currentWaveRadius now t)) (zone sw) in
  if targetComplete sw then
    let st2 := say LogHillCompleted st1 in
    let st3 := set_completedTargets (completedTargets st2 ++ [r]) st2 in
    selectNewTarget now rnd st3
  else st1.

(** One tick.  [rnd1] feeds the first selection that the tick runs and
    [rnd2] the second one, if there is one.  A reference that is not in
    the store cannot arise; the step leaves such a state alone. *)
Definition terraformStep (now : Z) (rnd1 rnd2 : nat -> Draw) (st : Terraforming) : Terraforming :=
  match currentTarget st with
  | None => selectNewTarget now rnd1 st
  | Some r =>
      match targets st !! r with
      | None => st
      | Some t =>
          if negb (isActive t) then selectNewTarget now rnd1 (say LogTargetInactive st)
          else
            match spawnerPosition t with
            | Some p =>
                if negb (isSpawnerBlockPresent (world st) p) then
                  let st1 := say LogSpawnerBlockDestroyed st in
                  let t' := mkTarget (target_x t) (target_y t) (target_z t) (startTime t)
                                     (spawnerPosition t) false in
                  let st2 := set_targets (<[r := t']> (targets st1)) st1 in
                  let st3 := onSpawnerDestroyed now rnd1 p st2 in
                  selectNewTarget now rnd2 st3
                else finishStep now rnd1 r t (sweep now t st)
            | None => finishStep now rnd1 r t (sweep now t st)
            end
      end
  end.

End Zone.

(** ** Notions used in the statements *)

(** The squared distance of a column from a target, and the height the
    growth step computes for it. *)
Definition columnDistance2 (t : TerraformingTarget) (x z : Z) : Z :=
  (x - target_x t) * (x - target_x t) + (z - target_z t) * (z - target_z t).

Definition columnTargetHeight (cfg : TerraformingOptions) (t : TerraformingTarget) (x z : Z) : Z :=
  targetHeightForPosition (target_y t) (columnDistance2 t x z) (terraformSize cfg / 2).

(** The height of the specification, [floor (y * max (0, 1 - (distance /
    maxRadius)^2))], in exact arithmetic. *)
Definition parabolicMultiplier (d2 maxRadius : Z) : Q :=
  Qmax 0 (1 - inject_Z d2 / inject_Z (maxRadius * maxRadius)).

Definition parabolicHeight (y d2 maxRadius : Z) : Z :=
  Qfloor (inject_Z y * parabolicMultiplier d2 maxRadius).

(** The same computations with the binary64 operations of the Standard
    Library ([SpecFloat], precision 53, largest exponent 1024), against
    which [Double] is checked on the heights of small hills. *)
Module Binary64.

Definition prec : Z := 53.
Definition emax : Z := 1024.

Definition ofZ (n : Z) : SpecFloat.spec_float :=
  SpecFloat.binary_normalize prec emax n 0 false.

Definition value (f : SpecFloat.spec_float) : option Q :=
  match f with
  | SpecFloat.S754_zero _ => Some 0%Q
  | SpecFloat.S754_finite s m e =>
      Some ((if s then - inject_Z (Z.pos m) else inject_Z (Z.pos m)) * Double.pow2 e)%Q
  | _ => None
  end.

Definition max0 (f : SpecFloat.spec_float) : SpecFloat.spec_float :=
  if SpecFloat.SFltb (SpecFloat.S754_zero false) f then f else SpecFloat.S754_zero false.

Definition heightProduct (y d2 maxRadius : Z) : option Q :=
  let distanceFromCenter := SpecFloat.SFsqrt prec emax (ofZ d2) in
  let normalizedDistance := SpecFloat.SFdiv prec emax distanceFromCenter (ofZ maxRadius) in
  let heightMultiplier :=
    max0 (SpecFloat.SFsub prec emax (ofZ 1)
            (SpecFloat.SFmul prec emax normalizedDistance normalizedDistance)) in
  value (SpecFloat.SFmul prec emax (ofZ y) heightMultiplier).

(** [tenths / 10 - 0.1], the level of the feet of a player lowered as
    [use] lowers it. *)
Definition belowFeet (tenths : Z) : option Q :=
  value (SpecFloat.SFsub prec emax
           (SpecFloat.SFdiv prec emax (ofZ tenths) (ofZ 10))
           (SpecFloat.SFdiv prec emax (ofZ 1) (ofZ 10))).

End Binary64.

(** Whether the two computations of the product [y * heightMultiplier]
    agree. *)
Definition heightAgrees (y d2 maxRadius : Z) : bool :=
  match Binary64.heightProduct y d2 maxRadius with
  | Some product =>
      Qeq_bool product (Double.mul (Double.ofZ y) (heightMultiplier d2 maxRadius))
  | None => false
  end.

Definition belowFeetAgrees (tenths : Z) : bool :=
  match Binary64.belowFeet tenths with
  | Some level => Qeq_bool level (Double.sub (Double.ofQ (tenths # 10)) (Double.ofQ (1 # 10)))
  | None => false
  end.

(** The footprint of a zone, column by column. *)
Definition footprint (cfg : TerraformingOptions) : list (Z * Z) :=
  let halfSize := size cfg / 2 in
  windowColumns (centerX cfg) (centerZ cfg) halfSize.

(** The zone with its centre moved by [(dx, dz)]. *)
Definition shiftCenter (dx dz : Z) (cfg : TerraformingOptions) : TerraformingOptions :=
  mkOptions (centerX cfg + dx) (centerZ cfg + dz) (size cfg) (targetHeight cfg)
            (intervalMs cfg) (terraformSize cfg) (blockTypeId cfg) (elevationSpeed cfg)
            (spawnerBlockId cfg) (initialSpawnPoints cfg) (spawnerSpreadRadius cfg).

(** Two grids that hold the same blocks in column [(x, z)] and throw at the same places. *)
Definition sameColumn (w w' : World) (x z : Z) : Prop :=
  unreadable w' = unreadable w ∧ unwritable w' = unwritable w ∧
  ∀ y, cells w' !! (x, y, z) = cells w !! (x, y, z).

(** [w'] is [w] with block [b] put at level [y0] of column [(x, z)]. *)
Definition columnRaised (w w' : World) (x z y0 b : Z) : Prop :=
  unreadable w' = unreadable w ∧ unwritable w' = unwritable w ∧
  ∀ y, cells w' !! (x, y, z) = (<[(x, y0, z) := IdNum b]> (cells w)) !! (x, y, z).

(** [w'] is [w] but for cells that now hold block [b]. *)
Definition onlyWrites (b : Z) (w w' : World) : Prop :=
  unreadable w' = unreadable w ∧ unwritable w' = unwritable w ∧
  ∀ q, cells w' !! q = cells w !! q ∨ cells w' !! q = Some (IdNum b).

(** [w'] throws where [w] throws and holds what [w] holds at every cell
    that refuses writes. *)
Definition refusedWritesKept (w w' : World) : Prop :=
  unreadable w' = unreadable w ∧ unwritable w' = unwritable w ∧
  ∀ p, unwritable w p = true → cells w' !! p = cells w !! p.

(** The state after the loop over the initial points. *)
Definition initialSpawnersPlaced (cfg : TerraformingOptions) (st : Terraforming) : Terraforming :=
  set_hasInitialSpawners true
    (fold_left (placeInitialSpawner cfg) (initialSpawnPoints cfg)
               (say LogCreatingInitialSpawners st)).

(** A target that has lost its spawner. *)
Definition unbound (t : TerraformingTarget) : TerraformingTarget :=
  mkTarget (target_x t) (target_y t) (target_z t) (startTime t) None false.

(** The state in which destruction handling runs its selection: the
    current target [r] has lost its spawner [p]. *)
Definition afterLoss (r : nat) (t : TerraformingTarget) (p : Pos) (st : Terraforming) : Terraforming :=
  say (LogSpawnerDestroyed p)
      (set_targets (<[r := unbound t]> (targets st)) (say LogSpawnerBlockDestroyed st)).

(** [this.spawnerPositions.delete (posKey)]. *)
Definition forget (p : Pos) (st : Terraforming) : Terraforming :=
  set_spawnerPositions (set_delete p (spawnerPositions st)) st.

(** The ticks at the given clock readings, one after the other. *)
Definition runTicks (cfg : TerraformingOptions) (rnd1 rnd2 : nat -> Draw)
           (clock : list Z) (st : Terraforming) : Terraforming :=
  fold_left (fun s now => terraformStep cfg now rnd1 rnd2 s) clock st.

(** What a player does to the grid when a block breaks
    ([TerrainManager.damageBlock] of the block-breaking module): the cell
    is set to air behind the back of the zone. *)
Definition breakBlock (p : Pos) (st : Terraforming) : Terraforming :=
  set_world (mkWorld (<[p := IdNum 0]> (cells (world st)))
                     (unreadable (world st)) (unwritable (world st))) st.

(** ** Sample grids, zones and draws *)

Definition emptyWorld : World := mkWorld ∅ (fun _ => false) (fun _ => false).

Definition worldOf (blocks : list (Pos * Z)) : World :=
  mkWorld (list_to_map (map (fun b => (fst b, IdNum (snd b))) blocks))
          (fun _ => false) (fun _ => false).

(** A grid on which every write throws, and one on which every read throws. *)
Definition readOnlyWorld : World := mkWorld ∅ (fun _ => false) (fun _ => true).
Definition opaqueWorld : World := mkWorld ∅ (fun _ => true) (fun _ => false).

(** A zone as the constructor leaves it. *)
Definition freshZone (w : World) : Terraforming :=
  mkState w [] None [] [] false [].

(** Draws that always take the first live spawner and propose its own
    column, or the column six to the east, six to the south, five to the
    east of it. *)
Definition stayPut : nat -> Draw := fun _ => mkDraw 0 0 0.
Definition eastward : nat -> Draw := fun _ => mkDraw 0 6 0.
Definition southward : nat -> Draw := fun _ => mkDraw 0 0 6.
Definition fiveEast : nat -> Draw := fun _ => mkDraw 0 5 0.

(** A zone of side 3 around the origin. *)
Definition oddZone : TerraformingOptions :=
  mkOptions 0 0 3 5 1000 4 4 1 19 [(0, 0)] 10.

(** The zone of the examples: side 40 around the origin, hills of height 5
    over windows of side 8, one step a second, one initial spawner at the
    centre; and a target at its centre. *)
Definition demoZone : TerraformingOptions :=
  mkOptions 0 0 40 5 1000 8 4 1 19 [(0, 0)] 10.

Definition demoTarget : TerraformingTarget := mkTarget 0 5 0 0 None true.

(** A zone of side 2 around the origin with windows of side 4 and the
    default wave speed, on a patch of clay at level 0. *)
Definition tinyZone : TerraformingOptions :=
  mkOptions 0 0 2 5 1000 4 4 (1 # 2) 19 [(0, 0)] 10.

Definition clayPatch : World :=
  worldOf [((-1, 0, -1), 2); ((-1, 0, 0), 2); ((0, 0, -1), 2); ((0, 0, 0), 2)].

Definition tinyTarget : TerraformingTarget :=
  mkTarget 0 5 0 0 (Some (0, 2, 0)) true.

(** The tiny zone once its hill has reached every height it aims for. *)
Definition tinyGrown : Terraforming :=
  mkState
    (worldOf [((-1, 0, -1), 2); ((-1, 0, 0), 2); ((0, 0, -1), 2); ((0, 0, 0), 2);
              ((0, 2, 0), 19);
              ((0, 3, 0), 4); ((0, 4, 0), 4); ((0, 5, 0), 4);
              ((-1, 1, 0), 4); ((-1, 2, 0), 4); ((-1, 3, 0), 4);
              ((0, 1, -1), 4); ((0, 2, -1), 4); ((0, 3, -1), 4);
              ((-1, 1, -1), 4); ((-1, 2, -1), 4)])
    [tinyTarget] (Some 0%nat) [] [(0, 2, 0)] true
    [LogStep 3 (4 # 2); LogStep 4 (3 # 2); LogStep 3 (2 # 2); LogStep 1 (1 # 2);
     LogInitialSpawnerCreated (0, 2, 0); LogCreatingInitialSpawners].

(** A zone of side 40 with windows of side 2, on three blocks of clay. *)
Definition hillZone : TerraformingOptions :=
  mkOptions 0 0 40 5 1000 2 4 1 19 [(0, 0)] 10.

Definition clayStrip : World :=
  worldOf [((0, 0, 0), 2); ((6, 0, 0), 2); ((0, 0, 6), 2)].

Definition hillTarget : TerraformingTarget :=
  mkTarget 0 5 0 0 (Some (0, 2, 0)) true.

(** The hill zone once the one column of its first hill stands at level 5. *)
Definition hillGrown : Terraforming :=
  mkState
    (worldOf [((0, 0, 0), 2); ((6, 0, 0), 2); ((0, 0, 6), 2);
              ((0, 2, 0), 19); ((0, 3, 0), 4); ((0, 4, 0), 4); ((0, 5, 0), 4)])
    [hillTarget] (Some 0%nat) [] [(0, 2, 0)] true
    [LogStep 1 3; LogStep 1 2; LogStep 1 1;
     LogInitialSpawnerCreated (0, 2, 0); LogCreatingInitialSpawners].

(** The second target of the hill zone; the zone after the tick that
    archives the first hill and spreads to the east; and that zone after a
    player has broken the spawner block of the second target. *)
Definition hillSecond : TerraformingTarget :=
  mkTarget 6 5 0 4000 (Some (6, 2, 0)) true.

Definition hillSpread : Terraforming :=
  mkState
    (worldOf [((0, 0, 0), 2); ((6, 0, 0), 2); ((0, 0, 6), 2);
              ((0, 2, 0), 19); ((0, 3, 0), 4); ((0, 4, 0), 4); ((0, 5, 0), 4);
              ((6, 2, 0), 19)])
    [hillTarget; hillSecond]
    (Some 1%nat) [0%nat] [(0, 2, 0); (6, 2, 0)] true
    [LogNewTarget 6 5 0; LogSpawnerBlockCreated (6, 2, 0); LogHillCompleted; LogStep 0 4;
     LogStep 1 3; LogStep 1 2; LogStep 1 1;
     LogInitialSpawnerCreated (0, 2, 0); LogCreatingInitialSpawners].

Definition hillBroken : Terraforming := breakBlock (6, 2, 0) hillSpread.

(** The hill zone with a first initial point far outside the zone and a
    second one at its centre. *)
Definition lateZone : TerraformingOptions :=
  mkOptions 0 0 40 5 1000 2 4 1 19 [(100, 100); (0, 0)] 10.

(** A zone with windows of side 12 on a plateau of clay at level 5 that
    covers the window of its first hill, and the zone after its first
    tick. *)
Definition plateauZone : TerraformingOptions :=
  mkOptions 0 0 40 5 1000 12 4 1 19 [(0, 0)] 10.

Definition plateau : World :=
  worldOf (map (fun c => ((fst c, 5, snd c), 2)) (windowColumns 0 0 6)).

Definition plateauTarget : TerraformingTarget :=
  mkTarget 0 5 0 0 (Some (0, 7, 0)) true.

Definition plateauReady : Terraforming :=
  mkState
    (worldOf (((0, 7, 0), 19) :: map (fun c => ((fst c, 5, snd c), 2)) (windowColumns 0 0 6)))
    [plateauTarget] (Some 0%nat) [] [(0, 7, 0)] true
    [LogInitialSpawnerCreated (0, 7, 0); LogCreatingInitialSpawners].

#[global] Instance BlockId_eq_dec : EqDecision BlockId.
Proof. solve_decision. Defined.

(** ** The keys of the spawner registry as text

    The source keeps the registry as a [Set] of strings: a coordinate is
    printed as ["x,y,z"] when it is added, looked up or deleted, and
    [getSpawnerPositions] and [clearAllSpawners] split the string at the
    commas and parse the three parts. *)

Module Key.

(** [`${n}`] for an integer [n].  The digits are those of the source for
    [|n| < 10^21]; from there on JavaScript prints an exponent. *)
Definition numberToString (n : Z) : String.string :=
  DecimalString.NilEmpty.string_of_int (Z.to_int n).

(** [`${x},${y},${z}`]. *)
Definition posKey (p : Pos) : String.string :=
  let '(x, y, z) := p in
  String.append (numberToString x)
    (String.String ","%char
       (String.append (numberToString y) (String.String ","%char (numberToString z)))).

(** [s.split (separator)] for a separator of one character. *)
Fixpoint split (separator : Ascii.ascii) (s : String.string) : list String.string :=
  match s with
  | String.EmptyString => [String.EmptyString]
  | String.String c rest =>
      if Ascii.eqb c separator then String.EmptyString :: split separator rest
      else
        match split separator rest with
        | part :: parts => String.String c part :: parts
        | [] => [String.String c String.EmptyString]
        end
  end.

(** Space, tab, line feed, vertical tab, form feed, carriage return. *)
Definition isWhiteSpace (c : Ascii.ascii) : bool :=
  existsb (Ascii.eqb c) [" "; "009"; "010"; "011"; "012"; "013"]%char.

Fixpoint trimStart (s : String.string) : String.string :=
  match s with
  | String.String c rest => if isWhiteSpace c then trimStart rest else s
  | String.EmptyString => s
  end.

Definition digitValue (c : Ascii.ascii) : option Z :=
  let n := Z.of_N (Ascii.N_of_ascii c) in
  if (48 <=? n) && (n <=? 57) then Some (n - 48) else None.

(** The longest run of decimal digits at the head of [s]; [acc] is [None]
    until a digit has been read. *)
Fixpoint parseDigits (s : String.string) (acc : option Z) : option Z :=
  match s with
  | String.String c rest =>
      match digitValue c with
      | Some d => parseDigits rest (Some (10 * default 0 acc + d))
      | None => acc
      end
  | String.EmptyString => acc
  end.

(** [parseInt (s, 10)]; [None] stands for [NaN]. *)
Definition parseInt (s : String.string) : option Z :=
  match trimStart s with
  | String.String "-"%char rest => option_map Z.opp (parseDigits rest None)
  | String.String "+"%char rest => parseDigits rest None
  | digits => parseDigits digits None
  end.

(** The callback of [getSpawnerPositions]: [parts[i]!] of a missing part is
    [undefined], which [parseInt] turns into [NaN]. *)
Definition decode (posKey : String.string) : option Z * option Z * option Z :=
  let parts := split ","%char posKey in
  (parts !! 0%nat ≫= parseInt, parts !! 1%nat ≫= parseInt, parts !! 2%nat ≫= parseInt).

(** [Set.prototype.has], [add] and [delete] on the insertion-ordered keys. *)
Definition has (key : String.string) (keys : list String.string) : bool :=
  existsb (String.eqb key) keys.

Definition add (key : String.string) (keys : list String.string) : list String.string :=
  if has key keys then keys else keys ++ [key].

Definition delete (key : String.string) (keys : list String.string) : list String.string :=
  List.filter (fun k => negb (String.eqb k key)) keys.

(** The value of the digits [d] read after [acc]. *)
Fixpoint horner (d : Decimal.uint) (acc : Z) : Z :=
  match d with
  | Decimal.Nil => acc
  | Decimal.D0 l => horner l (10 * acc + 0)
  | Decimal.D1 l => horner l (10 * acc + 1)
  | Decimal.D2 l => horner l (10 * acc + 2)
  | Decimal.D3 l => horner l (10 * acc + 3)
  | Decimal.D4 l => horner l (10 * acc + 4)
  | Decimal.D5 l => horner l (10 * acc + 5)
  | Decimal.D6 l => horner l (10 * acc + 6)
  | Decimal.D7 l => horner l (10 * acc + 7)
  | Decimal.D8 l => horner l (10 * acc + 8)
  | Decimal.D9 l => horner l (10 * acc + 9)
  end.

(** [s] holds no character [c]. *)
Fixpoint free_of (c : Ascii.ascii) (s : String.string) : Prop :=
  match s with
  | String.EmptyString => True
  | String.String c' rest => Ascii.eqb c' c = false ∧ free_of c rest
  end.

(** Where the digits of [numberToString] are those of the source. *)
Definition printable (n : Z) : Prop := Z.abs n < 10 ^ 21.

End Key.

(** ** The instance: constructor, timer and public methods *)

(** The options as the caller writes them; a field left out is [None]. *)
Record OptionsGiven : Type := mkGiven {
  given_centerX : Z;
  given_centerZ : Z;
  given_size : Z;
  given_targetHeight : option Z;
  given_intervalMs : option Z;
  given_terraformSize : option Z;
  given_blockTypeId : option Z;
  given_elevationSpeed : option Q;
  given_spawnerBlockId : option Z;
  given_initialSpawnPoints : option (list (Z * Z));
  given_spawnerSpreadRadius : option Q
}.

(** The interval timers of the runtime that the instance has set and not
    cleared, with their periods, and the number of handles given out. *)
Record Timers : Type := mkTimers {
  scheduled : list (nat * Z);
  issued : nat
}.

Definition setInterval (ms : Z) (tm : Timers) : nat * Timers :=
  (issued tm, mkTimers (scheduled tm ++ [(issued tm, ms)]) (S (issued tm))).

Definition clearInterval (id : nat) (tm : Timers) : Timers :=
  mkTimers (List.filter (fun timer => negb (fst timer =? id)%nat) (scheduled tm)) (issued tm).

Module Lifecycle.

(** What the methods of this part write to the console. *)
Inductive Notice : Type :=
| WarnAlreadyActive
| LogStarted (centerX centerZ size : Z)
| LogStopped (centerX centerZ : Z)
| LogAllSpawnersCleared.

(** The object: its configuration, the fields of the engine, the running
    flag [isActive], the timer handle and the lines of this part of the
    console, newest first. *)
Record Instance : Type := mkInstance {
  options : TerraformingOptions;
  fields : Terraforming;
  isActive : bool;
  intervalId : option nat;
  notices : list Notice
}.

Definition set_fields (st : Terraforming) (this : Instance) : Instance :=
  mkInstance (options this) st (isActive this) (intervalId this) (notices this).

Definition set_isActive (b : bool) (this : Instance) : Instance :=
  mkInstance (options this) (fields this) b (intervalId this) (notices this).

Definition set_intervalId (id : option nat) (this : Instance) : Instance :=
  mkInstance (options this) (fields this) (isActive this) id (notices this).

Definition note (n : Notice) (this : Instance) : Instance :=
  mkInstance (options this) (fields this) (isActive this) (intervalId this) (n :: notices this).

(** [a ?? b] on each optional field. *)
Definition constructor (world : World) (given : OptionsGiven) : Instance :=
  let centerX := given_centerX given in
  let centerZ := given_centerZ given in
  mkInstance
    (mkOptions centerX centerZ (given_size given)
       (default 5 (given_targetHeight given))
       (default 10000 (given_intervalMs given))
       (default 10 (given_terraformSize given))
       (default 2 (given_blockTypeId given))
       (default (1 # 2) (given_elevationSpeed given))
       (default 19 (given_spawnerBlockId given))
       (default [(centerX, centerZ)] (given_initialSpawnPoints given))
       (default 10%Q (given_spawnerSpreadRadius given)))
    (freshZone world) false None [].

Definition start (now : Z) (rnd : nat -> Draw) (sys : Instance * Timers) : Instance * Timers :=
  let '(this, tm) := sys in
  if isActive this then (note WarnAlreadyActive this, tm)
  else
    let this1 := set_isActive true this in
    let this2 := set_fields (selectNewTarget (options this1) now rnd (fields this1)) this1 in
    let '(id, tm') := setInterval (intervalMs (options this2)) tm in
    let this3 := set_intervalId (Some id) this2 in
    (note (LogStarted (centerX (options this3)) (centerZ (options this3)) (size (options this3)))
          this3,
     tm').

Definition stop (sys : Instance * Timers) : Instance * Timers :=
  let '(this, tm) := sys in
  if negb (isActive this) then sys
  else
    let this1 := set_isActive false this in
    let '(this2, tm') :=
      match intervalId this1 with
      | Some id => (set_intervalId None this1, clearInterval id tm)
      | None => (this1, tm)
      end in
    (note (LogStopped (centerX (options this2)) (centerZ (options this2))) this2, tm').

(** The runtime fires the timer [id]: its callback is [terraformStep]. *)
Definition fire (id : nat) (now : Z) (rnd1 rnd2 : nat -> Draw) (sys : Instance * Timers)
  : Instance * Timers :=
  let '(this, tm) := sys in
  if existsb (fun timer => (fst timer =? id)%nat) (scheduled tm)
  then (set_fields (terraformStep (options this) now rnd1 rnd2 (fields this)) this, tm)
  else sys.

(** The loop of [clearAllSpawners] over the keys [ps]: each key splits
    into three parts that parse back to its coordinates, and the cell is
    set to air. *)
Definition clearCells (ps : list Pos) (st : Terraforming) : Terraforming :=
  fold_left (fun s posKey => let '(x, y, z) := posKey in setBlock x y z 0 s) ps st.

Definition clearAllSpawners (this : Instance) : Instance :=
  let st := fields this in
  let st1 := clearCells (spawnerPositions st) st in
  note LogAllSpawnersCleared (set_fields (set_spawnerPositions [] st1) this).

Definition getSpawnerCount (this : Instance) : nat :=
  length (spawnerPositions (fields this)).

(** The copy holds the same target objects. *)
Definition getCompletedTargets (this : Instance) : list nat :=
  completedTargets (fields this).

Definition isSpawnerBlock (this : Instance) (x y z : Z) : bool :=
  bool_decide ((x, y, z) ∈ spawnerPositions (fields this)).

Record Status : Type := mkStatus {
  status_isActive : bool;
  status_centerX : Z;
  status_centerZ : Z;
  status_size : Z;
  status_currentTarget : option nat;
  status_elevationSpeed : Q;
  status_spawnerCount : nat;
  status_spawnerPositions : list Pos;
  status_activeSpawnerCount : nat;
  status_completedTargetsCount : nat;
  status_hasInitialSpawners : bool;
  status_initialSpawnPoints : list (Z * Z);
  status_spawnerSpreadRadius : Q
}.

Definition getStatus (this : Instance) : Status :=
  mkStatus (isActive this)
    (centerX (options this)) (centerZ (options this)) (size (options this))
    (currentTarget (fields this)) (elevationSpeed (options this))
    (getSpawnerCount this)
    (getSpawnerPositions (fields this))
    (length (getActiveSpawnerPositions (options this) (fields this)))
    (length (completedTargets (fields this)))
    (hasInitialSpawners (fields this))
    (initialSpawnPoints (options this))
    (spawnerSpreadRadius (options this)).

(** The chat command [/zoneN_toggle] of [src/index.ts]. *)
Definition toggle (now : Z) (rnd : nat -> Draw) (sys : Instance * Timers) : Instance * Timers :=
  let status := getStatus (fst sys) in
  if status_isActive status then stop sys else start now rnd sys.

(** What can happen to an instance, and a history of such events. *)
Inductive Event : Type :=
| Start (now : Z) (rnd : nat -> Draw)
| Stop
| Toggle (now : Z) (rnd : nat -> Draw)
| Fire (id : nat) (now : Z) (rnd1 rnd2 : nat -> Draw)
| ClearAllSpawners.

Definition handle (sys : Instance * Timers) (e : Event) : Instance * Timers :=
  match e with
  | Start now rnd => start now rnd sys
  | Stop => stop sys
  | Toggle now rnd => toggle now rnd sys
  | Fire id now rnd1 rnd2 => fire id now rnd1 rnd2 sys
  | ClearAllSpawners => (clearAllSpawners (fst sys), snd sys)
  end.

Definition run (events : list Event) (sys : Instance * Timers) : Instance * Timers :=
  fold_left handle events sys.

(** A new instance in a runtime without timers. *)
Definition create (world : World) (given : OptionsGiven) : Instance * Timers :=
  (constructor world given, mkTimers [] 0).

End Lifecycle.

(** ** Ticks with their own clock readings and draws *)

Record Tick : Type := mkTick {
  clock : Z;
  draws1 : nat -> Draw;
  draws2 : nat -> Draw
}.

Definition runSchedule (cfg : TerraformingOptions) (ticks : list Tick) (st : Terraforming)
  : Terraforming :=
  fold_left (fun s k => terraformStep cfg (clock k) (draws1 k) (draws2 k) s) ticks st.

(** ** Notions of the growth of a hill *)

(** Every column of the window of [t] that is inside the zone lies within
    the wave at the clock reading [now]. *)
Definition waveCovers (cfg : TerraformingOptions) (now : Z) (t : TerraformingTarget) : Prop :=
  ∀ x z, (x, z) ∈ windowColumns (target_x t) (target_z t) (terraformSize cfg / 2) →
         isWithinBounds cfg x z = true →
         sqrt_gt (columnDistance2 t x z) (currentWaveRadius cfg now t) = false.

(** The zone works on the target [t], stored at [r], its spawner is in the
    grid, and the grid throws nowhere. *)
Definition growing (cfg : TerraformingOptions) (r : nat) (t : TerraformingTarget)
           (st : Terraforming) : Prop :=
  ((∀ p, unreadable (world st) p = false) ∧ (∀ p, unwritable (world st) p = false)) ∧
  currentTarget st = Some r ∧ targets st !! r = Some t ∧
  (∀ p, spawnerPosition t = Some p → isSpawnerBlockPresent cfg (world st) p = true).

(** No column that the hill of [t] is to raise stands more than [k] levels
    below its height. *)
Definition deficitAtMost (cfg : TerraformingOptions) (t : TerraformingTarget) (k : Z)
           (w : World) : Prop :=
  ∀ x z, (x, z) ∈ windowColumns (target_x t) (target_z t) (terraformSize cfg / 2) →
         isWithinBounds cfg x z = true →
         1 <= columnTargetHeight cfg t x z →
         columnTargetHeight cfg t x z - getCurrentHeight cfg w x z <= k.

(** The hill zone after its first tick. *)
Definition hillStarted : Terraforming :=
  terraformStep hillZone 0 eastward eastward (freshZone clayStrip).

(** An instance with the defaults of the class (elevation 5, window 10,
    one step every ten seconds, speed [0.5]) on an empty grid, started at
    clock 0; and the zone after the eight ticks from clock 150000 on, when
    the wave has covered the window. *)
Definition classDefaults : OptionsGiven :=
  mkGiven 0 0 40 None None None None None None None None.

Definition defaultZone : TerraformingOptions :=
  Lifecycle.options (Lifecycle.constructor emptyWorld classDefaults).

Definition defaultHill : Terraforming :=
  runTicks defaultZone eastward eastward
    [150000; 160000; 170000; 180000; 190000; 200000; 210000; 220000]
    (Lifecycle.fields (fst (Lifecycle.start 0 eastward (Lifecycle.create emptyWorld classDefaults)))).

(** ** The earlier variant of the class, without spawners

    The second class of [src/terraforming.ts] picks its targets at random
    inside the zone.  Its two loops are those of the spawner variant line
    for line, so the embedding runs [sweep] on a state that holds the grid
    and the console and nothing else. *)

Module Legacy.

(** The grid and the console that the shared loops leave. *)
Definition gridOf (st : Terraforming) : World := world st.
Definition consoleOf (st : Terraforming) : list LogEntry := console st.

Record Target : Type := mkLegacyTarget {
  x : Z;
  y : Z;
  z : Z;
  startTime : Z
}.

Record State : Type := mkLegacy {
  world : World;
  currentTarget : option Target;
  console : list LogEntry
}.

Section Zone.

Variable cfg : TerraformingOptions.

(** [u] and [v] are the two results of [Math.random ()]. *)
Definition selectNewTarget (now : Z) (u v : Q) (st : State) : State :=
  let halfSize := size cfg / 2 in
  let minX := centerX cfg - halfSize in
  let maxX := centerX cfg + halfSize - 1 in
  let minZ := centerZ cfg - halfSize in
  let maxZ := centerZ cfg + halfSize - 1 in
  let terraformHalf := terraformSize cfg / 2 in
  let targetX :=
    Qfloor (u * inject_Z (maxX - minX + 1 - terraformSize cfg)) + minX + terraformHalf in
  let targetZ :=
    Qfloor (v * inject_Z (maxZ - minZ + 1 - terraformSize cfg)) + minZ + terraformHalf in
  mkLegacy (world st)
           (Some (mkLegacyTarget targetX (targetHeight cfg) targetZ now))
           (LogNewTarget targetX (targetHeight cfg) targetZ :: console st).

(** The target as the shared loops read it. *)
Definition asTarget (t : Target) : TerraformingTarget :=
  mkTarget (x t) (y t) (z t) (startTime t) None true.

Definition terraformStep (now : Z) (u v : Q) (st : State) : State :=
  match currentTarget st with
  | None => selectNewTarget now u v st
  | Some t =>
      let sw := sweep cfg now (asTarget t)
                      (mkState (world st) [] None [] [] false (console st)) in
      let st1 := mkLegacy (gridOf (zone sw)) (Some t)
                   (LogStep (blocksModified sw) (currentWaveRadius cfg now (asTarget t))
                    :: consoleOf (zone sw)) in
      if targetComplete sw
      then selectNewTarget now u v
             (mkLegacy (world st1) (currentTarget st1) (LogHillCompleted :: console st1))
      else st1
  end.

End Zone.

End Legacy.

(** ** Block breaking ([src/blockBreaking.ts]) *)

Module TerrainManager.

(** What [damageBlock] reads of a block: its coordinate and the id of its type. *)
Record Block : Type := mkBlock {
  globalCoordinate : Pos;
  blockType : Z
}.

Record Tracker : Type := mkTracker {
  blockId : Z;
  damage : Z
}.

(** [_blockDamages]: the map is keyed by the text ["x,y,z"] of a
    coordinate, which names the coordinate. *)
Abbreviation Damages := (gmap Pos Tracker).

Definition thresholds : list (Z * Z) :=
  [(4, 10); (19, 25); (2, 8); (7, 8); (17, 8); (1, 15); (3, 20)].

(** [thresholds[blockId] || 20]. *)
Definition getBreakThreshold (blockId : Z) : Z :=
  match List.find (fun entry => fst entry =? blockId) thresholds with
  | Some entry => if snd entry =? 0 then 20 else snd entry
  | None => 20
  end.

(** What a call leaves: what it returns or that it throws, the grid and
    the map (which an exception does not roll back). *)
Record Damaged : Type := mkDamaged {
  returned : Outcome bool;
  worldAfter : World;
  blockDamagesAfter : Damages
}.

Definition damageBlock (world : World) (blockDamages : Damages) (block : Block) (amount : Z)
  : Damaged :=
  let '(x, y, z) := globalCoordinate block in
  let key := (x, y, z) in
  if (Z.abs x <=? 2) && (Z.abs z <=? 2) && (y =? 0)
  then mkDamaged (Returns false) world blockDamages
  else
    let tracker := default (mkTracker (blockType block) 0) (blockDamages !! key) in
    let tracker' := mkTracker (blockId tracker) (damage tracker + amount) in
    let blockDamages1 := <[key := tracker']> blockDamages in
    let threshold := getBreakThreshold (blockType block) in
    if damage tracker' >=? threshold then
      match lattice_setBlock world key 0 with
      | Returns world' => mkDamaged (Returns true) world' (delete key blockDamages1)
      | Throws => mkDamaged Throws world blockDamages1
      end
    else mkDamaged (Returns false) world blockDamages1.

End TerrainManager.

Module PickaxeEntity.

Definition damage : Z := 10.
Definition range : Z := 4.

(** What [use] reads of the player: the position, the facing direction
    of the camera, and whether the entity is in a world. *)
Record Player : Type := mkPlayer {
  position : Q * Q * Q;
  facingDirection : Q * Q * Q;
  inWorld : bool
}.

Inductive Animation : Type :=
| Attack
| SimpleInteract.

(** What a call of [use] leaves: the cooldown flag, whether it has set the
    500 ms timeout that clears the flag, the animations it has started,
    newest first, and the blocks whose [damageBlock] calls it has set for
    100 ms later, in the order of the calls. *)
Record Swing : Type := mkSwing {
  cooldown : bool;
  cooldownTimeout : bool;
  animations : list Animation;
  delayed : list TerrainManager.Block
}.

(** The block that the player stands on: [Math.floor] of the position,
    with the level lowered by the double [0.1]. *)
Definition standingBlock (player : Player) : Pos :=
  let '(px, py, pz) := position player in
  (Double.floor (Double.ofQ px),
   Double.floor (Double.sub (Double.ofQ py) (Double.ofQ (1 # 10))),
   Double.floor (Double.ofQ pz)).

(** [Math.sqrt (x * x + z * z)] of the horizontal facing direction. *)
Definition horizontalLength (player : Player) : Q :=
  let '(fx, _, fz) := facingDirection player in
  let x := Double.ofQ fx in
  let z := Double.ofQ fz in
  Double.sqrt (Double.add (Double.mul x x) (Double.mul z z)).

(** The body of the loop over the two origins; [hit] is the block that the
    ray cast from the origin has met, if it has met one. *)
Definition strike (player : Player) (acc : Swing) (hit : option TerrainManager.Block) : Swing :=
  match hit with
  | None => acc
  | Some hitBlock =>
      let '(hx, hy, hz) := TerrainManager.globalCoordinate hitBlock in
      let '(sx, sy, sz) := standingBlock player in
      if hy <=? 0 then acc
      else if (hx =? sx) && (hy =? sy) && (hz =? sz) then acc
      else mkSwing (cooldown acc) (cooldownTimeout acc) (SimpleInteract :: animations acc)
                   (delayed acc ++ [hitBlock])
  end.

(** [raycast i] is the answer of [world.simulation.raycast] for the origin
    [i]: the feet for 0, one level above for 1. *)
Definition use (cooldown0 : bool) (player : Player) (raycast : nat -> option TerrainManager.Block)
  : Swing :=
  if cooldown0 then mkSwing true false [] []
  else if negb (inWorld player) then mkSwing true true [] []
  else
    let started := mkSwing true true [SimpleInteract; Attack] [] in
    (* [length === 0] *)
    if Qeq_bool (horizontalLength player) 0 then started
    else fold_left (strike player) (map raycast [0%nat; 1%nat]) started.

End PickaxeEntity.

(** The calls of [damageBlock] in [calls], one after the other; a call that
    throws ends alone, the later ones still run. *)
Definition damageBlocks (calls : list (TerrainManager.Block * Z))
           (s : World * TerrainManager.Damages) : World * TerrainManager.Damages :=
  fold_left (fun s call =>
               let r := TerrainManager.damageBlock (fst s) (snd s) (fst call) (snd call) in
               (TerrainManager.worldAfter r, TerrainManager.blockDamagesAfter r))
            calls s.

(** The rule that protects the floor of the bunker. *)
Definition bunkerFloor (p : Pos) : Prop :=
  let '(x, y, z) := p in Z.abs x <= 2 ∧ Z.abs z <= 2 ∧ y = 0.

(** The number of hits of [amount] that reach the threshold of a block type. *)
Definition hitsToBreak (blockType amount : Z) : nat :=
  Z.to_nat ((TerrainManager.getBreakThreshold blockType + amount - 1) / amount).

(** ** Notions used in the statements on the instance *)

(** What holds of an instance and the timers it has set between any two events. *)
Definition timerInvariant (sys : Lifecycle.Instance * Timers) : Prop :=
  (Lifecycle.isActive (fst sys) = true ∧
   ∃ id, Lifecycle.intervalId (fst sys) = Some id ∧
         scheduled (snd sys) = [(id, intervalMs (Lifecycle.options (fst sys)))]) ∨
  (Lifecycle.isActive (fst sys) = false ∧ Lifecycle.intervalId (fst sys) = None ∧
   scheduled (snd sys) = []).

(** [w'] differs from [w] only at cells of columns inside the zone, at
    level 0 or above, which now hold the terraforming block, the spawner
    block or air. *)
Definition writtenWithin (cfg : TerraformingOptions) (w w' : World) : Prop :=
  unreadable w' = unreadable w ∧ unwritable w' = unwritable w ∧
  ∀ x y z, cells w' !! (x, y, z) ≠ cells w !! (x, y, z) →
    isWithinBounds cfg x z = true ∧ 0 <= y ∧
    ∃ b, cells w' !! (x, y, z) = Some (IdNum b) ∧
         (b = blockTypeId cfg ∨ b = spawnerBlockId cfg ∨ b = 0).

(** The registry holds no key twice, and every key is a cell of a column
    inside the zone at level 2 or above. *)
Definition registryWithin (cfg : TerraformingOptions) (ps : list Pos) : Prop :=
  NoDup ps ∧ ∀ x y z, (x, y, z) ∈ ps → isWithinBounds cfg x z = true ∧ 2 <= y.

(** The same for every event. *)
Definition zoneInvariant (world0 : World) (sys : Lifecycle.Instance * Timers) : Prop :=
  writtenWithin (Lifecycle.options (fst sys)) world0 (world (Lifecycle.fields (fst sys))) ∧
  registryWithin (Lifecycle.options (fst sys)) (spawnerPositions (Lifecycle.fields (fst sys))).

(** The initial spawners have been placed, the registry is empty, and the
    current target, if it is active, is bound to a spawner that the grid
    no longer holds. *)
Definition spent (cfg : TerraformingOptions) (st : Terraforming) : Prop :=
  hasInitialSpawners st = true ∧ spawnerPositions st = [] ∧
  ∀ r t, currentTarget st = Some r → targets st !! r = Some t → isActive t = true →
         ∃ p, spawnerPosition t = Some p ∧ isSpawnerBlockPresent cfg (world st) p = false.

(** The same of an instance, with the grid [w] and [n] targets in the store. *)
Definition spentAt (w : World) (n : nat) (sys : Lifecycle.Instance * Timers) : Prop :=
  spent (Lifecycle.options (fst sys)) (Lifecycle.fields (fst sys)) ∧
  world (Lifecycle.fields (fst sys)) = w ∧
  length (targets (Lifecycle.fields (fst sys))) = n.

(** The current target and every archived target are objects of the store. *)
Definition referencesValid (st : Terraforming) : Prop :=
  (∀ r, currentTarget st = Some r → (r < length (targets st))%nat) ∧
  (∀ c, c ∈ completedTargets st → (c < length (targets st))%nat).

(** History and store between two states of an instance. *)
Definition historyGrows (st st' : Terraforming) : Prop :=
  (∃ more, completedTargets st' = completedTargets st ++ more) ∧
  (length (targets st) <= length (targets st'))%nat ∧
  (referencesValid st → referencesValid st').

(** * Properties *)

(** Closes a goal that holds by evaluation. *)
Ltac by_computation :=
  solve [ reflexivity | vm_compute; reflexivity | vm_compute; discriminate
        | vm_compute; intuition (discriminate || lia) ].

(** ** Ranges and windows *)

Lemma elem_of_zrange (lo : Z) (n : nat) (v : Z) :
  v ∈ zrange lo n ↔ lo <= v < lo + Z.of_nat n.
Proof.
  unfold zrange. rewrite list_elem_of_fmap. split.
  - intros (i & -> & Hi). apply elem_of_seq in Hi. lia.
  - intros Hv. exists (Z.to_nat (v - lo)). split; [lia|].
    apply elem_of_seq. lia.
Qed.

Lemma NoDup_zrange (lo : Z) (n : nat) : NoDup (zrange lo n).
Proof.
  unfold zrange. apply NoDup_fmap_2_strong; [|apply NoDup_seq].
  intros i j _ _ Hij. lia.
Qed.

Lemma length_zrange (lo : Z) (n : nat) : length (zrange lo n) = n.
Proof. unfold zrange. now rewrite length_map, length_seq. Qed.

Lemma elem_of_columns (xs zs : list Z) (x z : Z) :
  (x, z) ∈ flat_map (fun x' => map (fun z' => (x', z')) zs) xs ↔ x ∈ xs ∧ z ∈ zs.
Proof.
  rewrite list_elem_of_In, in_flat_map. split.
  - intros (x' & Hx' & Hin). apply in_map_iff in Hin as (z' & Heq & Hz').
    inversion Heq; subst. now rewrite !list_elem_of_In.
  - intros [Hx Hz]. exists x. rewrite <- list_elem_of_In. split; [done|].
    apply in_map_iff. exists z. now rewrite <- list_elem_of_In.
Qed.

Lemma NoDup_columns (xs zs : list Z) :
  NoDup xs → NoDup zs → NoDup (flat_map (fun x' => map (fun z' => (x', z')) zs) xs).
Proof.
  intros Hxs Hzs. induction Hxs as [|x xs Hx Hxs IH]; simpl; [constructor|].
  apply NoDup_app. split; [|split; [|exact IH]].
  - apply NoDup_fmap_2_strong; [|done]. intros a b _ _ Hab. congruence.
  - intros [x' z'] Hin Hin'. apply list_elem_of_fmap in Hin as (z0 & Heq & _).
    inversion Heq; subst. apply elem_of_columns in Hin' as [Hin' _]. done.
Qed.

Lemma length_columns (xs zs : list Z) :
  length (flat_map (fun x' => map (fun z' => (x', z')) zs) xs) = (length xs * length zs)%nat.
Proof.
  induction xs as [|x xs IH]; simpl; [done|].
  now rewrite length_app, length_map, IH.
Qed.

Lemma elem_of_windowColumns (tx tz half x z : Z) :
  (x, z) ∈ windowColumns tx tz half ↔
  tx - half <= x < tx + half ∧ tz - half <= z < tz + half.
Proof.
  unfold windowColumns. rewrite elem_of_columns, !elem_of_zrange. lia.
Qed.

Lemma NoDup_windowColumns (tx tz half : Z) : NoDup (windowColumns tx tz half).
Proof. apply NoDup_columns; apply NoDup_zrange. Qed.

Lemma length_windowColumns (tx tz half : Z) :
  0 <= half → Z.of_nat (length (windowColumns tx tz half)) = (2 * half) * (2 * half).
Proof.
  intros Hh. unfold windowColumns. rewrite length_columns, !length_zrange. lia.
Qed.

(** ** Bounds policy *)

Lemma isWithinBounds_spec (cfg : TerraformingOptions) (x z : Z) :
  isWithinBounds cfg x z = true ↔
  centerX cfg - size cfg / 2 <= x <= centerX cfg + size cfg / 2 - 1 ∧
  centerZ cfg - size cfg / 2 <= z <= centerZ cfg + size cfg / 2 - 1.
Proof.
  unfold isWithinBounds. cbv zeta.
  rewrite !andb_true_iff, !Z.geb_le, !Z.leb_le. lia.
Qed.

(** C8. [isWithinBounds] accepts [(x, z)] exactly when
    [centerX - half <= x <= centerX + half - 1] and
    [centerZ - half <= z <= centerZ + half - 1] with [half = floor (size / 2)].
    It is a function of the options and the column alone: its answer
    does not depend on the state of the zone, and it returns no state. *)
Theorem isWithinBounds_iff (cfg : TerraformingOptions) (x z : Z) :
  let half := size cfg / 2 in
  (isWithinBounds cfg x z = true ↔
   (centerX cfg - half <= x ∧ x <= centerX cfg + half - 1) ∧
   (centerZ cfg - half <= z ∧ z <= centerZ cfg + half - 1)) ∧
  (isWithinBounds cfg x z = false ↔
   ¬ ((centerX cfg - half <= x ∧ x <= centerX cfg + half - 1) ∧
      (centerZ cfg - half <= z ∧ z <= centerZ cfg + half - 1))).
Proof.
  cbv zeta. split.
  - rewrite isWithinBounds_spec. lia.
  - rewrite <- not_true_iff_false, isWithinBounds_spec. lia.
Qed.

Lemma footprint_spec (cfg : TerraformingOptions) (x z : Z) :
  (x, z) ∈ footprint cfg ↔ isWithinBounds cfg x z = true.
Proof.
  unfold footprint. cbv zeta. rewrite elem_of_windowColumns, isWithinBounds_spec. lia.
Qed.

(** The claim of C7 fails for an odd side: the zone of side 3 around the
    origin accepts the four columns of [[-1, 0] x [-1, 0]], not nine. *)
Lemma footprint_odd_size_counterexample :
  0 < size oddZone ∧
  NoDup [(-1, -1); (-1, 0); (0, -1); (0, 0)] ∧
  (∀ x z, (x, z) ∈ [(-1, -1); (-1, 0); (0, -1); (0, 0)] ↔ isWithinBounds oddZone x z = true) ∧
  Z.of_nat (length [(-1, -1); (-1, 0); (0, -1); (0, 0)]) ≠ size oddZone * size oddZone.
Proof.
  split; [reflexivity|]. split; [|split].
  - change [(-1, -1); (-1, 0); (0, -1); (0, 0)] with (footprint oddZone).
    apply NoDup_windowColumns.
  - intros x z. change [(-1, -1); (-1, 0); (0, -1); (0, 0)] with (footprint oddZone).
    apply footprint_spec.
  - simpl. lia.
Qed.

(** C7, amended.  For a positive side the accepted columns are exactly
    those of [footprint]: [2 * floor (size / 2)] columns per side, which is
    [size] per side when [size] is even and [size - 1] when it is odd;
    moving the centre by [(dx, dz)] moves the accepted set by [(dx, dz)]. *)
Theorem footprint_count_and_shift (cfg : TerraformingOptions) :
  0 < size cfg →
  let half := size cfg / 2 in
  NoDup (footprint cfg) ∧
  (∀ x z, (x, z) ∈ footprint cfg ↔ isWithinBounds cfg x z = true) ∧
  Z.of_nat (length (footprint cfg)) = (2 * half) * (2 * half) ∧
  (Z.even (size cfg) = true → Z.of_nat (length (footprint cfg)) = size cfg * size cfg) ∧
  (Z.even (size cfg) = false →
   Z.of_nat (length (footprint cfg)) = (size cfg - 1) * (size cfg - 1)) ∧
  (∀ dx dz x z,
     isWithinBounds (shiftCenter dx dz cfg) (x + dx) (z + dz) = isWithinBounds cfg x z).
Proof.
  intros Hpos half.
  assert (Hhalf : 0 <= half) by (apply Z.div_pos; lia).
  assert (Hlen : Z.of_nat (length (footprint cfg)) = (2 * half) * (2 * half))
    by (apply length_windowColumns; exact Hhalf).
  split; [apply NoDup_windowColumns|].
  split; [apply footprint_spec|].
  split; [exact Hlen|].
  split; [|split].
  - intros Hev. rewrite Hlen. apply Z.even_spec in Hev as [k Hk].
    assert (k = half) by (subst half; apply Z.div_unique with 0; lia).
    subst k. rewrite Hk. lia.
  - intros Hodd. rewrite Hlen.
    assert (Ho : Z.odd (size cfg) = true) by (rewrite <- Z.negb_even, Hodd; done).
    apply Z.odd_spec in Ho as [k Hk].
    assert (k = half) by (subst half; apply Z.div_unique with 1; lia).
    subst k. rewrite Hk. lia.
  - intros dx dz x z. apply eq_true_iff_eq.
    rewrite !isWithinBounds_spec. simpl. lia.
Qed.

Lemma footprint_count_and_shift_witness :
  0 < size oddZone ∧
  Z.of_nat (length (footprint oddZone)) = (size oddZone - 1) * (size oddZone - 1).
Proof.
  split; [reflexivity|].
  apply (footprint_count_and_shift oddZone); reflexivity.
Defined.

(** ** Distances in exact arithmetic *)

Lemma Qlt_bool_iff (a b : Q) : Qlt_bool a b = true ↔ (a < b)%Q.
Proof.
  unfold Qlt_bool. rewrite negb_true_iff, <- not_true_iff_false, Qle_bool_iff.
  split; [apply Qnot_le_lt | apply Qlt_not_le].
Qed.

Lemma sqrt_le_spec (n : Z) (r : Q) :
  sqrt_le n r = true ↔ (0 <= r)%Q ∧ (inject_Z n <= r * r)%Q.
Proof. unfold sqrt_le. now rewrite andb_true_iff, !Qle_bool_iff. Qed.

Lemma sqrt_lt_spec (n : Z) (r : Q) :
  sqrt_lt n r = true ↔ (0 < r)%Q ∧ (inject_Z n < r * r)%Q.
Proof. unfold sqrt_lt. now rewrite andb_true_iff, !Qlt_bool_iff. Qed.

Lemma sqrt_gt_spec (n : Z) (r : Q) :
  sqrt_gt n r = true ↔ (r < 0)%Q ∨ (r * r < inject_Z n)%Q.
Proof.
  unfold sqrt_gt. rewrite negb_true_iff, <- not_true_iff_false, sqrt_le_spec.
  split.
  - intros Hn. destruct (Qlt_le_dec r 0) as [Hr|Hr]; [now left|].
    right. apply Qnot_le_lt. tauto.
  - intros [Hr|Hr] [H0 Hle].
    + exact (Qlt_not_le _ _ Hr H0).
    + exact (Qlt_not_le _ _ Hr Hle).
Qed.

Lemma sqrt_lt_minDistance (n : Z) : sqrt_lt n minDistance = false ↔ 25 <= n.
Proof.
  rewrite <- not_true_iff_false, sqrt_lt_spec. unfold minDistance.
  split.
  - intros Hn. destruct (Z_lt_le_dec n 25) as [Hlt|Hge]; [|exact Hge].
    exfalso. apply Hn. split; [reflexivity|].
    change (5 * 5)%Q with (inject_Z 25). rewrite <- Zlt_Qlt. exact Hlt.
  - intros Hge [_ Hlt]. change (5 * 5)%Q with (inject_Z 25) in Hlt.
    rewrite <- Zlt_Qlt in Hlt. lia.
Qed.

Lemma stepsElapsed_floor (cfg : TerraformingOptions) (now : Z) (t : TerraformingTarget) :
  stepsElapsed cfg now t = Qfloor (inject_Z (now - startTime t) / inject_Z (intervalMs cfg)).
Proof. unfold stepsElapsed. apply Zdiv_Qdiv. Qed.

(** ** Doubles

    No double lies strictly between a number and its rounding, so a bound
    that is a double survives the rounding of an operation. *)

Lemma pow2_pos (e : Z) : (0 < Double.pow2 e)%Q.
Proof. apply Qpower_0_lt. reflexivity. Qed.

Lemma pow2_add (a b : Z) : (Double.pow2 (a + b) == Double.pow2 a * Double.pow2 b)%Q.
Proof. apply Qpower_plus. discriminate. Qed.

Lemma pow2_inject (n : Z) : 0 <= n → (Double.pow2 n == inject_Z (2 ^ n))%Q.
Proof. intros Hn. unfold Double.pow2. now rewrite (Zpower_Qpower 2 n Hn). Qed.

Lemma pow2_le (a b : Z) : a <= b → (Double.pow2 a <= Double.pow2 b)%Q.
Proof. intros Hab. apply Qpower_le_compat_l; [exact Hab|discriminate]. Qed.

Lemma pow2_lt (a b : Z) : a < b → (Double.pow2 a < Double.pow2 b)%Q.
Proof. intros Hab. apply Qpower_lt_compat_l; [exact Hab|reflexivity]. Qed.

Lemma pow2_lt_inv (a b : Z) : (Double.pow2 a < Double.pow2 b)%Q → a < b.
Proof. intros H. apply (Qpower_lt_compat_l_inv 2); [exact H|reflexivity]. Qed.

(** [q / pow2 e] is [q * pow2 (- e)]. *)
Lemma Qdiv_pow2 (q : Q) (e : Z) : (q / Double.pow2 e * Double.pow2 e == q)%Q.
Proof. pose proof (pow2_pos e). field. intros H0. rewrite H0 in H. discriminate. Qed.

Lemma Qle_div_pow2 (q v : Q) (e : Z) :
  (v * Double.pow2 e <= q)%Q ↔ (v <= q / Double.pow2 e)%Q.
Proof.
  pose proof (pow2_pos e) as Hp. split; intros H.
  - apply Qle_shift_div_l; assumption.
  - rewrite <- (Qdiv_pow2 q e). apply Qmult_le_compat_r; [exact H|now apply Qlt_le_weak].
Qed.

Lemma Qlt_div_pow2 (q v : Q) (e : Z) :
  (q < v * Double.pow2 e)%Q ↔ (q / Double.pow2 e < v)%Q.
Proof.
  pose proof (pow2_pos e) as Hp. split; intros H.
  - apply Qlt_shift_div_r; assumption.
  - rewrite <- (Qdiv_pow2 q e). apply Qmult_lt_compat_r; assumption.
Qed.

Lemma log2floor_spec (q : Q) :
  (0 < q)%Q ->
  (Double.pow2 (Double.log2floor q) <= q)%Q ∧ (q < Double.pow2 (Double.log2floor q + 1))%Q.
Proof.
  intros Hq. destruct q as [a b]. unfold Double.log2floor. cbn [Qnum Qden].
  assert (Ha : 0 < a) by (unfold Qlt in Hq; cbn in Hq; lia).
  set (la := Z.log2 a). set (lb := Z.log2 (Z.pos b)).
  destruct (Z.log2_spec a Ha) as [Ha1 Ha2]. fold la in Ha1, Ha2.
  destruct (Z.log2_spec (Z.pos b) ltac:(lia)) as [Hb1 Hb2]. fold lb in Hb1, Hb2.
  assert (Hla : 0 <= la) by apply Z.log2_nonneg.
  assert (Hlb : 0 <= lb) by apply Z.log2_nonneg.
  assert (Hq' : (a # b == inject_Z a / inject_Z (Z.pos b))%Q) by apply Qmake_Qdiv.
  assert (Hbpos : (0 < inject_Z (Z.pos b))%Q) by reflexivity.
  assert (Hlow : (Double.pow2 (la - lb - 1) <= a # b)%Q).
  { rewrite Hq'. apply Qle_shift_div_l; [exact Hbpos|].
    apply Qle_trans with (Double.pow2 (la - lb - 1) * Double.pow2 (lb + 1))%Q.
    - apply Qmult_le_l; [apply pow2_pos|].
      rewrite pow2_inject by lia. rewrite <- Zle_Qle. lia.
    - rewrite <- pow2_add. replace (la - lb - 1 + (lb + 1)) with la by lia.
      rewrite pow2_inject by lia. rewrite <- Zle_Qle. exact Ha1. }
  assert (Hhigh : (a # b < Double.pow2 (la - lb + 1))%Q).
  { rewrite Hq'. apply Qlt_shift_div_r; [exact Hbpos|].
    apply Qlt_le_trans with (Double.pow2 (la - lb + 1) * Double.pow2 lb)%Q.
    - rewrite <- pow2_add. replace (la - lb + 1 + lb) with (Z.succ la) by lia.
      rewrite pow2_inject by lia. rewrite <- Zlt_Qlt. exact Ha2.
    - apply Qmult_le_l; [apply pow2_pos|].
      rewrite pow2_inject by lia. rewrite <- Zle_Qle. exact Hb1. }
  destruct (Qle_bool (Double.pow2 (la - lb)) (a # b)) eqn:Htest.
  - apply Qle_bool_iff in Htest. split; [exact Htest|exact Hhigh].
  - split; [exact Hlow|].
    replace (la - lb - 1 + 1) with (la - lb) by lia.
    apply Qnot_le_lt. intros Hle. apply Qle_bool_iff in Hle. congruence.
Qed.

Lemma Qfloor_inject_le (I : Z) (M : Q) : (inject_Z I <= M)%Q → I <= Qfloor M.
Proof. intros H. rewrite <- (Qfloor_Z I). now apply Qfloor_resp_le. Qed.

Lemma nearestEven_rounds : Double.rounds Double.nearestEven.
Proof.
  intros M. unfold Double.nearestEven.
  destruct (Qcompare_spec (M - inject_Z (Qfloor M)) (1 # 2)) as [Heq|Hlt|Hgt].
  - destruct (Z.even (Qfloor M)); [now left|]. right. split; [reflexivity|].
    Lqa.lra.
  - now left.
  - right. split; [reflexivity|]. Lqa.lra.
Qed.

Lemma Qfloor_rounds : Double.rounds Qfloor.
Proof. intros M. now left. Qed.

Lemma rounds_ge (choose : Q → Z) (M : Q) : Double.rounds choose → Qfloor M <= choose M.
Proof. intros H. destruct (H M) as [->|[-> _]]; lia. Qed.

Section RoundPositive.

Variable choose : Q → Z.
Hypothesis choose_rounds : Double.rounds choose.
Variable q : Q.
Hypothesis q_pos : (0 < q)%Q.

Let l := Double.log2floor q.
Let e := Z.max (l - 52) Double.minExponent.
Let M := (q / Double.pow2 e)%Q.

Lemma mantissa_pos : (0 < M)%Q.
Proof. apply Qlt_shift_div_l; [apply pow2_pos|]. now rewrite Qmult_0_l. Qed.

Lemma mantissa_lt : (M < inject_Z (2 ^ 53))%Q.
Proof.
  apply Qlt_div_pow2. rewrite <- pow2_inject by lia. rewrite <- pow2_add.
  apply Qlt_le_trans with (Double.pow2 (l + 1)); [apply (log2floor_spec q q_pos)|].
  apply pow2_le. subst e. lia.
Qed.

Lemma mantissa_ge : e = l - 52 → (inject_Z (2 ^ 52) <= M)%Q.
Proof.
  intros He. apply Qle_div_pow2. rewrite <- pow2_inject by lia. rewrite <- pow2_add.
  rewrite He. replace (52 + (l - 52)) with l by lia. apply (log2floor_spec q q_pos).
Qed.

Lemma chosen_nonneg : 0 <= choose M.
Proof.
  pose proof (rounds_ge choose M choose_rounds). pose proof mantissa_pos as HM.
  assert (0 <= Qfloor M); [|lia].
  apply Qfloor_inject_le. now apply Qlt_le_weak.
Qed.

Lemma chosen_le : choose M <= 2 ^ 53.
Proof.
  pose proof mantissa_lt as HM.
  assert (Qfloor M < 2 ^ 53).
  { apply Z.lt_nge. intros Hge.
    assert (Hle : (inject_Z (2 ^ 53) <= inject_Z (Qfloor M))%Q) by (rewrite <- Zle_Qle; exact Hge).
    pose proof (Qfloor_le M). Lqa.lra. }
  destruct (choose_rounds M) as [->|[-> _]]; lia.
Qed.

Lemma roundPositive_eq : Double.roundPositive choose q = (inject_Z (choose M) * Double.pow2 e)%Q.
Proof. reflexivity. Qed.

Lemma roundPositive_nonneg : (0 <= Double.roundPositive choose q)%Q.
Proof.
  rewrite roundPositive_eq. apply Qmult_le_0_compat.
  - change 0%Q with (inject_Z 0). rewrite <- Zle_Qle. apply chosen_nonneg.
  - apply Qlt_le_weak, pow2_pos.
Qed.

Lemma roundPositive_representable : Double.representable (Double.roundPositive choose q).
Proof.
  exists (choose M), e. split; [subst e; lia|]. split; [|reflexivity].
  pose proof chosen_nonneg. pose proof chosen_le. lia.
Qed.

(** A double of exponent [ev >= e] is a multiple of [pow2 e]. *)
Lemma roundPositive_multiple (mv ev : Z) :
  e <= ev ->
  (inject_Z mv * Double.pow2 ev == inject_Z (mv * 2 ^ (ev - e)) * Double.pow2 e)%Q.
Proof.
  intros Hle. rewrite inject_Z_mult, <- pow2_inject by lia.
  rewrite <- Qmult_assoc, <- pow2_add. now replace (ev - e + e) with ev by lia.
Qed.

(** A double of exponent [ev < e] is at most [2^52 * pow2 e]. *)
Lemma roundPositive_small (mv ev : Z) :
  ev < e → mv <= 2 ^ 53 ->
  (inject_Z mv * Double.pow2 ev <= inject_Z (2 ^ 52) * Double.pow2 e)%Q.
Proof.
  intros Hlt Hmv.
  apply Qle_trans with (inject_Z (2 ^ 53) * Double.pow2 ev)%Q.
  - apply Qmult_le_compat_r; [rewrite <- Zle_Qle; exact Hmv|apply Qlt_le_weak, pow2_pos].
  - rewrite <- !pow2_inject by lia. rewrite <- !pow2_add. apply pow2_le. lia.
Qed.

Lemma roundPositive_lower (v : Q) :
  Double.representable v → (v <= q)%Q → (v <= Double.roundPositive choose q)%Q.
Proof.
  intros (mv & ev & Hev & Hmv & Hv) Hle. rewrite roundPositive_eq.
  pose proof (rounds_ge choose M choose_rounds) as Hchoose.
  destruct (Z_le_gt_dec e ev) as [Hcase|Hcase].
  - rewrite Hv, (roundPositive_multiple mv ev Hcase).
    apply Qmult_le_compat_r; [|apply Qlt_le_weak, pow2_pos].
    rewrite <- Zle_Qle. eapply Z.le_trans; [|exact Hchoose].
    apply Qfloor_inject_le. apply Qle_div_pow2.
    rewrite <- (roundPositive_multiple mv ev Hcase), <- Hv. exact Hle.
  - rewrite Hv. eapply Qle_trans; [apply (roundPositive_small mv ev); lia|].
    apply Qmult_le_compat_r; [|apply Qlt_le_weak, pow2_pos].
    rewrite <- Zle_Qle. eapply Z.le_trans; [|exact Hchoose].
    apply Qfloor_inject_le. apply mantissa_ge. subst e. unfold Double.minExponent in *. lia.
Qed.

Lemma roundPositive_upper (v : Q) :
  Double.representable v → (q <= v)%Q → (Double.roundPositive choose q <= v)%Q.
Proof.
  intros (mv & ev & Hev & Hmv & Hv) Hle. rewrite roundPositive_eq.
  destruct (Z_le_gt_dec e ev) as [Hcase|Hcase].
  - rewrite Hv, (roundPositive_multiple mv ev Hcase).
    apply Qmult_le_compat_r; [|apply Qlt_le_weak, pow2_pos].
    rewrite <- Zle_Qle.
    assert (HM : (M <= inject_Z (mv * 2 ^ (ev - e)))%Q).
    { unfold M. apply Qle_shift_div_r; [apply pow2_pos|].
      rewrite <- (roundPositive_multiple mv ev Hcase), <- Hv. exact Hle. }
    pose proof (Qfloor_le M) as Hfl.
    destruct (choose_rounds M) as [->|[-> Hoff]].
    + rewrite Zle_Qle. Lqa.lra.
    + assert (Hlt : (inject_Z (Qfloor M) < inject_Z (mv * 2 ^ (ev - e)))%Q) by Lqa.lra.
      rewrite <- Zlt_Qlt in Hlt. lia.
  - assert (He : e = l - 52) by (subst e; unfold Double.minExponent in *; lia).
    pose proof (roundPositive_small mv ev ltac:(lia) ltac:(lia)) as Hsmall. rewrite <- Hv in Hsmall.
    pose proof (mantissa_ge He) as Hge.
    apply Qle_div_pow2 in Hge. fold M in Hge.
    assert (HqM : (q == inject_Z (2 ^ 52) * Double.pow2 e)%Q) by (apply Qle_antisym; Lqa.lra).
    assert (HM : (M == inject_Z (2 ^ 52))%Q).
    { unfold M. rewrite HqM. pose proof (pow2_pos e). field.
      intros H0. rewrite H0 in H. discriminate. }
    assert (Hfl : Qfloor M = 2 ^ 52) by (rewrite HM; apply Qfloor_Z).
    destruct (choose_rounds M) as [->|[_ Hoff]].
    + rewrite Hfl, <- HqM. exact Hle.
    + rewrite Hfl, HM in Hoff. exfalso. exact (Qlt_irrefl _ Hoff).
Qed.

End RoundPositive.

Lemma representable_opp (v : Q) : Double.representable v → Double.representable (- v).
Proof.
  intros (m & e & He & Hm & Hv). exists (- m), e. split; [exact He|]. split; [lia|].
  rewrite Hv, inject_Z_opp. ring.
Qed.

Lemma representable_0 : Double.representable 0.
Proof. exists 0, 0. split; [unfold Double.minExponent; lia|]. split; [cbn; lia|reflexivity]. Qed.

Lemma representable_Z (n : Z) : Z.abs n <= 2 ^ 53 → Double.representable (inject_Z n).
Proof.
  intros Hn. exists n, 0. split; [unfold Double.minExponent; lia|]. split; [exact Hn|].
  unfold Double.pow2. rewrite Qpower_0_r. ring.
Qed.

Lemma roundWith_representable (choose : Q → Z) (q : Q) :
  Double.rounds choose → Double.representable (Double.roundWith choose q).
Proof.
  intros Hchoose. unfold Double.roundWith.
  destruct (Qcompare_spec q 0) as [Heq|Hlt|Hgt].
  - apply representable_0.
  - apply representable_opp, roundPositive_representable; [exact Hchoose|Lqa.lra].
  - apply roundPositive_representable; assumption.
Qed.

(** No double lies strictly between a number and its rounding. *)
Lemma roundWith_lower (choose : Q → Z) (q v : Q) :
  Double.rounds choose → Double.representable v → (v <= q)%Q → (v <= Double.roundWith choose q)%Q.
Proof.
  intros Hchoose Hv Hle. unfold Double.roundWith.
  destruct (Qcompare_spec q 0) as [Heq|Hlt|Hgt].
  - Lqa.lra.
  - assert (H : (Double.roundPositive choose (- q) <= - v)%Q).
    { apply roundPositive_upper; [exact Hchoose|Lqa.lra|now apply representable_opp|Lqa.lra]. }
    Lqa.lra.
  - now apply roundPositive_lower.
Qed.

Lemma roundWith_upper (choose : Q → Z) (q v : Q) :
  Double.rounds choose → Double.representable v → (q <= v)%Q → (Double.roundWith choose q <= v)%Q.
Proof.
  intros Hchoose Hv Hle. unfold Double.roundWith.
  destruct (Qcompare_spec q 0) as [Heq|Hlt|Hgt].
  - Lqa.lra.
  - assert (H : (- v <= Double.roundPositive choose (- q))%Q).
    { apply roundPositive_lower; [exact Hchoose|Lqa.lra|now apply representable_opp|Lqa.lra]. }
    Lqa.lra.
  - now apply roundPositive_upper.
Qed.

(** A number that is a double rounds to itself. *)
Lemma roundWith_exact (choose : Q → Z) (q v : Q) :
  Double.rounds choose → Double.representable v → (q == v)%Q → (Double.roundWith choose q == v)%Q.
Proof.
  intros Hchoose Hv Heq. apply Qle_antisym.
  - apply roundWith_upper; [assumption|assumption|Lqa.lra].
  - apply roundWith_lower; [assumption|assumption|Lqa.lra].
Qed.

Lemma round_lower (q v : Q) :
  Double.representable v → (v <= q)%Q → (v <= Double.round q)%Q.
Proof. apply roundWith_lower, nearestEven_rounds. Qed.

Lemma round_upper (q v : Q) :
  Double.representable v → (q <= v)%Q → (Double.round q <= v)%Q.
Proof. apply roundWith_upper, nearestEven_rounds. Qed.

Lemma round_exact (q v : Q) :
  Double.representable v → (q == v)%Q → (Double.round q == v)%Q.
Proof. apply roundWith_exact, nearestEven_rounds. Qed.

Lemma round_representable (q : Q) : Double.representable (Double.round q).
Proof. apply roundWith_representable, nearestEven_rounds. Qed.

Lemma ofZ_representable (n : Z) : Double.representable (Double.ofZ n).
Proof. apply roundWith_representable, Qfloor_rounds. Qed.

Lemma ofZ_exact (n : Z) : Z.abs n <= 2 ^ 53 → (Double.ofZ n == inject_Z n)%Q.
Proof.
  intros Hn. apply roundWith_exact; [apply Qfloor_rounds|now apply representable_Z|reflexivity].
Qed.

(** Towards zero: the double of a positive integer is not above it. *)
Lemma ofZ_le (n : Z) : 0 <= n → (0 <= Double.ofZ n <= inject_Z n)%Q.
Proof.
  intros Hn. split.
  - apply roundWith_lower; [apply Qfloor_rounds|apply representable_0|].
    change 0%Q with (inject_Z 0). now rewrite <- Zle_Qle.
  - unfold Double.ofZ, Double.truncate, Double.roundWith.
    destruct (Qcompare_spec (inject_Z n) 0) as [Heq|Hlt|Hgt].
    + rewrite Heq. apply Qle_refl.
    + change 0%Q with (inject_Z 0) in Hlt. rewrite <- Zlt_Qlt in Hlt. lia.
    + unfold Double.roundPositive.
      set (e := Z.max _ _). apply Qle_div_pow2. apply Qfloor_le.
Qed.

Lemma ofZ_nonpos (n : Z) : n <= 0 → (Double.ofZ n <= 0)%Q.
Proof.
  intros Hn. apply roundWith_upper; [apply Qfloor_rounds|apply representable_0|].
  change 0%Q with (inject_Z 0). now rewrite <- Zle_Qle.
Qed.

Lemma ofZ_ge_1 (n : Z) : 1 <= n → (1 <= Double.ofZ n)%Q.
Proof.
  intros Hn. apply roundWith_lower; [apply Qfloor_rounds|apply (representable_Z 1); cbn; lia|].
  change 1%Q with (inject_Z 1). now rewrite <- Zle_Qle.
Qed.

(** The square root. *)

Lemma double_sqrt_nonneg (q : Q) : (0 <= Double.sqrt q)%Q.
Proof.
  unfold Double.sqrt. destruct (Qcompare_spec q 0) as [Heq|Hlt|Hgt]; try apply Qle_refl.
  cbv zeta. set (e := Double.log2floor q / 2 - 52). set (n := (q / Double.pow2 (2 * e))%Q).
  set (s := Z.sqrt (Qfloor n)).
  assert (Hs : 0 <= s) by apply Z.sqrt_nonneg.
  apply Qmult_le_0_compat; [|apply Qlt_le_weak, pow2_pos].
  change 0%Q with (inject_Z 0). rewrite <- Zle_Qle.
  destruct (Qcompare _ _); [destruct (Z.even s)|..]; lia.
Qed.

(** A double whose square is at most [q] is at most the square root. *)
Lemma double_sqrt_lower (q v : Q) :
  Double.representable v → (0 <= v)%Q → (v * v <= q)%Q → (v <= Double.sqrt q)%Q.
Proof.
  intros (mv & ev & Hev & Hmv & Hv) Hv0 Hle.
  destruct (Qeq_dec v 0) as [Hz|Hnz]; [rewrite Hz; apply double_sqrt_nonneg|].
  assert (Hvpos : (0 < v)%Q) by (apply Qle_lteq in Hv0 as [H|H]; [exact H|symmetry in H; contradiction]).
  assert (Hq : (0 < q)%Q) by (pose proof (Qmult_lt_0_compat _ _ Hvpos Hvpos); Lqa.lra).
  assert (Hmvpos : 0 < mv).
  { apply Z.lt_nge. intros Hneg.
    assert (H : (inject_Z mv * Double.pow2 ev <= 0)%Q).
    { rewrite <- (Qmult_0_l (Double.pow2 ev)).
      apply Qmult_le_compat_r; [|apply Qlt_le_weak, pow2_pos].
      change 0%Q with (inject_Z 0). now rewrite <- Zle_Qle. }
    rewrite <- Hv in H. Lqa.lra. }
  unfold Double.sqrt. destruct (Qcompare_spec q 0) as [Heq|Hlt|Hgt]; try Lqa.lra.
  cbv zeta. set (l := Double.log2floor q). set (e := l / 2 - 52).
  set (n := (q / Double.pow2 (2 * e))%Q). set (s := Z.sqrt (Qfloor n)).
  set (m := match (n ?= inject_Z (s * s + s) + (1 # 4))%Q with
            | Eq => if Z.even s then s else s + 1
            | Lt => s
            | Gt => s + 1
            end).
  assert (Hm : s <= m) by (subst m; destruct (Qcompare _ _); [destruct (Z.even s)|..]; lia).
  assert (Hl : 2 * (l / 2) <= l) by (pose proof (Z.mod_pos_bound l 2 ltac:(lia)); pose proof (Z.div_mod l 2 ltac:(lia)); lia).
  assert (Hn : (inject_Z (2 ^ 104) <= n)%Q).
  { apply Qle_div_pow2. rewrite <- pow2_inject by lia. rewrite <- pow2_add.
    apply Qle_trans with (Double.pow2 l); [apply pow2_le; subst e; lia|].
    apply (log2floor_spec q Hq). }
  assert (Hfn : 2 ^ 104 <= Qfloor n) by now apply Qfloor_inject_le.
  assert (Hs52 : 2 ^ 52 <= s).
  { change (2 ^ 52) with (Z.sqrt (2 ^ 104)). now apply Z.sqrt_le_mono. }
  apply Qle_trans with (inject_Z s * Double.pow2 e)%Q.
  2:{ apply Qmult_le_compat_r; [now rewrite <- Zle_Qle|apply Qlt_le_weak, pow2_pos]. }
  destruct (Z_le_gt_dec e ev) as [Hcase|Hcase].
  - assert (Hmul : (v == inject_Z (mv * 2 ^ (ev - e)) * Double.pow2 e)%Q).
    { rewrite Hv, inject_Z_mult, <- pow2_inject by lia.
      rewrite <- Qmult_assoc, <- pow2_add. now replace (ev - e + e) with ev by lia. }
    set (I := mv * 2 ^ (ev - e)) in *.
    assert (HI : 0 <= I) by (subst I; apply Z.mul_nonneg_nonneg; [lia|apply Z.pow_nonneg; lia]).
    rewrite Hmul. apply Qmult_le_compat_r; [|apply Qlt_le_weak, pow2_pos].
    rewrite <- Zle_Qle. apply Z.sqrt_le_square; [lia|exact HI|].
    apply Qfloor_inject_le. rewrite inject_Z_mult. apply Qle_div_pow2.
    replace (2 * e) with (e + e) by lia. rewrite pow2_add.
    rewrite Hmul in Hle. Lqa.lra.
  - rewrite Hv.
    apply Qle_trans with (inject_Z (2 ^ 53) * Double.pow2 ev)%Q.
    { apply Qmult_le_compat_r; [rewrite <- Zle_Qle; lia|apply Qlt_le_weak, pow2_pos]. }
    apply Qle_trans with (inject_Z (2 ^ 52) * Double.pow2 e)%Q.
    { rewrite <- !pow2_inject by lia. rewrite <- !pow2_add. apply pow2_le. lia. }
    apply Qmult_le_compat_r; [now rewrite <- Zle_Qle|apply Qlt_le_weak, pow2_pos].
Qed.

(** The integer above, off an integer. *)
Lemma ceiling_rounds :
  Double.rounds (fun M => if Qeq_bool M (inject_Z (Qfloor M)) then Qfloor M else Qfloor M + 1).
Proof.
  intros M. destruct (Qeq_bool M (inject_Z (Qfloor M))) eqn:Heq; [now left|].
  right. split; [reflexivity|]. apply Qeq_bool_neq in Heq.
  pose proof (Qfloor_le M) as Hle. apply Qle_lteq in Hle as [Hlt|Heq']; [exact Hlt|].
  exfalso. apply Heq. now symmetry.
Qed.

(** The rounding of a positive number is as near to it as any double. *)
Lemma roundPositive_nearest (q v : Q) :
  (0 < q)%Q → Double.representable v →
  (Qabs (Double.roundPositive Double.nearestEven q - q) <= Qabs (v - q))%Q.
Proof.
  intros Hq Hv.
  set (up := fun M => if Qeq_bool M (inject_Z (Qfloor M)) then Qfloor M else Qfloor M + 1).
  pose proof (roundPositive_lower Qfloor Qfloor_rounds q Hq v Hv) as Hlow.
  pose proof (roundPositive_upper up ceiling_rounds q Hq v Hv) as Hup.
  unfold Double.roundPositive in *.
  set (e := Z.max (Double.log2floor q - 52) Double.minExponent) in *.
  set (M := (q / Double.pow2 e)%Q) in *.
  pose proof (pow2_pos e) as Hp.
  assert (HM : (q == M * Double.pow2 e)%Q) by (unfold M; now rewrite Qdiv_pow2).
  clearbody M.
  pose proof (Qfloor_le M) as Hfl. pose proof (Qlt_floor M) as Hfl'.
  rewrite inject_Z_plus in Hfl'. change (inject_Z 1) with 1%Q in Hfl'.
  set (f := inject_Z (Qfloor M)) in *.
  assert (Hnear : (Qabs (inject_Z (Double.nearestEven M) - M) <= M - f)%Q ∧
                  (Qabs (inject_Z (Double.nearestEven M) - M) <= inject_Z (up M) - M)%Q).
  { unfold Double.nearestEven, up. fold f.
    destruct (Qeq_bool M f) eqn:Hint.
    - apply Qeq_bool_iff in Hint.
      assert (Hc : (M - f ?= 1 # 2)%Q = Lt) by (apply (proj1 (Qlt_alt _ _)); Lqa.lra).
      rewrite Hc. fold f. split; apply Qabs_case; intros; Lqa.lra.
    - rewrite inject_Z_plus. fold f. change (inject_Z 1) with 1%Q.
      destruct (Qcompare_spec (M - f) (1 # 2)) as [Heq|Hlt|Hgt].
      + destruct (Z.even (Qfloor M)); [fold f|rewrite inject_Z_plus; fold f; change (inject_Z 1) with 1%Q];
          split; apply Qabs_case; intros; Lqa.lra.
      + fold f. split; apply Qabs_case; intros; Lqa.lra.
      + rewrite inject_Z_plus. fold f. change (inject_Z 1) with 1%Q.
        split; apply Qabs_case; intros; Lqa.lra. }
  destruct Hnear as [Hdown Hupw].
  set (p := inject_Z (Double.nearestEven M)) in *.
  assert (Hscale : (Qabs (p * Double.pow2 e - q) == Qabs (p - M) * Double.pow2 e)%Q).
  { assert (Hdiff : (p * Double.pow2 e - q == (p - M) * Double.pow2 e)%Q) by (rewrite HM; ring).
    rewrite Hdiff, Qabs_Qmult.
    rewrite (Qabs_pos (Double.pow2 e)); [reflexivity|now apply Qlt_le_weak]. }
  rewrite Hscale.
  destruct (Qlt_le_dec q v) as [Habove|Hbelow].
  - specialize (Hup (Qlt_le_weak _ _ Habove)).
    apply Qle_trans with ((inject_Z (up M) - M) * Double.pow2 e)%Q.
    + apply Qmult_le_compat_r; [exact Hupw|now apply Qlt_le_weak].
    + apply Qabs_case; intros; Lqa.nra.
  - specialize (Hlow Hbelow).
    apply Qle_trans with ((M - f) * Double.pow2 e)%Q.
    + apply Qmult_le_compat_r; [exact Hdown|now apply Qlt_le_weak].
    + apply Qabs_case; intros; Lqa.nra.
Qed.

(** [Double.round] rounds to nearest: no double is nearer to [q] than
    [Double.round q], which is a double. *)
Lemma round_nearest (q v : Q) :
  Double.representable v → (Qabs (Double.round q - q) <= Qabs (v - q))%Q.
Proof.
  intros Hv. unfold Double.round, Double.roundWith.
  destruct (Qcompare_spec q 0) as [Heq|Hlt|Hgt].
  - assert (H0 : (0 - q == 0)%Q) by Lqa.lra. rewrite H0. apply Qabs_nonneg.
  - pose proof (roundPositive_nearest (- q) (- v) ltac:(Lqa.lra) (representable_opp v Hv)) as H.
    assert (Hl : (- Double.roundPositive Double.nearestEven (- q) - q
                  == - (Double.roundPositive Double.nearestEven (- q) - - q))%Q) by ring.
    assert (Hr : (v - q == - (- v - - q))%Q) by ring.
    rewrite Hl, Hr, !Qabs_opp. exact H.
  - now apply roundPositive_nearest.
Qed.

(** ** The height of a column on the hill *)

Lemma representable_1 : Double.representable 1.
Proof. apply (representable_Z 1). cbn. lia. Qed.

Lemma heightMultiplier_nonneg (d2 maxRadius : Z) : (0 <= heightMultiplier d2 maxRadius)%Q.
Proof. unfold heightMultiplier. apply Q.le_max_l. Qed.

Lemma heightMultiplier_le_1 (d2 maxRadius : Z) :
  0 <= d2 → (heightMultiplier d2 maxRadius <= 1)%Q.
Proof.
  intros _. unfold heightMultiplier. cbv zeta. apply Q.max_lub; [discriminate|].
  set (n := Double.div _ _).
  assert (Hsq : (0 <= Double.mul n n)%Q).
  { apply round_lower; [apply representable_0|]. Lqa.nra. }
  apply round_upper; [apply representable_1|]. Lqa.lra.
Qed.

Lemma heightMultiplier_center (maxRadius : Z) :
  (heightMultiplier 0 maxRadius == 1)%Q.
Proof.
  unfold heightMultiplier. cbv zeta.
  change (Double.sqrt (Double.ofZ 0)) with 0%Q.
  assert (Hn : (Double.div 0 (Double.ofZ maxRadius) == 0)%Q).
  { apply round_exact; [apply representable_0|]. unfold Qdiv. apply Qmult_0_l. }
  set (n := Double.div 0 _) in *.
  assert (Hsq : (Double.mul n n == 0)%Q).
  { apply round_exact; [apply representable_0|]. rewrite Hn. ring. }
  assert (Hsub : (Double.sub 1 (Double.mul n n) == 1)%Q).
  { apply round_exact; [apply representable_1|]. rewrite Hsq. ring. }
  rewrite Hsub. apply Q.max_r. discriminate.
Qed.

(** From the half-width on the multiplier is 0, for every squared
    distance that a double holds exactly. *)
Lemma heightMultiplier_outside (d2 maxRadius : Z) :
  1 <= maxRadius → maxRadius * maxRadius <= d2 → d2 <= 2 ^ 53 →
  (heightMultiplier d2 maxRadius == 0)%Q.
Proof.
  intros Hr Hd Hbig. unfold heightMultiplier. cbv zeta.
  assert (HR : (Double.ofZ maxRadius == inject_Z maxRadius)%Q) by (apply ofZ_exact; nia).
  assert (HD : (Double.ofZ d2 == inject_Z d2)%Q) by (apply ofZ_exact; nia).
  assert (Hrq : (1 <= inject_Z maxRadius)%Q).
  { change 1%Q with (inject_Z 1). now rewrite <- Zle_Qle. }
  assert (Hdist : (inject_Z maxRadius <= Double.sqrt (Double.ofZ d2))%Q).
  { apply double_sqrt_lower; [apply representable_Z; nia|Lqa.lra|].
    rewrite HD, <- inject_Z_mult, <- Zle_Qle. exact Hd. }
  set (distance := Double.sqrt (Double.ofZ d2)) in *.
  assert (Hn : (1 <= Double.div distance (Double.ofZ maxRadius))%Q).
  { apply round_lower; [apply representable_1|].
    apply Qle_shift_div_l; rewrite HR; Lqa.lra. }
  set (n := Double.div distance (Double.ofZ maxRadius)) in *.
  assert (Hsq : (1 <= Double.mul n n)%Q).
  { apply round_lower; [apply representable_1|]. Lqa.nra. }
  apply Q.max_l. apply round_upper; [apply representable_0|]. Lqa.lra.
Qed.

(** At the centre the height is the elevation of the target. *)
Lemma targetHeightForPosition_center (y maxRadius : Z) :
  Z.abs y <= 2 ^ 53 → targetHeightForPosition y 0 maxRadius = y.
Proof.
  intros Hy. unfold targetHeightForPosition, Double.floor.
  rewrite (Qfloor_comp _ (inject_Z y)); [apply Qfloor_Z|].
  apply round_exact; [now apply representable_Z|].
  rewrite heightMultiplier_center, (ofZ_exact y Hy). apply Qmult_1_r.
Qed.

Lemma targetHeightForPosition_outside (y d2 maxRadius : Z) :
  1 <= maxRadius → maxRadius * maxRadius <= d2 → d2 <= 2 ^ 53 →
  targetHeightForPosition y d2 maxRadius = 0.
Proof.
  intros Hr Hd Hbig. unfold targetHeightForPosition, Double.floor.
  rewrite (Qfloor_comp _ (inject_Z 0)); [apply Qfloor_Z|].
  apply round_exact; [apply representable_0|].
  rewrite (heightMultiplier_outside _ _ Hr Hd Hbig). apply Qmult_0_r.
Qed.

(** A height of 1 or more is at most the elevation of the target. *)
Lemma targetHeightForPosition_le (y d2 maxRadius : Z) :
  0 <= d2 → 1 <= targetHeightForPosition y d2 maxRadius →
  targetHeightForPosition y d2 maxRadius <= y.
Proof.
  intros Hd H1. unfold targetHeightForPosition, Double.floor in *.
  pose proof (heightMultiplier_le_1 d2 maxRadius Hd) as Hle.
  pose proof (heightMultiplier_nonneg d2 maxRadius) as H0.
  set (m := heightMultiplier d2 maxRadius) in *.
  pose proof (Qfloor_le (Double.mul (Double.ofZ y) m)) as Hfl.
  assert (H1q : (1 <= inject_Z (Qfloor (Double.mul (Double.ofZ y) m)))%Q).
  { change 1%Q with (inject_Z 1). now rewrite <- Zle_Qle. }
  destruct (Z_lt_le_dec y 0) as [Hneg|Hy].
  - exfalso. pose proof (ofZ_nonpos y ltac:(lia)) as Hyq.
    assert (Hprod : (Double.mul (Double.ofZ y) m <= 0)%Q).
    { apply round_upper; [apply representable_0|]. Lqa.nra. }
    Lqa.lra.
  - destruct (ofZ_le y Hy) as [Hy0 Hyq].
    assert (Hprod : (Double.mul (Double.ofZ y) m <= Double.ofZ y)%Q).
    { apply round_upper; [apply ofZ_representable|]. Lqa.nra. }
    rewrite Zle_Qle. Lqa.lra.
Qed.

(** On the hills of the class defaults and of the five zones of
    [src/index.ts] (elevation and half-width 5 and 5, 4 and 6, 6 and 5,
    3 and 4, 5 and 7, 7 and 8), at every squared distance of their
    windows, the product is the one of the binary64 operations of the
    Standard Library; so is the lowered level of the feet for the heights
    [0.0], [0.1], ..., [20.0] of a player. *)
Lemma height_as_binary64 :
  forallb (fun hill => forallb (fun d2 => heightAgrees (fst hill) d2 (snd hill)) (zrange 0 129))
          [(5, 5); (4, 6); (6, 5); (3, 4); (5, 7); (7, 8)] = true.
Proof. vm_compute. reflexivity. Qed.

Lemma belowFeet_as_binary64 : forallb belowFeetAgrees (zrange 0 201) = true.
Proof. vm_compute. reflexivity. Qed.

(** Rounding lowers hills: with the defaults of the class (elevation 5,
    window 10) the source computes the heights 3 and 0 for the columns at
    the squared distances 5 and 20, where the exact values of the formula
    are 4 and 1. *)
Lemma height_rounded_down :
  targetHeightForPosition 5 5 5 = 3 ∧ parabolicHeight 5 5 5 = 4 ∧
  targetHeightForPosition 5 20 5 = 0 ∧ parabolicHeight 5 20 5 = 1.
Proof. repeat split; vm_compute; reflexivity. Qed.

(** The hill of the class defaults is archived with its columns at the
    squared distance 5 at level 3 and those at the squared distance 20
    untouched. *)
Lemma default_hill_in_doubles :
  let heights st := map (fun c => getCurrentHeight defaultZone (world st) (fst c) (snd c))
                        [(0, 0); (1, 2); (2, 4)] in
  (let st := defaultHill in (completedTargets st, heights st)) = ([0%nat], [5; 3; -1]) ∧
  map (fun c => columnTargetHeight defaultZone (mkTarget 0 5 0 0 (Some (0, 2, 0)) true)
                                   (fst c) (snd c))
      [(0, 0); (1, 2); (2, 4)] = [5; 3; 0].
Proof. split; vm_compute; reflexivity. Qed.

(** ** The same comparisons over the reals

    The decisions on squares are the comparisons with the real square
    root, and the height of the specification is the integer part of the
    real product. *)

Lemma Q2R_inject_Z (n : Z) : Q2R (inject_Z n) = IZR n.
Proof. unfold Q2R, inject_Z. cbn. lra. Qed.

Lemma sqrt_le_real (n : Z) (r : Q) :
  0 <= n → sqrt_le n r = true ↔ (sqrt (IZR n) <= Q2R r)%R.
Proof.
  intros Hn. rewrite sqrt_le_spec.
  assert (Hn' : (0 <= IZR n)%R) by (apply IZR_le; exact Hn).
  split.
  - intros [H0 Hle]. apply Qle_Rle in H0, Hle.
    rewrite Q2R_mult, Q2R_inject_Z in Hle. rewrite RMicromega.Q2R_0 in H0.
    rewrite <- (sqrt_square (Q2R r)) by exact H0.
    apply sqrt_le_1_alt. exact Hle.
  - intros Hle.
    assert (H0 : (0 <= Q2R r)%R) by (pose proof (sqrt_pos (IZR n)); lra).
    split.
    + apply Rle_Qle. rewrite RMicromega.Q2R_0. exact H0.
    + apply Rle_Qle. rewrite Q2R_mult, Q2R_inject_Z.
      rewrite <- (sqrt_sqrt (IZR n)) by exact Hn'.
      apply Rmult_le_compat; try apply sqrt_pos; exact Hle.
Qed.

Lemma sqrt_gt_real (n : Z) (r : Q) :
  0 <= n → sqrt_gt n r = true ↔ (sqrt (IZR n) > Q2R r)%R.
Proof.
  intros Hn. unfold sqrt_gt. rewrite negb_true_iff, <- not_true_iff_false, (sqrt_le_real n r Hn).
  split; intros H; lra.
Qed.

Lemma sqrt_lt_real (n : Z) (r : Q) :
  0 <= n → sqrt_lt n r = true ↔ (sqrt (IZR n) < Q2R r)%R.
Proof.
  intros Hn. rewrite sqrt_lt_spec.
  assert (Hn' : (0 <= IZR n)%R) by (apply IZR_le; exact Hn).
  split.
  - intros [H0 Hlt]. apply Qlt_Rlt in H0, Hlt.
    rewrite Q2R_mult, Q2R_inject_Z in Hlt. rewrite RMicromega.Q2R_0 in H0.
    rewrite <- (sqrt_square (Q2R r)) by lra.
    apply sqrt_lt_1_alt. lra.
  - intros Hlt.
    assert (H0 : (0 < Q2R r)%R) by (pose proof (sqrt_pos (IZR n)); lra).
    split.
    + apply Rlt_Qlt. rewrite RMicromega.Q2R_0. exact H0.
    + apply Rlt_Qlt. rewrite Q2R_mult, Q2R_inject_Z.
      rewrite <- (sqrt_sqrt (IZR n)) at 1 by exact Hn'.
      apply Rmult_le_0_lt_compat; try apply sqrt_pos; exact Hlt.
Qed.

(** The multiplier of the specification, with the real square root of the
    squared distance. *)
Lemma parabolicMultiplier_real (d2 maxRadius : Z) :
  0 <= d2 → maxRadius ≠ 0 →
  Q2R (parabolicMultiplier d2 maxRadius) =
  Rmax 0 (1 - (sqrt (IZR d2) / IZR maxRadius) * (sqrt (IZR d2) / IZR maxRadius))%R.
Proof.
  intros Hd Hr.
  assert (Hr' : IZR maxRadius ≠ 0%R) by (apply not_0_IZR; exact Hr).
  assert (Hq : ¬ (inject_Z (maxRadius * maxRadius) == 0)%Q).
  { intros Heq. apply Qeq_eqR in Heq. rewrite Q2R_inject_Z, RMicromega.Q2R_0, mult_IZR in Heq.
    apply Rmult_integral in Heq. tauto. }
  assert (Hinner : Q2R (1 - inject_Z d2 / inject_Z (maxRadius * maxRadius)) =
                   (1 - (sqrt (IZR d2) / IZR maxRadius) * (sqrt (IZR d2) / IZR maxRadius))%R).
  { rewrite Q2R_minus, Q2R_div by exact Hq. rewrite !Q2R_inject_Z, mult_IZR, RMicromega.Q2R_1.
    replace ((sqrt (IZR d2) / IZR maxRadius) * (sqrt (IZR d2) / IZR maxRadius))%R
      with ((sqrt (IZR d2) * sqrt (IZR d2)) / (IZR maxRadius * IZR maxRadius))%R
      by (field; exact Hr').
    rewrite sqrt_sqrt by (apply IZR_le; exact Hd). reflexivity. }
  unfold parabolicMultiplier. rewrite <- Hinner.
  destruct (Q.max_spec 0 (1 - inject_Z d2 / inject_Z (maxRadius * maxRadius))) as [[Hlt Heq]|[Hle Heq]].
  - rewrite (Qeq_eqR _ _ Heq). apply Qlt_Rlt in Hlt. rewrite RMicromega.Q2R_0 in Hlt.
    rewrite Rmax_right by lra. reflexivity.
  - rewrite (Qeq_eqR _ _ Heq). apply Qle_Rle in Hle. rewrite RMicromega.Q2R_0 in Hle |- *.
    rewrite Rmax_left by lra. reflexivity.
Qed.

(** The height is the integer part of [y] times that multiplier. *)
Lemma parabolicHeight_real (y d2 maxRadius : Z) :
  0 <= d2 → maxRadius ≠ 0 →
  let exact := (IZR y * Rmax 0 (1 - (sqrt (IZR d2) / IZR maxRadius) * (sqrt (IZR d2) / IZR maxRadius)))%R in
  (IZR (parabolicHeight y d2 maxRadius) <= exact < IZR (parabolicHeight y d2 maxRadius + 1))%R.
Proof.
  intros Hd Hr exact. unfold parabolicHeight.
  assert (Hexact : Q2R (inject_Z y * parabolicMultiplier d2 maxRadius) = exact).
  { rewrite Q2R_mult, Q2R_inject_Z, (parabolicMultiplier_real d2 maxRadius Hd Hr). reflexivity. }
  rewrite <- Hexact. split.
  - rewrite <- Q2R_inject_Z. apply Qle_Rle, Qfloor_le.
  - rewrite <- Q2R_inject_Z. apply Qlt_Rlt, Qlt_floor.
Qed.

(** ** Grid access *)

Lemma hasBlockAt_throws (w : World) (x y z : Z) :
  getBlockId w (x, y, z) = Throws → hasBlockAt w x y z = false.
Proof. unfold hasBlockAt. now intros ->. Qed.

Lemma isSpawnerBlockPresent_throws (cfg : TerraformingOptions) (w : World) (p : Pos) :
  getBlockId w p = Throws → isSpawnerBlockPresent cfg w p = false.
Proof. unfold isSpawnerBlockPresent. now intros ->. Qed.

Lemma isSpawnerBlockPresent_iff (cfg : TerraformingOptions) (w : World) (p : Pos) :
  isSpawnerBlockPresent cfg w p = true ↔ getBlockId w p = Returns (IdNum (spawnerBlockId cfg)).
Proof.
  unfold isSpawnerBlockPresent. destruct (getBlockId w p) as [[n| |]|]; try (split; discriminate).
  rewrite Z.eqb_eq. split; [now intros ->|]. now intros [= ->].
Qed.

Lemma setBlock_throws (x y z b : Z) (st : Terraforming) :
  lattice_setBlock (world st) (x, y, z) b = Throws →
  setBlock x y z b st = say (ErrorSetBlock x y z) st.
Proof. unfold setBlock. now intros ->. Qed.

(** ** One column of the growth step *)

Lemma terraformColumn_cases (cfg : TerraformingOptions) (t : TerraformingTarget)
      (maxRadius : Z) (wave : Q) (acc : Sweep) (x z : Z) :
  let d2 := columnDistance2 t x z in
  let h := targetHeightForPosition (target_y t) d2 maxRadius in
  let currentHeight := getCurrentHeight cfg (world (zone acc)) x z in
  let out := terraformColumn cfg t maxRadius wave acc (x, z) in
  (isWithinBounds cfg x z = false ∧ out = acc) ∨
  (isWithinBounds cfg x z = true ∧ sqrt_gt d2 wave = true ∧
   out = mkSweep (zone acc) (blocksModified acc) false) ∨
  (isWithinBounds cfg x z = true ∧ sqrt_gt d2 wave = false ∧
   (h < 1 ∨ h <= currentHeight) ∧ out = acc) ∨
  (isWithinBounds cfg x z = true ∧ sqrt_gt d2 wave = false ∧
   1 <= h ∧ currentHeight < h ∧
   out = mkSweep (setBlock x (currentHeight + 1) z (blockTypeId cfg) (zone acc))
                 (blocksModified acc + 1) false).
Proof.
  intros d2 h currentHeight out. subst out. unfold terraformColumn.
  fold (columnDistance2 t x z). fold d2. fold h. fold currentHeight.
  destruct (isWithinBounds cfg x z) eqn:Hb; simpl; [|now left].
  right. destruct (sqrt_gt d2 wave) eqn:Hw; [now left|].
  right. destruct (h <? 1) eqn:Hh1.
  { left. apply Z.ltb_lt in Hh1. auto. }
  apply Z.ltb_ge in Hh1.
  destruct (currentHeight <? h) eqn:Hc.
  - right. apply Z.ltb_lt in Hc. rewrite Z.min_l by lia. auto.
  - left. apply Z.ltb_ge in Hc. auto.
Qed.

Lemma fold_terraformColumn_incomplete (cfg : TerraformingOptions) (t : TerraformingTarget)
      (maxRadius : Z) (wave : Q) (columns : list (Z * Z)) (acc : Sweep) :
  targetComplete acc = false →
  targetComplete (fold_left (terraformColumn cfg t maxRadius wave) columns acc) = false.
Proof.
  revert acc. induction columns as [|[x z] columns IH]; intros acc Hacc; [exact Hacc|].
  cbn [fold_left]. apply IH.
  destruct (terraformColumn_cases cfg t maxRadius wave acc x z)
    as [[_ ->]|[(_ & _ & ->)|[(_ & _ & _ & ->)|(_ & _ & _ & _ & ->)]]]; done.
Qed.

(** A sweep that ends complete has changed nothing, and every column it
    visited in bounds lay within the wave and was excluded or high enough. *)
Lemma fold_terraformColumn_complete (cfg : TerraformingOptions) (t : TerraformingTarget)
      (maxRadius : Z) (wave : Q) (columns : list (Z * Z)) (acc : Sweep) :
  targetComplete (fold_left (terraformColumn cfg t maxRadius wave) columns acc) = true →
  fold_left (terraformColumn cfg t maxRadius wave) columns acc = acc ∧
  ∀ x z, (x, z) ∈ columns → isWithinBounds cfg x z = true →
    sqrt_gt (columnDistance2 t x z) wave = false ∧
    (targetHeightForPosition (target_y t) (columnDistance2 t x z) maxRadius < 1 ∨
     targetHeightForPosition (target_y t) (columnDistance2 t x z) maxRadius
       <= getCurrentHeight cfg (world (zone acc)) x z).
Proof.
  revert acc. induction columns as [|[x z] columns IH]; intros acc Hdone.
  { split; [done|]. intros x z Hin. inversion Hin. }
  cbn [fold_left] in *.
  destruct (terraformColumn_cases cfg t maxRadius wave acc x z)
    as [[Hb Hout]|[(Hb & Hw & Hout)|[(Hb & Hw & Hsat & Hout)|(Hb & Hw & H1 & Hlt & Hout)]]].
  - rewrite Hout in *. destruct (IH acc Hdone) as [Heq Hall]. split; [exact Heq|].
    intros x' z' Hin Hb'. apply elem_of_cons in Hin as [[= -> ->]|Hin]; [congruence|].
    now apply Hall.
  - rewrite Hout in Hdone.
    rewrite fold_terraformColumn_incomplete in Hdone by done. discriminate.
  - rewrite Hout in *. destruct (IH acc Hdone) as [Heq Hall]. split; [exact Heq|].
    intros x' z' Hin Hb'. apply elem_of_cons in Hin as [[= -> ->]|Hin]; [|now apply Hall].
    split; [exact Hw|exact Hsat].
  - rewrite Hout in Hdone.
    rewrite fold_terraformColumn_incomplete in Hdone by done. discriminate.
Qed.

(** Conversely, a sweep over columns that all pass ends where it started. *)
Lemma fold_terraformColumn_idle (cfg : TerraformingOptions) (t : TerraformingTarget)
      (maxRadius : Z) (wave : Q) (columns : list (Z * Z)) (acc : Sweep) :
  (∀ x z, (x, z) ∈ columns → isWithinBounds cfg x z = true →
     sqrt_gt (columnDistance2 t x z) wave = false ∧
     (targetHeightForPosition (target_y t) (columnDistance2 t x z) maxRadius < 1 ∨
      targetHeightForPosition (target_y t) (columnDistance2 t x z) maxRadius
        <= getCurrentHeight cfg (world (zone acc)) x z)) →
  fold_left (terraformColumn cfg t maxRadius wave) columns acc = acc.
Proof.
  induction columns as [|[x z] columns IH]; intros Hall; [done|].
  cbn [fold_left].
  assert (Hhere : terraformColumn cfg t maxRadius wave acc (x, z) = acc).
  { destruct (terraformColumn_cases cfg t maxRadius wave acc x z)
      as [[Hb Hout]|[(Hb & Hw & Hout)|[(Hb & Hw & Hsat & Hout)|(Hb & Hw & H1 & Hlt & Hout)]]];
      try exact Hout.
    - destruct (Hall x z) as [Hw' _]; [left|exact Hb|congruence].
    - destruct (Hall x z) as [_ Hsat]; [left|exact Hb|lia]. }
  rewrite Hhere. apply IH. intros x' z' Hin. apply Hall. now right.
Qed.

(** ** The height of a column (C1) *)

(** The first tick places the spawner of the tiny zone; four more ticks,
    one second apart, raise its hill to [tinyGrown]. *)
Lemma tinyGrown_reached :
  runTicks tinyZone stayPut stayPut [0; 1000; 2000; 3000; 4000] (freshZone clayPatch) = tinyGrown.
Proof. vm_compute. reflexivity. Qed.


Lemma columnDistance2_nonneg t x z : 0 <= columnDistance2 t x z.
Proof.
  unfold columnDistance2.
  pose proof (Z.square_nonneg (x - target_x t)). pose proof (Z.square_nonneg (z - target_z t)).
  lia.
Qed.



(** ** Completion (C2) *)

Lemma setBlock_frame (x y z b : Z) (st : Terraforming) :
  targets (setBlock x y z b st) = targets st ∧
  currentTarget (setBlock x y z b st) = currentTarget st ∧
  completedTargets (setBlock x y z b st) = completedTargets st ∧
  spawnerPositions (setBlock x y z b st) = spawnerPositions st ∧
  hasInitialSpawners (setBlock x y z b st) = hasInitialSpawners st.
Proof. unfold setBlock. destruct (lattice_setBlock _ _ _); done. Qed.

(** The loops touch the grid and the console only. *)
Lemma fold_terraformColumn_frame (cfg : TerraformingOptions) (t : TerraformingTarget)
      (maxRadius : Z) (wave : Q) (columns : list (Z * Z)) (acc : Sweep) :
  let out := fold_left (terraformColumn cfg t maxRadius wave) columns acc in
  targets (zone out) = targets (zone acc) ∧
  currentTarget (zone out) = currentTarget (zone acc) ∧
  completedTargets (zone out) = completedTargets (zone acc) ∧
  spawnerPositions (zone out) = spawnerPositions (zone acc) ∧
  hasInitialSpawners (zone out) = hasInitialSpawners (zone acc).
Proof.
  revert acc. induction columns as [|[x z] columns IH]; intros acc; [done|].
  cbn [fold_left]. cbv zeta in *.
  destruct (IH (terraformColumn cfg t maxRadius wave acc (x, z))) as (-> & -> & -> & -> & ->).
  destruct (terraformColumn_cases cfg t maxRadius wave acc x z)
    as [[_ ->]|[(_ & _ & ->)|[(_ & _ & _ & ->)|(_ & _ & _ & _ & ->)]]]; try done.
  apply setBlock_frame.
Qed.

(** The tick of a zone whose current target is active and whose spawner,
    if it has one, is in the grid: the sweep and what follows it. *)
Lemma terraformStep_grow (cfg : TerraformingOptions) (now : Z) (rnd1 rnd2 : nat -> Draw)
      (st : Terraforming) (r : nat) (t : TerraformingTarget) :
  currentTarget st = Some r →
  targets st !! r = Some t →
  isActive t = true →
  (∀ p, spawnerPosition t = Some p → isSpawnerBlockPresent cfg (world st) p = true) →
  terraformStep cfg now rnd1 rnd2 st = finishStep cfg now rnd1 r t (sweep cfg now t st).
Proof.
  intros Hcur Ht Hact Hlive. unfold terraformStep. rewrite Hcur, Ht, Hact. cbn [negb].
  destruct (spawnerPosition t) as [p|] eqn:Hp; [|reflexivity].
  now rewrite (Hlive p eq_refl).
Qed.



(** ** The rise of a column (C3) *)

Lemma sameColumn_refl w x z : sameColumn w w x z.
Proof. done. Qed.

Lemma sameColumn_trans w1 w2 w3 x z :
  sameColumn w1 w2 x z → sameColumn w2 w3 x z → sameColumn w1 w3 x z.
Proof.
  intros (Hr & Hw & Hc) (Hr' & Hw' & Hc'). split; [congruence|]. split; [congruence|].
  intros y. now rewrite Hc', Hc.
Qed.

Lemma sameColumn_getBlockId w w' x z y :
  sameColumn w w' x z → getBlockId w' (x, y, z) = getBlockId w (x, y, z).
Proof. intros (Hr & _ & Hc). unfold getBlockId. now rewrite Hr, Hc. Qed.

Lemma sameColumn_hasBlockAt w w' x z y :
  sameColumn w w' x z → hasBlockAt w' x y z = hasBlockAt w x y z.
Proof. intros H. unfold hasBlockAt. now rewrite (sameColumn_getBlockId _ _ _ _ _ H). Qed.

Lemma probe_ext w w' x z n :
  (∀ y, 0 <= y < Z.of_nat n → hasBlockAt w' x y z = hasBlockAt w x y z) →
  probe w' x z n = probe w x z n.
Proof.
  induction n as [|n IH]; intros Hsame; [reflexivity|].
  cbn [probe]. rewrite Hsame by lia. rewrite IH; [reflexivity|].
  intros y Hy. apply Hsame. lia.
Qed.

Lemma probe_range w x z n : -1 <= probe w x z n < Z.of_nat n.
Proof.
  induction n as [|n IH]; cbn [probe]; [lia|].
  destruct (hasBlockAt w x (Z.of_nat n) z); lia.
Qed.

Lemma probe_above w x z n y :
  probe w x z n < y < Z.of_nat n → hasBlockAt w x y z = false.
Proof.
  induction n as [|n IH]; cbn [probe]; [lia|].
  destruct (hasBlockAt w x (Z.of_nat n) z) eqn:Hn; [lia|].
  intros Hy. destruct (decide (y = Z.of_nat n)) as [->|Hne]; [exact Hn|].
  apply IH. lia.
Qed.

Lemma probe_upper w x z n c :
  -1 <= c →
  (∀ y, c < y < Z.of_nat n → hasBlockAt w x y z = false) →
  probe w x z n <= c.
Proof.
  intros Hc. induction n as [|n IH]; intros Hclear; cbn [probe]; [lia|].
  destruct (hasBlockAt w x (Z.of_nat n) z) eqn:Hn.
  - destruct (Z_lt_le_dec c (Z.of_nat n)) as [Hlt|Hge]; [|exact Hge].
    rewrite Hclear in Hn by lia. discriminate.
  - apply IH. intros y Hy. apply Hclear. lia.
Qed.

Lemma getCurrentHeight_sameColumn cfg w w' x z :
  sameColumn w w' x z → getCurrentHeight cfg w' x z = getCurrentHeight cfg w x z.
Proof.
  intros H. unfold getCurrentHeight. apply probe_ext.
  intros y _. now apply sameColumn_hasBlockAt.
Qed.

Lemma getCurrentHeight_columnRaised cfg w w' x z b :
  columnRaised w w' x z (getCurrentHeight cfg w x z + 1) b →
  getCurrentHeight cfg w' x z <= getCurrentHeight cfg w x z + 1.
Proof.
  intros (Hr & _ & Hc). unfold getCurrentHeight at 1.
  apply probe_upper; [pose proof (probe_range w x z (Z.to_nat (targetHeight cfg + 10 + 1))); unfold getCurrentHeight; lia|].
  intros y Hy.
  assert (Hsame : hasBlockAt w' x y z = hasBlockAt w x y z).
  { unfold hasBlockAt, getBlockId. rewrite Hr, Hc, lookup_insert_ne; [reflexivity|].
    intros [= Heq]. lia. }
  rewrite Hsame. apply (probe_above w x z (Z.to_nat (targetHeight cfg + 10 + 1))).
  unfold getCurrentHeight in Hy. lia.
Qed.

Lemma setBlock_world_cases x y z b st :
  (unwritable (world st) (x, y, z) = true ∧ world (setBlock x y z b st) = world st) ∨
  (unwritable (world st) (x, y, z) = false ∧
   world (setBlock x y z b st) =
     mkWorld (<[(x, y, z) := IdNum b]> (cells (world st)))
             (unreadable (world st)) (unwritable (world st))).
Proof.
  unfold setBlock, lattice_setBlock.
  destruct (unwritable (world st) (x, y, z)); [left|right]; done.
Qed.

Lemma setBlock_other_column x y z b st x' z' :
  (x', z') ≠ (x, z) → sameColumn (world st) (world (setBlock x y z b st)) x' z'.
Proof.
  intros Hne. destruct (setBlock_world_cases x y z b st) as [[_ ->]|[_ ->]]; [done|].
  split; [done|]. split; [done|]. intros y'. cbn.
  apply lookup_insert_ne. intros [= -> _ ->]. done.
Qed.

Lemma setBlock_this_column x y z b st :
  sameColumn (world st) (world (setBlock x y z b st)) x z ∨
  columnRaised (world st) (world (setBlock x y z b st)) x z y b.
Proof.
  destruct (setBlock_world_cases x y z b st) as [[_ ->]|[_ ->]]; [now left|right].
  done.
Qed.

Lemma columnRaised_after_same w1 w2 w3 x z y0 b :
  sameColumn w1 w2 x z → columnRaised w2 w3 x z y0 b → columnRaised w1 w3 x z y0 b.
Proof.
  intros (Hr & Hw & Hc) (Hr' & Hw' & Hc'). split; [congruence|]. split; [congruence|].
  intros y. rewrite Hc'. destruct (decide ((x, y0, z) = (x, y, z))) as [Heq|Hne].
  - rewrite Heq, !lookup_insert_eq. reflexivity.
  - rewrite !lookup_insert_ne by exact Hne. apply Hc.
Qed.

Lemma columnRaised_before_same w1 w2 w3 x z y0 b :
  columnRaised w1 w2 x z y0 b → sameColumn w2 w3 x z → columnRaised w1 w3 x z y0 b.
Proof.
  intros (Hr & Hw & Hc) (Hr' & Hw' & Hc'). split; [congruence|]. split; [congruence|].
  intros y. now rewrite Hc', Hc.
Qed.

Lemma terraformColumn_other_column cfg t maxRadius wave acc x z x' z' :
  (x', z') ≠ (x, z) →
  sameColumn (world (zone acc)) (world (zone (terraformColumn cfg t maxRadius wave acc (x, z)))) x' z'.
Proof.
  intros Hne.
  destruct (terraformColumn_cases cfg t maxRadius wave acc x z)
    as [[_ ->]|[(_ & _ & ->)|[(_ & _ & _ & ->)|(_ & _ & _ & _ & ->)]]]; try done.
  now apply setBlock_other_column.
Qed.

Lemma fold_terraformColumn_column cfg t maxRadius wave columns acc x z :
  NoDup columns →
  let w := world (zone acc) in
  let w' := world (zone (fold_left (terraformColumn cfg t maxRadius wave) columns acc)) in
  let h := targetHeightForPosition (target_y t) (columnDistance2 t x z) maxRadius in
  sameColumn w w' x z ∨
  ((x, z) ∈ columns ∧ isWithinBounds cfg x z = true ∧
   sqrt_gt (columnDistance2 t x z) wave = false ∧
   1 <= h ∧ getCurrentHeight cfg w x z < h ∧
   columnRaised w w' x z (getCurrentHeight cfg w x z + 1) (blockTypeId cfg)).
Proof.
  intros Hnd. revert acc. induction Hnd as [|[cx cz] columns Hnotin Hnd IH]; intros acc.
  { left. apply sameColumn_refl. }
  cbn [fold_left]. cbv zeta.
  specialize (IH (terraformColumn cfg t maxRadius wave acc (cx, cz))). cbv zeta in IH.
  destruct (decide ((x, z) = (cx, cz))) as [[= <- <-]|Hne].
  - assert (Hrest : sameColumn (world (zone (terraformColumn cfg t maxRadius wave acc (x, z))))
                      (world (zone (fold_left (terraformColumn cfg t maxRadius wave) columns
                         (terraformColumn cfg t maxRadius wave acc (x, z))))) x z).
    { destruct IH as [Hsame|(Hin & _)]; [exact Hsame|contradiction]. }
    destruct (terraformColumn_cases cfg t maxRadius wave acc x z)
      as [[_ Hout]|[(_ & _ & Hout)|[(_ & _ & _ & Hout)|(Hb & Hw & H1 & Hlt & Hout)]]];
      rewrite Hout in Hrest |- *; try (left; exact Hrest).
    cbn [zone] in Hrest.
    destruct (setBlock_this_column x (getCurrentHeight cfg (world (zone acc)) x z + 1) z
                (blockTypeId cfg) (zone acc)) as [Hsame|Hraised].
    + left. exact (sameColumn_trans _ _ _ _ _ Hsame Hrest).
    + right. split; [left|]. split; [exact Hb|]. split; [exact Hw|].
      split; [exact H1|]. split; [exact Hlt|].
      exact (columnRaised_before_same _ _ _ _ _ _ _ Hraised Hrest).
  - pose proof (terraformColumn_other_column cfg t maxRadius wave acc cx cz x z Hne) as Hstep.
    destruct IH as [Hsame|(Hin & Hb & Hw & H1 & Hlt & Hraised)].
    + left. exact (sameColumn_trans _ _ _ _ _ Hstep Hsame).
    + right. rewrite (getCurrentHeight_sameColumn cfg _ _ _ _ Hstep) in Hlt, Hraised.
      split; [now right|]. split; [exact Hb|]. split; [exact Hw|].
      split; [exact H1|]. split; [exact Hlt|].
      exact (columnRaised_after_same _ _ _ _ _ _ _ Hstep Hraised).
Qed.

Lemma hillGrown_reached :
  runTicks hillZone eastward eastward [0; 1000; 2000; 3000] (freshZone clayStrip) = hillGrown.
Proof. vm_compute. reflexivity. Qed.

Lemma hillSpread_reached :
  terraformStep hillZone 4000 eastward eastward hillGrown = hillSpread.
Proof. vm_compute. reflexivity. Qed.

Lemma plateauReady_reached :
  terraformStep plateauZone 0 fiveEast fiveEast (freshZone plateau) = plateauReady.
Proof. vm_compute. reflexivity. Qed.

(** The claim of C3 fails for the step that completes a hill.  On the
    plateau every column of the window already stands at level 5, at or
    above its computed height, so the tick of clock 9000, the first whose
    wave covers the window, archives the hill and selects the column
    [(5, 0)].  That column is in the window, its computed height is 1, and
    the step puts the spawner block on it at level 7: it is modified
    although it stood above its computed height, it rises by two levels,
    and it ends above its computed height. *)
Lemma spawner_placement_rise_counterexample :
  currentTarget plateauReady = Some 0%nat ∧
  targets plateauReady !! 0%nat = Some plateauTarget ∧
  isActive plateauTarget = true ∧
  isSpawnerBlockPresent plateauZone (world plateauReady) (0, 7, 0) = true ∧
  (5, 0) ∈ windowColumns (target_x plateauTarget) (target_z plateauTarget)
                         (terraformSize plateauZone / 2) ∧
  isWithinBounds plateauZone 5 0 = true ∧
  columnTargetHeight plateauZone plateauTarget 5 0 = 1 ∧
  getCurrentHeight plateauZone (world plateauReady) 5 0 = 5 ∧
  getBlockId (world plateauReady) (5, 7, 0) = Returns (IdNum 0) ∧
  getBlockId (world (terraformStep plateauZone 9000 fiveEast fiveEast plateauReady)) (5, 7, 0)
    = Returns (IdNum 19) ∧
  getCurrentHeight plateauZone
    (world (terraformStep plateauZone 9000 fiveEast fiveEast plateauReady)) 5 0 = 7 ∧
  ¬ (7 <= 5 + 1) ∧ ¬ (7 <= 1).
Proof.
  split; [reflexivity|]. split; [reflexivity|]. split; [reflexivity|].
  split; [vm_compute; reflexivity|].
  split; [apply elem_of_windowColumns; vm_compute; intuition discriminate|].
  repeat split; try (vm_compute; reflexivity); lia.
Qed.

(** C3, amended.  In a step on an active target, for every column: the
    two loops leave its highest occupied level at most one above the level
    it had before the step; a column whose blocks the loops change stood
    below its computed height and ends at most at that height; a column
    that already stands at or above its computed height is left as it is.
    If the loops end incomplete the grid they leave is the grid after the
    step; if they end complete they have changed no state at all, and what
    the step then writes is the spawner block of the next selection, which
    this cap does not cover. *)
Theorem sweep_rise_cap (cfg : TerraformingOptions) (now : Z) (rnd1 rnd2 : nat -> Draw)
        (st : Terraforming) (r : nat) (t : TerraformingTarget) (x z : Z) :
  currentTarget st = Some r →
  targets st !! r = Some t →
  isActive t = true →
  (∀ p, spawnerPosition t = Some p → isSpawnerBlockPresent cfg (world st) p = true) →
  let sw := sweep cfg now t st in
  let before := getCurrentHeight cfg (world st) x z in
  let after := getCurrentHeight cfg (world (zone sw)) x z in
  let h := columnTargetHeight cfg t x z in
  after <= before + 1 ∧
  ((∃ y, cells (world (zone sw)) !! (x, y, z) ≠ cells (world st) !! (x, y, z)) →
   (x, z) ∈ windowColumns (target_x t) (target_z t) (terraformSize cfg / 2) ∧
   isWithinBounds cfg x z = true ∧ before < h ∧ after <= h) ∧
  (h <= before → ∀ y, getBlockId (world (zone sw)) (x, y, z) = getBlockId (world st) (x, y, z)) ∧
  (targetComplete sw = false → world (terraformStep cfg now rnd1 rnd2 st) = world (zone sw)) ∧
  (targetComplete sw = true → zone sw = st).
Proof.
  intros Hcur Ht Hact Hlive sw before after h.
  pose proof (fold_terraformColumn_column cfg t (terraformSize cfg / 2)
                (currentWaveRadius cfg now t)
                (windowColumns (target_x t) (target_z t) (terraformSize cfg / 2))
                (mkSweep st 0 true) x z (NoDup_windowColumns _ _ _)) as Heffect.
  cbv zeta in Heffect. cbn [zone] in Heffect.
  change (fold_left _ _ _) with sw in Heffect.
  change (targetHeightForPosition _ _ _) with h in Heffect. fold before in Heffect.
  assert (Hafter : after <= before + 1 ∧ (¬ sameColumn (world st) (world (zone sw)) x z → after <= h)).
  { destruct Heffect as [Hsame|(_ & _ & _ & _ & Hlt & Hraised)].
    - unfold after. rewrite (getCurrentHeight_sameColumn cfg _ _ _ _ Hsame).
      fold before. split; [lia|]. intros Hn. contradiction.
    - pose proof (getCurrentHeight_columnRaised cfg _ _ _ _ _ Hraised) as Hle.
      fold after before in Hle. split; [exact Hle|]. intros _. lia. }
  split; [exact (proj1 Hafter)|]. split; [|split; [|split]].
  - intros [y Hy].
    assert (Hn : ¬ sameColumn (world st) (world (zone sw)) x z).
    { intros (_ & _ & Hc). exact (Hy (Hc y)). }
    destruct Heffect as [Hsame|(Hin & Hb & _ & _ & Hlt & _)]; [contradiction|].
    split; [exact Hin|]. split; [exact Hb|]. split; [exact Hlt|]. exact (proj2 Hafter Hn).
  - intros Hle y.
    destruct Heffect as [Hsame|(_ & _ & _ & _ & Hlt & _)]; [|lia].
    now apply sameColumn_getBlockId.
  - intros Hdone. rewrite (terraformStep_grow cfg now rnd1 rnd2 st r t Hcur Ht Hact Hlive).
    unfold finishStep. fold sw. rewrite Hdone. reflexivity.
  - intros Hdone. unfold sw, sweep in Hdone |- *. cbv zeta in Hdone |- *.
    destruct (fold_terraformColumn_complete cfg t _ _ _ _ Hdone) as [-> _]. reflexivity.
Qed.

Lemma sweep_rise_cap_witness :
  currentTarget hillGrown = Some 0%nat ∧
  targets hillGrown !! 0%nat = Some hillTarget ∧
  isActive hillTarget = true ∧
  (∀ p, spawnerPosition hillTarget = Some p →
        isSpawnerBlockPresent hillZone (world hillGrown) p = true) ∧
  getCurrentHeight hillZone (world (zone (sweep hillZone 3500 hillTarget hillGrown))) 0 0
    <= getCurrentHeight hillZone (world hillGrown) 0 0 + 1.
Proof.
  assert (Hlive : ∀ p, spawnerPosition hillTarget = Some p →
                       isSpawnerBlockPresent hillZone (world hillGrown) p = true)
    by (intros p [= <-]; reflexivity).
  split; [reflexivity|]. split; [reflexivity|]. split; [reflexivity|]. split; [exact Hlive|].
  exact (proj1 (sweep_rise_cap hillZone 3500 eastward eastward hillGrown 0 hillTarget 0 0
                  eq_refl eq_refl eq_refl Hlive)).
Defined.

(** ** The spreading search (C4) *)

Lemma isValidSpawnerPosition_spec (cfg : TerraformingOptions) (st : Terraforming) (x z : Z) :
  isValidSpawnerPosition cfg st x z = true ↔
  isWithinBounds cfg x z = true ∧
  (∀ s, s ∈ getActiveSpawnerPositions cfg st → 25 <= dist2 x z s) ∧
  (∃ s, s ∈ getActiveSpawnerPositions cfg st ∧
        (0 <= spawnerSpreadRadius cfg)%Q ∧
        (inject_Z (dist2 x z s) <= spawnerSpreadRadius cfg * spawnerSpreadRadius cfg)%Q).
Proof.
  unfold isValidSpawnerPosition.
  destruct (isWithinBounds cfg x z) eqn:Hb; cbn [negb].
  2:{ split; [discriminate|]. intros [? _]. discriminate. }
  destruct (existsb _ _) eqn:Hclose.
  - split; [discriminate|]. intros (_ & Hfar & _). exfalso.
    apply existsb_exists in Hclose as (s & Hin & Hlt).
    apply list_elem_of_In in Hin. specialize (Hfar s Hin).
    apply sqrt_lt_minDistance in Hfar. congruence.
  - rewrite existsb_exists. split.
    + intros (s & Hin & Hle). split; [reflexivity|]. split.
      * intros s' Hin'. apply sqrt_lt_minDistance.
        apply not_true_iff_false. intros Hlt.
        apply not_true_iff_false in Hclose. apply Hclose.
        apply existsb_exists. exists s'. split; [now apply list_elem_of_In|exact Hlt].
      * exists s. split; [now apply list_elem_of_In|]. now apply sqrt_le_spec.
    + intros (_ & _ & s & Hin & Hle). exists s.
      split; [now apply list_elem_of_In|]. now apply sqrt_le_spec.
Qed.

Lemma isValidSpawnerPosition_active (cfg : TerraformingOptions) (st st' : Terraforming) (x z : Z) :
  getActiveSpawnerPositions cfg st' = getActiveSpawnerPositions cfg st →
  isValidSpawnerPosition cfg st' x z = isValidSpawnerPosition cfg st x z.
Proof. intros H. unfold isValidSpawnerPosition. now rewrite H. Qed.

Lemma searchFrom_found (cfg : TerraformingOptions) (rnd : nat -> Draw) (st : Terraforming)
      (active : list Pos) (fuel attempts : nat) (x z : Z) :
  searchFrom cfg rnd st active attempts fuel = Some (x, z) →
  isValidSpawnerPosition cfg st x z = true ∧
  ∃ k sx sy sz, (attempts <= k < attempts + fuel)%nat ∧
    active !! pick (rnd k) = Some (sx, sy, sz) ∧
    x = sx + offX (rnd k) ∧ z = sz + offZ (rnd k).
Proof.
  revert attempts. induction fuel as [|fuel IH]; intros attempts; cbn [searchFrom]; [discriminate|].
  destruct (active !! pick (rnd attempts)) as [[[sx sy] sz]|] eqn:Hpick.
  - destruct (isValidSpawnerPosition cfg st (sx + offX (rnd attempts)) (sz + offZ (rnd attempts)))
      eqn:Hvalid.
    + intros Heq. inversion Heq; subst. split; [exact Hvalid|].
      exists attempts, sx, sy, sz. split; [lia|]. split; [exact Hpick|]. done.
    + intros Hrest. destruct (IH _ Hrest) as (Hv & k & sx' & sy' & sz' & Hk & Hrest').
      split; [exact Hv|]. exists k, sx', sy', sz'. split; [lia|exact Hrest'].
  - intros Hrest. destruct (IH _ Hrest) as (Hv & k & sx' & sy' & sz' & Hk & Hrest').
    split; [exact Hv|]. exists k, sx', sy', sz'. split; [lia|exact Hrest'].
Qed.

Lemma searchFrom_draws (cfg : TerraformingOptions) (rnd rnd' : nat -> Draw) (st : Terraforming)
      (active : list Pos) (fuel attempts : nat) :
  (∀ k, (attempts <= k < attempts + fuel)%nat → rnd' k = rnd k) →
  searchFrom cfg rnd' st active attempts fuel = searchFrom cfg rnd st active attempts fuel.
Proof.
  revert attempts. induction fuel as [|fuel IH]; intros attempts Hsame; [reflexivity|].
  cbn [searchFrom]. rewrite Hsame by lia.
  rewrite IH; [reflexivity|]. intros k Hk. apply Hsame. lia.
Qed.

Lemma searchFrom_active (cfg : TerraformingOptions) (rnd : nat -> Draw) (st st' : Terraforming)
      (active : list Pos) (fuel attempts : nat) :
  getActiveSpawnerPositions cfg st' = getActiveSpawnerPositions cfg st →
  searchFrom cfg rnd st' active attempts fuel = searchFrom cfg rnd st active attempts fuel.
Proof.
  intros Hact. revert attempts. induction fuel as [|fuel IH]; intros attempts; [reflexivity|].
  cbn [searchFrom]. destruct (active !! pick (rnd attempts)) as [[[sx sy] sz]|]; [|apply IH].
  rewrite (isValidSpawnerPosition_active cfg st st' _ _ Hact). now rewrite IH.
Qed.

Lemma findValidSpawnerPosition_cases (cfg : TerraformingOptions) (rnd : nat -> Draw)
      (st : Terraforming) :
  findValidSpawnerPosition cfg rnd st = ([WarnNoActiveSpawners], None) ∨
  findValidSpawnerPosition cfg rnd st =
    ([], searchFrom cfg rnd st (getActiveSpawnerPositions cfg st) 0 maxAttempts).
Proof.
  unfold findValidSpawnerPosition.
  destruct (length (getActiveSpawnerPositions cfg st) =? 0)%nat; [left|right]; reflexivity.
Qed.

Lemma findValidSpawnerPosition_active (cfg : TerraformingOptions) (rnd : nat -> Draw)
      (st st' : Terraforming) :
  getActiveSpawnerPositions cfg st' = getActiveSpawnerPositions cfg st →
  findValidSpawnerPosition cfg rnd st' = findValidSpawnerPosition cfg rnd st.
Proof.
  intros Hact. unfold findValidSpawnerPosition. rewrite Hact.
  now rewrite (searchFrom_active cfg rnd st st' _ _ _ Hact).
Qed.

(** A selection whose search finds no site writes to the console and
    changes nothing else. *)
Lemma selectNewTarget_no_site (cfg : TerraformingOptions) (now : Z) (rnd : nat -> Draw)
      (st : Terraforming) :
  hasInitialSpawners st = true →
  snd (findValidSpawnerPosition cfg rnd st) = None →
  let st' := selectNewTarget cfg now rnd st in
  world st' = world st ∧ targets st' = targets st ∧ currentTarget st' = currentTarget st ∧
  completedTargets st' = completedTargets st ∧ spawnerPositions st' = spawnerPositions st ∧
  hasInitialSpawners st' = true.
Proof.
  intros Hinit Hnone. unfold selectNewTarget. rewrite Hinit. cbn [negb].
  destruct (findValidSpawnerPosition cfg rnd st) as [out site]. cbn [snd] in Hnone. subst site.
  cbv zeta. cbn. induction out as [|e out IH]; cbn; [done|]. exact IH.
Qed.

(** ** Losing a spawner *)

Lemma bound_to_self (p : Pos) (t : TerraformingTarget) :
  spawnerPosition t = Some p → bound_to p t = true.
Proof. unfold bound_to. intros ->. now apply bool_decide_eq_true. Qed.

Lemma findTargetByPosition_current (st : Terraforming) (r : nat) (t : TerraformingTarget) (p : Pos) :
  currentTarget st = Some r → targets st !! r = Some t → spawnerPosition t = Some p →
  findTargetByPosition st p = Some r.
Proof.
  intros Hcur Ht Hp. unfold findTargetByPosition.
  now rewrite Hcur, Ht, (bound_to_self p t Hp).
Qed.

Lemma onSpawnerDestroyed_current (cfg : TerraformingOptions) (now : Z) (rnd : nat -> Draw)
      (st : Terraforming) (r : nat) (t : TerraformingTarget) (p : Pos) :
  currentTarget st = Some r → targets st !! r = Some t → spawnerPosition t = Some p →
  onSpawnerDestroyed cfg now rnd p st =
  forget p (selectNewTarget cfg now rnd
              (say (LogSpawnerDestroyed p) (set_targets (<[r := unbound t]> (targets st)) st))).
Proof.
  intros Hcur Ht Hp. unfold onSpawnerDestroyed.
  rewrite (findTargetByPosition_current st r t p Hcur Ht Hp), Ht.
  cbn [currentTarget say set_targets]. rewrite Hcur.
  rewrite bool_decide_eq_true_2 by reflexivity. reflexivity.
Qed.

Lemma terraformStep_destroyed (cfg : TerraformingOptions) (now : Z) (rnd1 rnd2 : nat -> Draw)
      (st : Terraforming) (r : nat) (t : TerraformingTarget) (p : Pos) :
  currentTarget st = Some r →
  targets st !! r = Some t →
  isActive t = true →
  spawnerPosition t = Some p →
  isSpawnerBlockPresent cfg (world st) p = false →
  terraformStep cfg now rnd1 rnd2 st =
  selectNewTarget cfg now rnd2
    (forget p (selectNewTarget cfg now rnd1 (afterLoss r t p st))).
Proof.
  intros Hcur Ht Hact Hp Hgone. unfold terraformStep.
  rewrite Hcur, Ht, Hact, Hp, Hgone. cbn [negb]. f_equal.
  assert (Hlen : (r < length (targets st))%nat) by (eapply lookup_lt_Some; exact Ht).
  rewrite (onSpawnerDestroyed_current cfg now rnd1 _ r
             (mkTarget (target_x t) (target_y t) (target_z t) (startTime t) (Some p) false) p).
  - cbn [targets set_targets say]. rewrite list_insert_insert_eq. reflexivity.
  - exact Hcur.
  - cbn [targets set_targets say]. now apply list_lookup_insert_eq.
  - reflexivity.
Qed.

Lemma getActiveSpawnerPositions_same (cfg : TerraformingOptions) (st st' : Terraforming) :
  world st' = world st → spawnerPositions st' = spawnerPositions st →
  getActiveSpawnerPositions cfg st' = getActiveSpawnerPositions cfg st.
Proof. intros Hw Hs. unfold getActiveSpawnerPositions, getSpawnerPositions. now rewrite Hw, Hs. Qed.

Lemma elem_of_set_delete (p q : Pos) (ps : list Pos) :
  q ∈ set_delete p ps ↔ q ∈ ps ∧ q ≠ p.
Proof. unfold set_delete. rewrite list_elem_of_filter. tauto. Qed.

Lemma filter_set_delete (f : Pos → bool) (p : Pos) (ps : list Pos) :
  f p = false → List.filter f (set_delete p ps) = List.filter f ps.
Proof.
  intros Hp. unfold set_delete. induction ps as [|q ps IH]; [reflexivity|].
  rewrite filter_cons. destruct (decide (q ≠ p)) as [Hne|Heq].
  - cbn [List.filter]. now rewrite IH.
  - assert (q = p) by (destruct (decide (q = p)); [done|contradiction]). subst q.
    cbn [List.filter]. now rewrite Hp.
Qed.

Lemma getActiveSpawnerPositions_forget (cfg : TerraformingOptions) (p : Pos) (st : Terraforming) :
  isSpawnerBlockPresent cfg (world st) p = false →
  getActiveSpawnerPositions cfg (forget p st) = getActiveSpawnerPositions cfg st.
Proof. intros Hp. unfold getActiveSpawnerPositions, getSpawnerPositions. cbn. now apply filter_set_delete. Qed.

(** A tick all of whose searches find no site creates no target and
    registers no spawner. *)
Lemma terraformStep_no_site (cfg : TerraformingOptions) (now : Z) (rnd1 rnd2 : nat -> Draw)
      (st : Terraforming) :
  hasInitialSpawners st = true →
  snd (findValidSpawnerPosition cfg rnd1 st) = None →
  snd (findValidSpawnerPosition cfg rnd2 st) = None →
  let st' := terraformStep cfg now rnd1 rnd2 st in
  length (targets st') = length (targets st) ∧
  currentTarget st' = currentTarget st ∧
  (∀ k, k ∈ spawnerPositions st' → k ∈ spawnerPositions st).
Proof.
  intros Hinit Hnone1 Hnone2.
  assert (Hquiet : ∀ rnd s, snd (findValidSpawnerPosition cfg rnd st) = None →
            hasInitialSpawners s = true →
            getActiveSpawnerPositions cfg s = getActiveSpawnerPositions cfg st →
            let s' := selectNewTarget cfg now rnd s in
            world s' = world s ∧ targets s' = targets s ∧ currentTarget s' = currentTarget s ∧
            completedTargets s' = completedTargets s ∧ spawnerPositions s' = spawnerPositions s ∧
            hasInitialSpawners s' = true).
  { intros rnd s Hnone Hi Hact. apply selectNewTarget_no_site; [exact Hi|].
    now rewrite (findValidSpawnerPosition_active cfg rnd st s Hact). }
  cbv zeta. destruct (currentTarget st) as [r|] eqn:Hcur.
  2:{ unfold terraformStep. rewrite Hcur.
      destruct (Hquiet rnd1 st Hnone1 Hinit eq_refl) as (_ & -> & -> & _ & -> & _). done. }
  destruct (targets st !! r) as [t|] eqn:Ht.
  2:{ unfold terraformStep. rewrite Hcur, Ht. done. }
  destruct (isActive t) eqn:Hact.
  2:{ unfold terraformStep. rewrite Hcur, Ht, Hact. cbn [negb].
      destruct (Hquiet rnd1 (say LogTargetInactive st) Hnone1 Hinit eq_refl)
        as (_ & -> & -> & _ & -> & _). done. }
  assert (Hgrow : let s' := finishStep cfg now rnd1 r t (sweep cfg now t st) in
            length (targets s') = length (targets st) ∧ currentTarget s' = Some r ∧
            (∀ k, k ∈ spawnerPositions s' → k ∈ spawnerPositions st)).
  { cbv zeta. unfold finishStep.
    destruct (targetComplete (sweep cfg now t st)) eqn:Hdone.
    - unfold sweep in Hdone |- *. cbv zeta in Hdone |- *.
      destruct (fold_terraformColumn_complete cfg t _ _ _ _ Hdone) as [-> _]. cbn [zone blocksModified].
      change (completedTargets (say LogHillCompleted
                (say (LogStep 0 (currentWaveRadius cfg now t)) st)))
        with (completedTargets st).
      destruct (Hquiet rnd1
                  (set_completedTargets (completedTargets st ++ [r])
                     (say LogHillCompleted
                        (say (LogStep 0 (currentWaveRadius cfg now t)) st)))
                  Hnone1 Hinit eq_refl) as (_ & -> & -> & _ & -> & _).
      done.
    - destruct (fold_terraformColumn_frame cfg t (terraformSize cfg / 2)
                  (currentWaveRadius cfg now t)
                  (windowColumns (target_x t) (target_z t) (terraformSize cfg / 2))
                  (mkSweep st 0 true)) as (Ht' & Hc' & _ & Hs' & _).
      unfold sweep. cbv zeta. cbn [targets currentTarget spawnerPositions say].
      rewrite Ht', Hc', Hs'. done. }
  destruct (spawnerPosition t) as [p|] eqn:Hp.
  - destruct (isSpawnerBlockPresent cfg (world st) p) eqn:Hlive.
    +
      rewrite (terraformStep_grow cfg now rnd1 rnd2 st r t Hcur Ht Hact).
      2:{ intros q Hq. congruence. }
      apply Hgrow.
    + rewrite (terraformStep_destroyed cfg now rnd1 rnd2 st r t p Hcur Ht Hact Hp Hlive).
      destruct (Hquiet rnd1 (afterLoss r t p st) Hnone1 Hinit eq_refl)
        as (Hw1 & Ht1 & Hc1 & _ & Hs1 & Hi1).
      assert (Hact2 : getActiveSpawnerPositions cfg
                        (forget p (selectNewTarget cfg now rnd1 (afterLoss r t p st)))
                      = getActiveSpawnerPositions cfg st).
      { rewrite getActiveSpawnerPositions_forget by (rewrite Hw1; exact Hlive).
        apply getActiveSpawnerPositions_same; [exact Hw1|exact Hs1]. }
      destruct (Hquiet rnd2 (forget p (selectNewTarget cfg now rnd1 (afterLoss r t p st)))
                  Hnone2 Hi1 Hact2) as (_ & -> & -> & _ & -> & _).
      cbn. rewrite Ht1, Hc1, Hs1. cbn. rewrite length_insert.
      split; [done|]. split; [done|]. intros k Hk. apply elem_of_set_delete in Hk. tauto.
  - rewrite (terraformStep_grow cfg now rnd1 rnd2 st r t Hcur Ht Hact).
    2:{ intros q Hq. congruence. }
    apply Hgrow.
Qed.

(** C4. A site that the search returns is inside the zone, at squared
    distance at least 25 (distance at least 5) from every live registered
    spawner, and at distance at most [spawnerSpreadRadius] from one of
    them; it is the proposal of one of the attempts 0 to 49, and the answer
    of the search does not depend on any later draw.  If the search finds
    no site, the selection writes to the console and changes nothing else;
    a tick whose searches all find no site creates no target object, keeps
    the current target and registers no spawner. *)
Theorem spreading_search (cfg : TerraformingOptions) (rnd : nat -> Draw) (st : Terraforming) :
  (∀ out x z,
     findValidSpawnerPosition cfg rnd st = (out, Some (x, z)) →
     isWithinBounds cfg x z = true ∧
     (∀ s, s ∈ getActiveSpawnerPositions cfg st → 25 <= dist2 x z s) ∧
     (∃ s, s ∈ getActiveSpawnerPositions cfg st ∧
           (0 <= spawnerSpreadRadius cfg)%Q ∧
           (inject_Z (dist2 x z s) <= spawnerSpreadRadius cfg * spawnerSpreadRadius cfg)%Q) ∧
     (∃ k sx sy sz, (k < 50)%nat ∧
           getActiveSpawnerPositions cfg st !! pick (rnd k) = Some (sx, sy, sz) ∧
           x = sx + offX (rnd k) ∧ z = sz + offZ (rnd k))) ∧
  (∀ rnd', (∀ k, (k < 50)%nat → rnd' k = rnd k) →
     findValidSpawnerPosition cfg rnd' st = findValidSpawnerPosition cfg rnd st) ∧
  (∀ now,
     hasInitialSpawners st = true →
     snd (findValidSpawnerPosition cfg rnd st) = None →
     let st' := selectNewTarget cfg now rnd st in
     world st' = world st ∧ targets st' = targets st ∧ currentTarget st' = currentTarget st ∧
     completedTargets st' = completedTargets st ∧ spawnerPositions st' = spawnerPositions st) ∧
  (∀ now rnd2,
     hasInitialSpawners st = true →
     snd (findValidSpawnerPosition cfg rnd st) = None →
     snd (findValidSpawnerPosition cfg rnd2 st) = None →
     let st' := terraformStep cfg now rnd rnd2 st in
     length (targets st') = length (targets st) ∧
     currentTarget st' = currentTarget st ∧
     (∀ k, k ∈ spawnerPositions st' → k ∈ spawnerPositions st)).
Proof.
  split; [|split; [|split]].
  - intros out x z Hfound.
    destruct (findValidSpawnerPosition_cases cfg rnd st) as [Hcase|Hcase];
      rewrite Hcase in Hfound; apply pair_equal_spec in Hfound as [_ Hfound];
      [discriminate|].
    apply searchFrom_found in Hfound as (Hvalid & k & sx & sy & sz & Hk & Hpick & Hx & Hz).
    apply isValidSpawnerPosition_spec in Hvalid as (Hb & Hfar & Hnear).
    split; [exact Hb|]. split; [exact Hfar|]. split; [exact Hnear|].
    exists k, sx, sy, sz. unfold maxAttempts in Hk. split; [lia|]. done.
  - intros rnd' Hsame. unfold findValidSpawnerPosition.
    rewrite (searchFrom_draws cfg rnd rnd'); [reflexivity|].
    intros k Hk. apply Hsame. unfold maxAttempts in Hk. lia.
  - intros now Hinit Hnone.
    destruct (selectNewTarget_no_site cfg now rnd st Hinit Hnone) as (? & ? & ? & ? & ? & _).
    done.
  - intros now rnd2. apply terraformStep_no_site.
Qed.

Lemma spreading_search_witness :
  findValidSpawnerPosition hillZone eastward hillGrown = ([], Some (6, 0)) ∧
  isWithinBounds hillZone 6 0 = true ∧
  (∀ s, s ∈ getActiveSpawnerPositions hillZone hillGrown → 25 <= dist2 6 0 s).
Proof.
  assert (Hfound : findValidSpawnerPosition hillZone eastward hillGrown = ([], Some (6, 0)))
    by (vm_compute; reflexivity).
  split; [exact Hfound|].
  pose proof (proj1 (spreading_search hillZone eastward hillGrown) [] 6 0 Hfound) as H.
  split; [exact (proj1 H)|exact (proj1 (proj2 H))].
Defined.

(** ** Initial placement (C5) *)

Lemma onlyWrites_refl b w : onlyWrites b w w.
Proof. split; [done|]. split; [done|]. now left. Qed.

Lemma onlyWrites_trans b w1 w2 w3 :
  onlyWrites b w1 w2 → onlyWrites b w2 w3 → onlyWrites b w1 w3.
Proof.
  intros (Hr & Hw & Hc) (Hr' & Hw' & Hc'). split; [congruence|]. split; [congruence|].
  intros q. destruct (Hc' q) as [Hq|Hq]; rewrite Hq; [apply Hc|now right].
Qed.

Lemma setBlock_onlyWrites x y z b st : onlyWrites b (world st) (world (setBlock x y z b st)).
Proof.
  destruct (setBlock_world_cases x y z b st) as [[_ ->]|[_ ->]]; [apply onlyWrites_refl|].
  split; [done|]. split; [done|]. intros q. cbn.
  destruct (decide ((x, y, z) = q)) as [<-|Hne].
  - right. apply lookup_insert_eq.
  - left. now apply lookup_insert_ne.
Qed.

Lemma onlyWrites_present cfg w w' p :
  onlyWrites (spawnerBlockId cfg) w w' →
  isSpawnerBlockPresent cfg w p = true → isSpawnerBlockPresent cfg w' p = true.
Proof.
  intros (Hr & _ & Hc). unfold isSpawnerBlockPresent, getBlockId. rewrite Hr.
  destruct (unreadable w p); [done|].
  destruct (Hc p) as [Hq|Hq]; rewrite Hq; [done|]. intros _. cbn. apply Z.eqb_refl.
Qed.

Lemma set_add_elem (p : Pos) (ps : list Pos) : p ∈ set_add p ps.
Proof.
  unfold set_add. destruct (bool_decide (p ∈ ps)) eqn:Hin.
  - now apply bool_decide_eq_true in Hin.
  - apply elem_of_app. right. now left.
Qed.

Lemma set_add_extends (p : Pos) (ps : list Pos) : ∃ more, set_add p ps = ps ++ more.
Proof.
  unfold set_add. destruct (bool_decide (p ∈ ps)).
  - exists []. now rewrite app_nil_r.
  - now exists [p].
Qed.

Lemma set_add_keeps (p q : Pos) (ps : list Pos) : q ∈ ps → q ∈ set_add p ps.
Proof.
  intros Hq. destruct (set_add_extends p ps) as [more ->]. apply elem_of_app. now left.
Qed.

(** What the body of the loop over the initial points does to a point inside the zone. *)
Lemma placeInitialSpawner_inside cfg st x z :
  isWithinBounds cfg x z = true →
  let y := Z.max (getCurrentHeight cfg (world st) x z + 2) 2 in
  placeInitialSpawner cfg st (x, z) =
  say (LogInitialSpawnerCreated (x, y, z))
      (set_spawnerPositions
         (set_add (x, y, z) (spawnerPositions (setBlock x y z (spawnerBlockId cfg) st)))
         (setBlock x y z (spawnerBlockId cfg) st)).
Proof. intros Hb. unfold placeInitialSpawner. now rewrite Hb. Qed.

Lemma placeInitialSpawner_outside cfg st x z :
  isWithinBounds cfg x z = false →
  placeInitialSpawner cfg st (x, z) = say (WarnOutsideBounds x z) st.
Proof. intros Hb. unfold placeInitialSpawner. now rewrite Hb. Qed.

Lemma placeInitialSpawner_frame cfg st c :
  let st' := placeInitialSpawner cfg st c in
  targets st' = targets st ∧ currentTarget st' = currentTarget st ∧
  completedTargets st' = completedTargets st ∧
  onlyWrites (spawnerBlockId cfg) (world st) (world st') ∧
  (∃ more, spawnerPositions st' = spawnerPositions st ++ more).
Proof.
  destruct c as [x z]. cbv zeta. destruct (isWithinBounds cfg x z) eqn:Hb.
  - rewrite (placeInitialSpawner_inside cfg st x z Hb). cbv zeta.
    set (y := Z.max _ 2).
    destruct (setBlock_frame x y z (spawnerBlockId cfg) st) as (Ht & Hc & Hh & Hs & _).
    cbn. rewrite Ht, Hc, Hh, Hs. split; [done|]. split; [done|]. split; [done|].
    split; [apply setBlock_onlyWrites|apply set_add_extends].
  - rewrite (placeInitialSpawner_outside cfg st x z Hb). cbn.
    split; [done|]. split; [done|]. split; [done|]. split; [apply onlyWrites_refl|].
    exists []. now rewrite app_nil_r.
Qed.

Lemma fold_placeInitialSpawner_frame cfg points st :
  let st' := fold_left (placeInitialSpawner cfg) points st in
  targets st' = targets st ∧ currentTarget st' = currentTarget st ∧
  completedTargets st' = completedTargets st ∧
  onlyWrites (spawnerBlockId cfg) (world st) (world st') ∧
  (∃ more, spawnerPositions st' = spawnerPositions st ++ more).
Proof.
  revert st. induction points as [|c points IH]; intros st; cbn [fold_left]; cbv zeta.
  { split; [done|]. split; [done|]. split; [done|]. split; [apply onlyWrites_refl|].
    exists []. now rewrite app_nil_r. }
  destruct (IH (placeInitialSpawner cfg st c)) as (-> & -> & -> & Hw & more & ->).
  destruct (placeInitialSpawner_frame cfg st c) as (-> & -> & -> & Hw' & more' & ->).
  split; [done|]. split; [done|]. split; [done|].
  split; [exact (onlyWrites_trans _ _ _ _ Hw' Hw)|].
  exists (more' ++ more). now rewrite app_assoc.
Qed.

Lemma createInitialSpawners_first_inside cfg now st fx fz rest :
  initialSpawnPoints cfg = (fx, fz) :: rest →
  isWithinBounds cfg fx fz = true →
  createInitialSpawners cfg now st =
  set_currentTarget (Some (length (targets st)))
    (set_targets
       (targets st ++ [mkTarget fx (targetHeight cfg) fz now
                          (findSpawnerPositionAt cfg (initialSpawnersPlaced cfg st) fx fz) true])
       (initialSpawnersPlaced cfg st)).
Proof.
  intros Hpts Hb. unfold createInitialSpawners. cbv zeta.
  fold (initialSpawnersPlaced cfg st). rewrite Hpts at 1. rewrite Hb.
  unfold alloc.
  assert (Ht : targets (initialSpawnersPlaced cfg st) = targets st).
  { unfold initialSpawnersPlaced. cbn [targets set_hasInitialSpawners].
    destruct (fold_placeInitialSpawner_frame cfg (initialSpawnPoints cfg)
                (say LogCreatingInitialSpawners st)) as (-> & _). reflexivity. }
  rewrite Ht. reflexivity.
Qed.

Lemma createInitialSpawners_first_outside cfg now st :
  match initialSpawnPoints cfg with
  | [] => True
  | (fx, fz) :: _ => isWithinBounds cfg fx fz = false
  end →
  createInitialSpawners cfg now st = initialSpawnersPlaced cfg st.
Proof.
  intros Hfirst. unfold createInitialSpawners. cbv zeta.
  fold (initialSpawnersPlaced cfg st).
  destruct (initialSpawnPoints cfg) as [|[fx fz] rest] eqn:Hpts at 1; [reflexivity|].
  rewrite Hpts in Hfirst. now rewrite Hfirst.
Qed.

Lemma createInitialSpawners_registry cfg now st :
  spawnerPositions (createInitialSpawners cfg now st) = spawnerPositions (initialSpawnersPlaced cfg st) ∧
  world (createInitialSpawners cfg now st) = world (initialSpawnersPlaced cfg st) ∧
  hasInitialSpawners (createInitialSpawners cfg now st) = true.
Proof.
  unfold createInitialSpawners. cbv zeta. fold (initialSpawnersPlaced cfg st).
  destruct (initialSpawnPoints cfg) as [|[fx fz] rest]; [done|].
  destruct (isWithinBounds cfg fx fz); done.
Qed.

(** Every point inside the zone leaves its key in the registry and, where
    the grid takes the write, its block in the grid. *)
Lemma initialSpawnersPlaced_point cfg st pre x z post :
  initialSpawnPoints cfg = pre ++ (x, z) :: post →
  isWithinBounds cfg x z = true →
  let s := fold_left (placeInitialSpawner cfg) pre (say LogCreatingInitialSpawners st) in
  let y := Z.max (getCurrentHeight cfg (world s) x z + 2) 2 in
  (x, y, z) ∈ spawnerPositions (initialSpawnersPlaced cfg st) ∧
  (unwritable (world st) (x, y, z) = false →
   cells (world (initialSpawnersPlaced cfg st)) !! (x, y, z) = Some (IdNum (spawnerBlockId cfg))).
Proof.
  intros Hpts Hb s y. unfold initialSpawnersPlaced. cbn [spawnerPositions world set_hasInitialSpawners].
  rewrite Hpts, fold_left_app. cbn [fold_left]. fold s.
  assert (Hy : Z.max (getCurrentHeight cfg (world s) x z + 2) 2 = y) by reflexivity.
  clearbody y.
  assert (Hmid : (x, y, z) ∈ spawnerPositions (placeInitialSpawner cfg s (x, z)) ∧
                 (unwritable (world st) (x, y, z) = false →
                  cells (world (placeInitialSpawner cfg s (x, z))) !! (x, y, z)
                  = Some (IdNum (spawnerBlockId cfg)))).
  { rewrite (placeInitialSpawner_inside cfg s x z Hb). cbv zeta. rewrite Hy.
    cbn [spawnerPositions world say set_spawnerPositions]. split; [apply set_add_elem|].
    intros Hwr.
    destruct (fold_placeInitialSpawner_frame cfg pre (say LogCreatingInitialSpawners st))
      as (_ & _ & _ & (_ & Huw & _) & _). fold s in Huw. cbn [world say] in Huw.
    destruct (setBlock_world_cases x y z (spawnerBlockId cfg) s) as [[Hu _]|[_ ->]].
    - rewrite Huw in Hu. congruence.
    - cbn. apply lookup_insert_eq. }
  destruct Hmid as [Hkey Hcell].
  destruct (fold_placeInitialSpawner_frame cfg post (placeInitialSpawner cfg s (x, z)))
    as (_ & _ & _ & (_ & _ & Hcells) & more & Hreg).
  rewrite Hreg. split.
  - apply elem_of_app. now left.
  - intros Hwr. destruct (Hcells (x, y, z)) as [Hq|Hq]; [|exact Hq].
    etrans; [exact Hq|exact (Hcell Hwr)].
Qed.

(** On a zone that has no spawner yet, the first point inside the zone is
    found again through the registry when the grid took its block. *)
Lemma findSpawnerPositionAt_first cfg st fx fz rest :
  initialSpawnPoints cfg = (fx, fz) :: rest →
  isWithinBounds cfg fx fz = true →
  spawnerPositions st = [] →
  let y := Z.max (getCurrentHeight cfg (world st) fx fz + 2) 2 in
  unwritable (world st) (fx, y, fz) = false →
  unreadable (world st) (fx, y, fz) = false →
  findSpawnerPositionAt cfg (initialSpawnersPlaced cfg st) fx fz = Some (fx, y, fz).
Proof.
  intros Hpts Hb Hfresh y Hwr Hrd.
  destruct (initialSpawnersPlaced_point cfg st [] fx fz rest Hpts Hb) as [_ Hcell].
  cbn [fold_left world say] in Hcell.
  assert (Hy : Z.max (getCurrentHeight cfg (world st) fx fz + 2) 2 = y) by reflexivity.
  clearbody y. rewrite Hy in Hcell. specialize (Hcell Hwr).
  unfold findSpawnerPositionAt, getActiveSpawnerPositions, getSpawnerPositions.
  assert (Hreg : ∃ more, spawnerPositions (initialSpawnersPlaced cfg st) = (fx, y, fz) :: more).
  { unfold initialSpawnersPlaced. cbn [spawnerPositions set_hasInitialSpawners].
    rewrite Hpts. cbn [fold_left].
    destruct (fold_placeInitialSpawner_frame cfg rest
                (placeInitialSpawner cfg (say LogCreatingInitialSpawners st) (fx, fz)))
      as (_ & _ & _ & _ & more & ->).
    rewrite (placeInitialSpawner_inside cfg _ fx fz Hb). cbv zeta. cbn [world say]. rewrite Hy.
    cbn [spawnerPositions say set_spawnerPositions].
    destruct (setBlock_frame fx y fz (spawnerBlockId cfg) (say LogCreatingInitialSpawners st))
      as (_ & _ & _ & -> & _).
    cbn [spawnerPositions say]. rewrite Hfresh. now exists more. }
  destruct Hreg as [more ->].
  assert (Hlive : isSpawnerBlockPresent cfg (world (initialSpawnersPlaced cfg st)) (fx, y, fz) = true).
  { apply isSpawnerBlockPresent_iff. unfold getBlockId.
    assert (Hr : unreadable (world (initialSpawnersPlaced cfg st)) = unreadable (world st)).
    { unfold initialSpawnersPlaced. cbn [world set_hasInitialSpawners].
      destruct (fold_placeInitialSpawner_frame cfg (initialSpawnPoints cfg)
                  (say LogCreatingInitialSpawners st)) as (_ & _ & _ & (Hr & _) & _).
      exact Hr. }
    rewrite Hr, Hrd, Hcell. reflexivity. }
  cbn [List.filter]. rewrite Hlive. cbn [List.find]. now rewrite !Z.eqb_refl.
Qed.

(** The claim of C5 fails when the first configured point is outside the
    zone: the late zone places and registers the spawner of its second
    point, which is inside, and binds no target at all. *)
Lemma first_point_outside_counterexample :
  initialSpawnPoints lateZone = [(100, 100); (0, 0)] ∧
  isWithinBounds lateZone 100 100 = false ∧
  isWithinBounds lateZone 0 0 = true ∧
  spawnerPositions (createInitialSpawners lateZone 0 (freshZone clayStrip)) = [(0, 2, 0)] ∧
  getBlockId (world (createInitialSpawners lateZone 0 (freshZone clayStrip))) (0, 2, 0)
    = Returns (IdNum 19) ∧
  currentTarget (createInitialSpawners lateZone 0 (freshZone clayStrip)) = None ∧
  targets (createInitialSpawners lateZone 0 (freshZone clayStrip)) = [].
Proof. repeat split; vm_compute; reflexivity. Qed.

(** C5, amended.  The loop over the initial points passes over a point
    outside the zone with a warning and nothing else; for a point inside
    the zone it writes the spawner block at [(x, max (ground + 2, 2), z)],
    [ground] being the highest occupied level of the column at that
    moment, and registers that key; every such key is in the registry when
    the placement ends, and the block is in the grid where the grid takes
    the write.  After the loop, if the first configured point is inside the
    zone a new target at that point, with the configured elevation, becomes
    the current target, bound to the live registered spawner found at its
    column, which on a zone without earlier spawners and a working grid is
    the block just placed for it; if the first configured point is outside
    the zone, or there is none, no target is bound. *)
Theorem initial_spawner_placement (cfg : TerraformingOptions) (now : Z) (st : Terraforming) :
  (∀ s x z,
     isWithinBounds cfg x z = false →
     placeInitialSpawner cfg s (x, z) = say (WarnOutsideBounds x z) s) ∧
  (∀ s x z,
     isWithinBounds cfg x z = true →
     let y := Z.max (getCurrentHeight cfg (world s) x z + 2) 2 in
     placeInitialSpawner cfg s (x, z) =
     say (LogInitialSpawnerCreated (x, y, z))
         (set_spawnerPositions (set_add (x, y, z) (spawnerPositions s))
            (setBlock x y z (spawnerBlockId cfg) s))) ∧
  (∀ pre x z post,
     initialSpawnPoints cfg = pre ++ (x, z) :: post →
     isWithinBounds cfg x z = true →
     let s := fold_left (placeInitialSpawner cfg) pre (say LogCreatingInitialSpawners st) in
     let y := Z.max (getCurrentHeight cfg (world s) x z + 2) 2 in
     (x, y, z) ∈ spawnerPositions (createInitialSpawners cfg now st) ∧
     (unwritable (world st) (x, y, z) = false →
      cells (world (createInitialSpawners cfg now st)) !! (x, y, z)
      = Some (IdNum (spawnerBlockId cfg)))) ∧
  (∀ fx fz rest,
     initialSpawnPoints cfg = (fx, fz) :: rest →
     isWithinBounds cfg fx fz = true →
     let st' := createInitialSpawners cfg now st in
     let y := Z.max (getCurrentHeight cfg (world st) fx fz + 2) 2 in
     currentTarget st' = Some (length (targets st)) ∧
     ∃ bound,
       targets st' !! length (targets st)
       = Some (mkTarget fx (targetHeight cfg) fz now bound true) ∧
       bound = findSpawnerPositionAt cfg (initialSpawnersPlaced cfg st) fx fz ∧
       (spawnerPositions st = [] →
        unwritable (world st) (fx, y, fz) = false →
        unreadable (world st) (fx, y, fz) = false →
        bound = Some (fx, y, fz))) ∧
  (match initialSpawnPoints cfg with
   | [] => True
   | (fx, fz) :: _ => isWithinBounds cfg fx fz = false
   end →
   currentTarget (createInitialSpawners cfg now st) = currentTarget st ∧
   targets (createInitialSpawners cfg now st) = targets st).
Proof.
  split; [intros s x z; apply placeInitialSpawner_outside|].
  split.
  { intros s x z Hb y. rewrite (placeInitialSpawner_inside cfg s x z Hb). cbv zeta. fold y.
    destruct (setBlock_frame x y z (spawnerBlockId cfg) s) as (_ & _ & _ & -> & _).
    reflexivity. }
  split.
  { intros pre x z post Hpts Hb s y.
    destruct (createInitialSpawners_registry cfg now st) as (-> & -> & _).
    exact (initialSpawnersPlaced_point cfg st pre x z post Hpts Hb). }
  split.
  { intros fx fz rest Hpts Hb st' y. unfold st'.
    rewrite (createInitialSpawners_first_inside cfg now st fx fz rest Hpts Hb).
    split; [reflexivity|].
    exists (findSpawnerPositionAt cfg (initialSpawnersPlaced cfg st) fx fz).
    split; [|split; [reflexivity|]].
    - cbn [targets set_currentTarget set_targets]. apply list_lookup_middle. reflexivity.
    - intros Hfresh Hwr Hrd.
      exact (findSpawnerPositionAt_first cfg st fx fz rest Hpts Hb Hfresh Hwr Hrd). }
  intros Hfirst. rewrite (createInitialSpawners_first_outside cfg now st Hfirst).
  unfold initialSpawnersPlaced. cbn [currentTarget targets set_hasInitialSpawners].
  destruct (fold_placeInitialSpawner_frame cfg (initialSpawnPoints cfg)
              (say LogCreatingInitialSpawners st)) as (-> & -> & _).
  done.
Qed.

Lemma initial_spawner_placement_witness :
  initialSpawnPoints hillZone = [(0, 0)] ∧
  isWithinBounds hillZone 0 0 = true ∧
  currentTarget (createInitialSpawners hillZone 0 (freshZone clayStrip)) = Some 0%nat ∧
  (0, 2, 0) ∈ spawnerPositions (createInitialSpawners hillZone 0 (freshZone clayStrip)).
Proof.
  assert (Hpts : initialSpawnPoints hillZone = [] ++ (0, 0) :: []) by reflexivity.
  assert (Hb : isWithinBounds hillZone 0 0 = true) by reflexivity.
  split; [reflexivity|]. split; [exact Hb|].
  pose proof (initial_spawner_placement hillZone 0 (freshZone clayStrip))
    as (_ & _ & Hkey & Hbind & _).
  split.
  - exact (proj1 (Hbind 0 0 [] Hpts Hb)).
  - exact (proj1 (Hkey [] 0 0 [] Hpts Hb)).
Defined.

(** ** Selections *)

Lemma fold_right_say (out : list LogEntry) (st : Terraforming) :
  fold_right say st out =
  mkState (world st) (targets st) (currentTarget st) (completedTargets st)
          (spawnerPositions st) (hasInitialSpawners st) (out ++ console st).
Proof.
  induction out as [|e out IH]; cbn [fold_right app].
  - now destruct st.
  - now rewrite IH.
Qed.

Lemma setBlock_world (x y z b : Z) (st st' : Terraforming) :
  world st' = world st → world (setBlock x y z b st') = world (setBlock x y z b st).
Proof.
  intros Hw. unfold setBlock. rewrite Hw.
  destruct (lattice_setBlock (world st) (x, y, z) b); [reflexivity|exact Hw].
Qed.

Lemma selectNewTarget_site (cfg : TerraformingOptions) (now : Z) (rnd : nat -> Draw)
      (st : Terraforming) (out : list LogEntry) (vx vz : Z) :
  hasInitialSpawners st = true →
  findValidSpawnerPosition cfg rnd st = (out, Some (vx, vz)) →
  let y := Z.max (getCurrentHeight cfg (world st) vx vz + 2) 2 in
  let st' := selectNewTarget cfg now rnd st in
  targets st' = targets st ++ [mkTarget vx (targetHeight cfg) vz now (Some (vx, y, vz)) true] ∧
  currentTarget st' = Some (length (targets st)) ∧
  completedTargets st' = completedTargets st ∧
  spawnerPositions st' = set_add (vx, y, vz) (spawnerPositions st) ∧
  world st' = world (setBlock vx y vz (spawnerBlockId cfg) st) ∧
  hasInitialSpawners st' = true.
Proof.
  intros Hinit Hfound y st'. subst st'. unfold selectNewTarget.
  rewrite Hinit, Hfound. cbn [negb]. rewrite fold_right_say.
  unfold alloc. cbn [targets].
  set (t0 := mkTarget vx (targetHeight cfg) vz now None true).
  set (st2 := set_currentTarget _ _).
  assert (Hworld : world st2 = world st) by reflexivity.
  unfold createSpawnerBlock.
  change (currentTarget st2) with (Some (length (targets st))). cbv beta iota.
  change (targets st2) with (targets st ++ [t0]).
  rewrite list_lookup_middle by reflexivity. cbv beta iota.
  cbn [target_x target_y target_z startTime t0]. rewrite Hworld. fold y.
  destruct (setBlock_frame vx y vz (spawnerBlockId cfg) st2) as (Ht & Hc & Hh & Hs & Hi).
  cbn [targets currentTarget completedTargets spawnerPositions world hasInitialSpawners
       set_targets set_spawnerPositions say].
  rewrite Ht, Hc, Hh, Hs, Hi.
  change (targets st2) with (targets st ++ [t0]).
  rewrite insert_app_r_alt, Nat.sub_diag by reflexivity.
  split; [reflexivity|]. split; [reflexivity|]. split; [reflexivity|].
  split; [reflexivity|]. split; [|exact Hinit].
  now apply setBlock_world.
Qed.

Lemma initialSpawnersPlaced_frame (cfg : TerraformingOptions) (st : Terraforming) :
  targets (initialSpawnersPlaced cfg st) = targets st ∧
  currentTarget (initialSpawnersPlaced cfg st) = currentTarget st ∧
  completedTargets (initialSpawnersPlaced cfg st) = completedTargets st ∧
  onlyWrites (spawnerBlockId cfg) (world st) (world (initialSpawnersPlaced cfg st)) ∧
  (∃ more, spawnerPositions (initialSpawnersPlaced cfg st) = spawnerPositions st ++ more).
Proof.
  unfold initialSpawnersPlaced.
  cbn [targets currentTarget completedTargets world spawnerPositions set_hasInitialSpawners].
  exact (fold_placeInitialSpawner_frame cfg (initialSpawnPoints cfg)
           (say LogCreatingInitialSpawners st)).
Qed.

(** A selection appends to the store and to the registry, leaves the
    history alone and writes nothing but spawner blocks. *)
Lemma selectNewTarget_frame (cfg : TerraformingOptions) (now : Z) (rnd : nat -> Draw)
      (st : Terraforming) :
  let st' := selectNewTarget cfg now rnd st in
  (∃ new, targets st' = targets st ++ new) ∧
  completedTargets st' = completedTargets st ∧
  (∃ more, spawnerPositions st' = spawnerPositions st ++ more) ∧
  onlyWrites (spawnerBlockId cfg) (world st) (world st').
Proof.
  cbv zeta. destruct (hasInitialSpawners st) eqn:Hinit.
  - destruct (findValidSpawnerPosition cfg rnd st) as [out [[vx vz]|]] eqn:Hfound.
    + destruct (selectNewTarget_site cfg now rnd st out vx vz Hinit Hfound)
        as (-> & _ & -> & -> & -> & _).
      split; [eexists; reflexivity|]. split; [reflexivity|].
      split; [apply set_add_extends|apply setBlock_onlyWrites].
    + destruct (selectNewTarget_no_site cfg now rnd st Hinit) as (-> & -> & _ & -> & -> & _).
      { now rewrite Hfound. }
      split; [exists []; now rewrite app_nil_r|]. split; [reflexivity|].
      split; [exists []; now rewrite app_nil_r|apply onlyWrites_refl].
  - unfold selectNewTarget. rewrite Hinit. cbn [negb].
    destruct (initialSpawnersPlaced_frame cfg st) as (Ht & _ & Hh & Hw & Hs).
    destruct (createInitialSpawners_registry cfg now st) as (-> & -> & _).
    split; [|split; [|split; [exact Hs|exact Hw]]].
    + destruct (initialSpawnPoints cfg) as [|[fx fz] rest] eqn:Hpts.
      * rewrite createInitialSpawners_first_outside by (rewrite Hpts; exact I).
        exists []. now rewrite app_nil_r.
      * destruct (isWithinBounds cfg fx fz) eqn:Hb.
        -- rewrite (createInitialSpawners_first_inside cfg now st fx fz rest Hpts Hb).
           eexists. reflexivity.
        -- rewrite createInitialSpawners_first_outside by (rewrite Hpts; exact Hb).
           exists []. now rewrite app_nil_r.
    + destruct (initialSpawnPoints cfg) as [|[fx fz] rest] eqn:Hpts.
      * rewrite createInitialSpawners_first_outside by (rewrite Hpts; exact I). exact Hh.
      * destruct (isWithinBounds cfg fx fz) eqn:Hb.
        -- rewrite (createInitialSpawners_first_inside cfg now st fx fz rest Hpts Hb). exact Hh.
        -- rewrite createInitialSpawners_first_outside by (rewrite Hpts; exact Hb). exact Hh.
Qed.

(** ** Losing a spawner (C6) *)

Lemma elem_of_getActiveSpawnerPositions (cfg : TerraformingOptions) (st : Terraforming) (k : Pos) :
  (k ∈ getActiveSpawnerPositions cfg st) ↔
  (k ∈ spawnerPositions st ∧ isSpawnerBlockPresent cfg (world st) k = true).
Proof.
  unfold getActiveSpawnerPositions, getSpawnerPositions.
  rewrite !list_elem_of_In, filter_In. tauto.
Qed.

(** C6. When the current target is active and the grid no longer holds
    the spawner block it is bound to, the step marks the target inactive
    and clears its binding, runs destruction handling, which deletes the
    key of that spawner from the registry, and then runs a selection in the
    same tick.  At the end of the tick the target is still inactive and
    unbound, every other target object is as it was, the history is as it
    was, every other key that was registered is still registered, and every
    spawner that was live is still live. *)
Theorem spawner_loss_isolated (cfg : TerraformingOptions) (now : Z) (rnd1 rnd2 : nat -> Draw)
        (st : Terraforming) (r : nat) (t : TerraformingTarget) (p : Pos) :
  currentTarget st = Some r →
  targets st !! r = Some t →
  isActive t = true →
  spawnerPosition t = Some p →
  isSpawnerBlockPresent cfg (world st) p = false →
  let lost := afterLoss r t p st in
  let handled := forget p (selectNewTarget cfg now rnd1 lost) in
  let st' := terraformStep cfg now rnd1 rnd2 st in
  targets lost !! r = Some (unbound t) ∧
  isActive (unbound t) = false ∧ spawnerPosition (unbound t) = None ∧
  (p ∉ spawnerPositions handled) ∧
  st' = selectNewTarget cfg now rnd2 handled ∧
  targets st' !! r = Some (unbound t) ∧
  (∀ i, i ≠ r → (i < length (targets st))%nat → targets st' !! i = targets st !! i) ∧
  completedTargets st' = completedTargets st ∧
  (∀ k, k ≠ p → k ∈ spawnerPositions st → k ∈ spawnerPositions st') ∧
  (∀ k, k ∈ getActiveSpawnerPositions cfg st → k ∈ getActiveSpawnerPositions cfg st').
Proof.
  intros Hcur Ht Hact Hp Hgone lost handled st'.
  assert (Hlen : (r < length (targets st))%nat) by (eapply lookup_lt_Some; exact Ht).
  assert (Hstep : st' = selectNewTarget cfg now rnd2 handled)
    by exact (terraformStep_destroyed cfg now rnd1 rnd2 st r t p Hcur Ht Hact Hp Hgone).
  assert (Hlost : targets lost = <[r := unbound t]> (targets st)) by reflexivity.
  destruct (selectNewTarget_frame cfg now rnd1 lost) as ([new1 Ht1] & Hh1 & [more1 Hs1] & Hw1).
  destruct (selectNewTarget_frame cfg now rnd2 handled) as ([new2 Ht2] & Hh2 & [more2 Hs2] & Hw2).
  rewrite <- Hstep in Ht2, Hh2, Hs2, Hw2.
  assert (Htargets : targets st' = (<[r := unbound t]> (targets st) ++ new1) ++ new2).
  { rewrite Ht2. unfold handled. cbn [targets forget set_spawnerPositions].
    now rewrite Ht1, Hlost. }
  assert (Hkeys : ∀ k, k ≠ p → k ∈ spawnerPositions st → k ∈ spawnerPositions st').
  { intros k Hne Hk. rewrite Hs2. apply elem_of_app. left.
    unfold handled. cbn [spawnerPositions forget set_spawnerPositions].
    apply elem_of_set_delete. split; [|exact Hne].
    rewrite Hs1. apply elem_of_app. now left. }
  split; [rewrite Hlost; now apply list_lookup_insert_eq|].
  split; [reflexivity|]. split; [reflexivity|].
  split.
  { unfold handled. cbn [spawnerPositions forget set_spawnerPositions].
    rewrite elem_of_set_delete. tauto. }
  split; [exact Hstep|].
  split.
  { rewrite Htargets, <- app_assoc, lookup_app_l by (rewrite length_insert; exact Hlen).
    now apply list_lookup_insert_eq. }
  split.
  { intros i Hne Hi.
    rewrite Htargets, <- app_assoc, lookup_app_l by (rewrite length_insert; exact Hi).
    apply list_lookup_insert_ne. congruence. }
  split.
  { rewrite Hh2. unfold handled. cbn [completedTargets forget set_spawnerPositions].
    rewrite Hh1. reflexivity. }
  split; [exact Hkeys|].
  intros k Hk. apply elem_of_getActiveSpawnerPositions in Hk as [Hk Hlive].
  apply elem_of_getActiveSpawnerPositions. split.
  - apply Hkeys; [|exact Hk]. intros ->. congruence.
  - apply (onlyWrites_present cfg _ _ _ Hw2).
    unfold handled. cbn [world forget set_spawnerPositions].
    apply (onlyWrites_present cfg _ _ _ Hw1). exact Hlive.
Qed.


Lemma spawner_loss_isolated_witness :
  currentTarget hillBroken = Some 1%nat ∧
  targets hillBroken !! 1%nat = Some hillSecond ∧
  isActive hillSecond = true ∧
  spawnerPosition hillSecond = Some (6, 2, 0) ∧
  isSpawnerBlockPresent hillZone (world hillBroken) (6, 2, 0) = false ∧
  targets (terraformStep hillZone 5000 southward eastward hillBroken) !! 1%nat
    = Some (unbound hillSecond) ∧
  completedTargets (terraformStep hillZone 5000 southward eastward hillBroken)
    = completedTargets hillBroken.
Proof.
  assert (Hgone : isSpawnerBlockPresent hillZone (world hillBroken) (6, 2, 0) = false)
    by (vm_compute; reflexivity).
  split; [reflexivity|]. split; [reflexivity|]. split; [reflexivity|].
  split; [reflexivity|]. split; [exact Hgone|].
  pose proof (spawner_loss_isolated hillZone 5000 southward eastward hillBroken 1 hillSecond
                (6, 2, 0) eq_refl eq_refl eq_refl eq_refl Hgone)
    as (_ & _ & _ & _ & _ & Hstill & _ & Hhist & _).
  split; [exact Hstill|exact Hhist].
Defined.

(** ** Two selections in one tick (C10) *)

(** C10: the defect.  [onSpawnerDestroyed] deletes the key of the lost
    spawner after its selection has run, not before.  When that selection
    lands on the column of the lost spawner, it writes a new spawner block
    at the coordinate of the lost one and registers the key again, and the
    deletion then removes the key of the block just placed.  In the broken
    hill zone both searches propose the column [(6, 0)]: the first
    selection writes a spawner at [(6, 2, 0)], destruction handling
    deletes its key, and the second selection stacks its spawner at
    [(6, 4, 0)].  At the end of the tick the first new spawner is in the
    grid and its key is not in the registry. *)
Lemma respawn_on_lost_site_counterexample :
  currentTarget hillBroken = Some 1%nat ∧
  targets hillBroken !! 1%nat = Some hillSecond ∧
  isSpawnerBlockPresent hillZone (world hillBroken) (6, 2, 0) = false ∧
  findValidSpawnerPosition hillZone eastward (afterLoss 1 hillSecond (6, 2, 0) hillBroken)
    = ([], Some (6, 0)) ∧
  getBlockId (world (selectNewTarget hillZone 5000 eastward
                       (afterLoss 1 hillSecond (6, 2, 0) hillBroken))) (6, 2, 0)
    = Returns (IdNum 19) ∧
  spawnerPositions (selectNewTarget hillZone 5000 eastward
                      (afterLoss 1 hillSecond (6, 2, 0) hillBroken))
    = [(0, 2, 0); (6, 2, 0)] ∧
  findValidSpawnerPosition hillZone eastward
    (forget (6, 2, 0) (selectNewTarget hillZone 5000 eastward
                         (afterLoss 1 hillSecond (6, 2, 0) hillBroken)))
    = ([], Some (6, 0)) ∧
  spawnerPositions (terraformStep hillZone 5000 eastward eastward hillBroken)
    = [(0, 2, 0); (6, 4, 0)] ∧
  getBlockId (world (terraformStep hillZone 5000 eastward eastward hillBroken)) (6, 2, 0)
    = Returns (IdNum 19) ∧
  ((6, 2, 0) ∉ spawnerPositions (terraformStep hillZone 5000 eastward eastward hillBroken)).
Proof.
  assert (Hreg : spawnerPositions (terraformStep hillZone 5000 eastward eastward hillBroken)
                 = [(0, 2, 0); (6, 4, 0)]) by (vm_compute; reflexivity).
  repeat split; try (vm_compute; reflexivity).
  rewrite Hreg. intros Hin.
  apply elem_of_cons in Hin as [Heq|Hin]; [discriminate|].
  apply elem_of_cons in Hin as [Heq|Hin]; [discriminate|].
  inversion Hin.
Qed.

(** C10: what the tick does.  When the current target is active, its
    spawner block is gone and both searches of the tick find a site, the
    tick is the selection of destruction handling, the deletion of the
    lost key and the selection of [terraformStep], in this order; it
    creates two target
    objects and writes two spawner blocks; the current target is the
    second object, bound to the second spawner; the first object is
    neither the current target nor in the history; the key of the second
    spawner is registered, and so is the key of the first one unless it is
    the key of the lost spawner, which the deletion removes. *)
Theorem double_selection (cfg : TerraformingOptions) (now : Z) (rnd1 rnd2 : nat -> Draw)
        (st : Terraforming) (r : nat) (t : TerraformingTarget) (p : Pos)
        (out1 out2 : list LogEntry) (x1 z1 x2 z2 : Z) :
  currentTarget st = Some r →
  targets st !! r = Some t →
  isActive t = true →
  spawnerPosition t = Some p →
  isSpawnerBlockPresent cfg (world st) p = false →
  hasInitialSpawners st = true →
  (∀ c, c ∈ completedTargets st → (c < length (targets st))%nat) →
  let lost := afterLoss r t p st in
  let first := selectNewTarget cfg now rnd1 lost in
  let handled := forget p first in
  let st' := terraformStep cfg now rnd1 rnd2 st in
  findValidSpawnerPosition cfg rnd1 lost = (out1, Some (x1, z1)) →
  findValidSpawnerPosition cfg rnd2 handled = (out2, Some (x2, z2)) →
  let y1 := Z.max (getCurrentHeight cfg (world st) x1 z1 + 2) 2 in
  let y2 := Z.max (getCurrentHeight cfg (world first) x2 z2 + 2) 2 in
  let n := length (targets st) in
  st' = selectNewTarget cfg now rnd2 handled ∧
  targets st' =
    <[r := unbound t]> (targets st) ++
    [mkTarget x1 (targetHeight cfg) z1 now (Some (x1, y1, z1)) true;
     mkTarget x2 (targetHeight cfg) z2 now (Some (x2, y2, z2)) true] ∧
  currentTarget st' = Some (S n) ∧
  completedTargets st' = completedTargets st ∧
  (n ∉ completedTargets st') ∧
  world first = world (setBlock x1 y1 z1 (spawnerBlockId cfg) st) ∧
  world st' = world (setBlock x2 y2 z2 (spawnerBlockId cfg) first) ∧
  (x2, y2, z2) ∈ spawnerPositions st' ∧
  ((x1, y1, z1) ≠ p → (x1, y1, z1) ∈ spawnerPositions st').
Proof.
  intros Hcur Ht Hact Hp Hgone Hinit Hwf lost first handled st' Hfound1 Hfound2 y1 y2 n.
  assert (Hstep : st' = selectNewTarget cfg now rnd2 handled)
    by exact (terraformStep_destroyed cfg now rnd1 rnd2 st r t p Hcur Ht Hact Hp Hgone).
  destruct (selectNewTarget_site cfg now rnd1 lost out1 x1 z1 Hinit Hfound1)
    as (Ht1 & Hc1 & Hh1 & Hs1 & Hw1 & Hi1).
  fold first in Ht1, Hc1, Hh1, Hs1, Hw1, Hi1.
  change (world lost) with (world st) in Ht1, Hs1, Hw1. fold y1 in Ht1, Hs1, Hw1.
  change (targets lost) with (<[r := unbound t]> (targets st)) in Ht1, Hc1.
  rewrite length_insert in Hc1. fold n in Hc1.
  destruct (selectNewTarget_site cfg now rnd2 handled out2 x2 z2 Hi1 Hfound2)
    as (Ht2 & Hc2 & Hh2 & Hs2 & Hw2 & _).
  rewrite <- Hstep in Ht2, Hc2, Hh2, Hs2, Hw2.
  change (world handled) with (world first) in Ht2, Hs2, Hw2. fold y2 in Ht2, Hs2, Hw2.
  change (targets handled) with (targets first) in Ht2, Hc2.
  change (completedTargets handled) with (completedTargets first) in Hh2.
  change (spawnerPositions handled) with (set_delete p (spawnerPositions first)) in Hs2.
  assert (Hhist : completedTargets st' = completedTargets st) by (rewrite Hh2, Hh1; reflexivity).
  split; [exact Hstep|].
  split; [rewrite Ht2, Ht1, <- app_assoc; reflexivity|].
  split.
  { rewrite Hc2, Ht1, length_app, length_insert. cbn [length]. f_equal. unfold n. lia. }
  split; [exact Hhist|].
  split.
  { rewrite Hhist. intros Hin. specialize (Hwf n Hin). unfold n in Hwf. lia. }
  split; [rewrite Hw1; now apply setBlock_world|].
  split; [rewrite Hw2; now apply setBlock_world|].
  split; [rewrite Hs2; apply set_add_elem|].
  intros Hne. rewrite Hs2. apply set_add_keeps, elem_of_set_delete.
  split; [|exact Hne]. rewrite Hs1. apply set_add_elem.
Qed.

Lemma double_selection_witness :
  currentTarget hillBroken = Some 1%nat ∧
  targets hillBroken !! 1%nat = Some hillSecond ∧
  isSpawnerBlockPresent hillZone (world hillBroken) (6, 2, 0) = false ∧
  findValidSpawnerPosition hillZone southward (afterLoss 1 hillSecond (6, 2, 0) hillBroken)
    = ([], Some (0, 6)) ∧
  findValidSpawnerPosition hillZone eastward
    (forget (6, 2, 0) (selectNewTarget hillZone 5000 southward
                         (afterLoss 1 hillSecond (6, 2, 0) hillBroken)))
    = ([], Some (6, 0)) ∧
  currentTarget (terraformStep hillZone 5000 southward eastward hillBroken) = Some 3%nat ∧
  (2%nat ∉ completedTargets (terraformStep hillZone 5000 southward eastward hillBroken)).
Proof.
  assert (Hgone : isSpawnerBlockPresent hillZone (world hillBroken) (6, 2, 0) = false)
    by (vm_compute; reflexivity).
  assert (Hwf : ∀ c, c ∈ completedTargets hillBroken → (c < length (targets hillBroken))%nat).
  { intros c Hc. apply elem_of_cons in Hc as [->|Hc]; [vm_compute; lia|inversion Hc]. }
  assert (Hfound1 : findValidSpawnerPosition hillZone southward
                      (afterLoss 1 hillSecond (6, 2, 0) hillBroken) = ([], Some (0, 6)))
    by (vm_compute; reflexivity).
  assert (Hfound2 : findValidSpawnerPosition hillZone eastward
                      (forget (6, 2, 0) (selectNewTarget hillZone 5000 southward
                                           (afterLoss 1 hillSecond (6, 2, 0) hillBroken)))
                    = ([], Some (6, 0)))
    by (vm_compute; reflexivity).
  split; [reflexivity|]. split; [reflexivity|]. split; [exact Hgone|].
  split; [exact Hfound1|]. split; [exact Hfound2|].
  pose proof (double_selection hillZone 5000 southward eastward hillBroken 1 hillSecond
                (6, 2, 0) [] [] 0 6 6 0 eq_refl eq_refl eq_refl eq_refl Hgone eq_refl Hwf
                Hfound1 Hfound2)
    as (_ & _ & Hcur & _ & Hfree & _).
  split; [exact Hcur|exact Hfree].
Defined.

(** ** Grid failures (C9) *)

Lemma refusedWritesKept_refl w : refusedWritesKept w w.
Proof. done. Qed.

Lemma refusedWritesKept_trans w1 w2 w3 :
  refusedWritesKept w1 w2 → refusedWritesKept w2 w3 → refusedWritesKept w1 w3.
Proof.
  intros (Hr & Hw & Hc) (Hr' & Hw' & Hc'). split; [congruence|]. split; [congruence|].
  intros p Hp. rewrite Hc' by (rewrite Hw; exact Hp). now apply Hc.
Qed.

Lemma setBlock_refusedWritesKept x y z b st :
  refusedWritesKept (world st) (world (setBlock x y z b st)).
Proof.
  destruct (setBlock_world_cases x y z b st) as [[_ ->]|[Hw ->]]; [done|].
  split; [done|]. split; [done|]. intros p Hp. cbn.
  apply lookup_insert_ne. intros <-. congruence.
Qed.

Lemma fold_terraformColumn_refusedWritesKept cfg t maxRadius wave columns acc :
  refusedWritesKept (world (zone acc))
    (world (zone (fold_left (terraformColumn cfg t maxRadius wave) columns acc))).
Proof.
  revert acc. induction columns as [|[x z] columns IH]; intros acc; [done|].
  cbn [fold_left]. eapply refusedWritesKept_trans; [|apply IH].
  destruct (terraformColumn_cases cfg t maxRadius wave acc x z)
    as [[_ ->]|[(_ & _ & ->)|[(_ & _ & _ & ->)|(_ & _ & _ & _ & ->)]]]; try done.
  apply setBlock_refusedWritesKept.
Qed.

Lemma fold_placeInitialSpawner_refusedWritesKept cfg points st :
  refusedWritesKept (world st) (world (fold_left (placeInitialSpawner cfg) points st)).
Proof.
  revert st. induction points as [|[x z] points IH]; intros st; [done|].
  cbn [fold_left]. eapply refusedWritesKept_trans; [|apply IH].
  destruct (isWithinBounds cfg x z) eqn:Hb.
  - rewrite (placeInitialSpawner_inside cfg st x z Hb). apply setBlock_refusedWritesKept.
  - rewrite (placeInitialSpawner_outside cfg st x z Hb). done.
Qed.

Lemma selectNewTarget_refusedWritesKept cfg now rnd st :
  refusedWritesKept (world st) (world (selectNewTarget cfg now rnd st)).
Proof.
  destruct (hasInitialSpawners st) eqn:Hinit.
  - destruct (findValidSpawnerPosition cfg rnd st) as [out [[vx vz]|]] eqn:Hfound.
    + destruct (selectNewTarget_site cfg now rnd st out vx vz Hinit Hfound)
        as (_ & _ & _ & _ & -> & _).
      apply setBlock_refusedWritesKept.
    + destruct (selectNewTarget_no_site cfg now rnd st Hinit) as (-> & _).
      { now rewrite Hfound. }
      done.
  - unfold selectNewTarget. rewrite Hinit. cbn [negb].
    destruct (createInitialSpawners_registry cfg now st) as (_ & -> & _).
    unfold initialSpawnersPlaced. cbn [world set_hasInitialSpawners].
    exact (fold_placeInitialSpawner_refusedWritesKept cfg (initialSpawnPoints cfg)
             (say LogCreatingInitialSpawners st)).
Qed.

(** Whatever the grid does, a tick ends, throws where the grid threw
    before, and leaves every cell that refuses writes as it was. *)
Lemma terraformStep_refusedWritesKept cfg now rnd1 rnd2 st :
  refusedWritesKept (world st) (world (terraformStep cfg now rnd1 rnd2 st)).
Proof.
  destruct (currentTarget st) as [r|] eqn:Hcur.
  2:{ unfold terraformStep. rewrite Hcur. apply selectNewTarget_refusedWritesKept. }
  destruct (targets st !! r) as [t|] eqn:Ht.
  2:{ unfold terraformStep. rewrite Hcur, Ht. done. }
  destruct (isActive t) eqn:Hact.
  2:{ unfold terraformStep. rewrite Hcur, Ht, Hact. cbn [negb].
      exact (selectNewTarget_refusedWritesKept cfg now rnd1 (say LogTargetInactive st)). }
  assert (Hgrow : refusedWritesKept (world st)
                    (world (finishStep cfg now rnd1 r t (sweep cfg now t st)))).
  { unfold finishStep.
    pose proof (fold_terraformColumn_refusedWritesKept cfg t (terraformSize cfg / 2)
                  (currentWaveRadius cfg now t)
                  (windowColumns (target_x t) (target_z t) (terraformSize cfg / 2))
                  (mkSweep st 0 true)) as Hsweep.
    change (fold_left _ _ _) with (sweep cfg now t st) in Hsweep. cbn [zone] in Hsweep.
    destruct (targetComplete (sweep cfg now t st)); [|exact Hsweep].
    eapply refusedWritesKept_trans; [exact Hsweep|].
    apply (selectNewTarget_refusedWritesKept cfg now rnd1
             (set_completedTargets _ (say LogHillCompleted (say _ (zone (sweep cfg now t st)))))). }
  destruct (spawnerPosition t) as [p|] eqn:Hp.
  - destruct (isSpawnerBlockPresent cfg (world st) p) eqn:Hlive.
    + rewrite (terraformStep_grow cfg now rnd1 rnd2 st r t Hcur Ht Hact); [exact Hgrow|].
      intros q Hq. congruence.
    + rewrite (terraformStep_destroyed cfg now rnd1 rnd2 st r t p Hcur Ht Hact Hp Hlive).
      eapply refusedWritesKept_trans;
        [|apply (selectNewTarget_refusedWritesKept cfg now rnd2
                   (forget p (selectNewTarget cfg now rnd1 (afterLoss r t p st))))].
      exact (selectNewTarget_refusedWritesKept cfg now rnd1 (afterLoss r t p st)).
  - rewrite (terraformStep_grow cfg now rnd1 rnd2 st r t Hcur Ht Hact); [exact Hgrow|].
    intros q Hq. congruence.
Qed.

(** C9. The grid is reached through [hasBlockAt], [isSpawnerBlockPresent]
    and [setBlock] only, and none of them has a failing outcome: a read
    that throws makes [hasBlockAt] answer "no block" and
    [isSpawnerBlockPresent] answer "not live"; a marker is live exactly
    when the grid returns the configured spawner block id at its
    coordinate; a write that throws leaves the grid as it is and writes an
    error to the console, and the loops of the step go on with the columns
    that remain.  Whatever the grid does, a tick returns a state: the grid
    throws where it threw before and every cell that refuses writes holds
    what it held. *)
Theorem grid_failures_are_caught (cfg : TerraformingOptions) :
  (∀ w x y z, getBlockId w (x, y, z) = Throws → hasBlockAt w x y z = false) ∧
  (∀ w p, getBlockId w p = Throws → isSpawnerBlockPresent cfg w p = false) ∧
  (∀ w p, isSpawnerBlockPresent cfg w p = true ↔
          getBlockId w p = Returns (IdNum (spawnerBlockId cfg))) ∧
  (∀ st x y z b,
     lattice_setBlock (world st) (x, y, z) b = Throws →
     setBlock x y z b st = say (ErrorSetBlock x y z) st ∧
     world (setBlock x y z b st) = world st) ∧
  (∀ t maxRadius wave acc x z rest,
     let currentHeight := getCurrentHeight cfg (world (zone acc)) x z in
     isWithinBounds cfg x z = true →
     sqrt_gt (columnDistance2 t x z) wave = false →
     1 <= targetHeightForPosition (target_y t) (columnDistance2 t x z) maxRadius →
     currentHeight < targetHeightForPosition (target_y t) (columnDistance2 t x z) maxRadius →
     lattice_setBlock (world (zone acc)) (x, currentHeight + 1, z) (blockTypeId cfg) = Throws →
     fold_left (terraformColumn cfg t maxRadius wave) ((x, z) :: rest) acc =
     fold_left (terraformColumn cfg t maxRadius wave) rest
               (mkSweep (say (ErrorSetBlock x (currentHeight + 1) z) (zone acc))
                        (blocksModified acc + 1) false)) ∧
  (∀ now rnd1 rnd2 st,
     refusedWritesKept (world st) (world (terraformStep cfg now rnd1 rnd2 st))).
Proof.
  split; [exact hasBlockAt_throws|].
  split; [exact (isSpawnerBlockPresent_throws cfg)|].
  split; [exact (isSpawnerBlockPresent_iff cfg)|].
  split; [|split; [|intros now rnd1 rnd2 st; apply terraformStep_refusedWritesKept]].
  - intros st x y z b Hthrow. rewrite (setBlock_throws _ _ _ _ _ Hthrow). done.
  - intros t maxRadius wave acc x z rest currentHeight Hb Hw H1 Hlt Hthrow.
    cbn [fold_left]. f_equal.
    destruct (terraformColumn_cases cfg t maxRadius wave acc x z)
      as [[Hb' _]|[(_ & Hw' & _)|[(_ & _ & Hsat & _)|(_ & _ & _ & _ & ->)]]].
    + congruence.
    + congruence.
    + fold currentHeight in Hsat. lia.
    + fold currentHeight. now rewrite (setBlock_throws _ _ _ _ _ Hthrow).
Qed.

Lemma grid_failures_are_caught_witness :
  hasBlockAt opaqueWorld 0 0 0 = false ∧
  isSpawnerBlockPresent demoZone opaqueWorld (0, 2, 0) = false ∧
  fold_left (terraformColumn demoZone demoTarget 4 1%Q) [(0, 0); (1, 0)]
            (mkSweep (freshZone readOnlyWorld) 0 true) =
  fold_left (terraformColumn demoZone demoTarget 4 1%Q) [(1, 0)]
            (mkSweep (say (ErrorSetBlock 0 0 0) (freshZone readOnlyWorld)) 1 false).
Proof.
  split; [|split].
  - apply (proj1 (grid_failures_are_caught demoZone)). reflexivity.
  - apply (proj1 (proj2 (grid_failures_are_caught demoZone))). reflexivity.
  - apply (proj1 (proj2 (proj2 (proj2 (proj2 (grid_failures_are_caught demoZone)))))
             demoTarget 4 1%Q (mkSweep (freshZone readOnlyWorld) 0 true) 0 0 [(1, 0)]);
      by_computation.
Defined.

(** * The rest of the class, the earlier variant and block breaking *)

(** ** The keys of the registry *)

Lemma horner_pos (d : Decimal.uint) (acc : positive) :
  Key.horner d (Z.pos acc) = Z.pos (Pos.of_uint_acc d acc).
Proof.
  revert acc. induction d; intros acc; cbn [Key.horner Pos.of_uint_acc]; try reflexivity;
    rewrite <- IHd; f_equal; lia.
Qed.

Lemma horner_zero (d : Decimal.uint) : Key.horner d 0 = Z.of_N (Pos.of_uint d).
Proof.
  induction d; cbn [Key.horner Pos.of_uint]; try reflexivity; try exact IHd;
    exact (horner_pos d _).
Qed.

Lemma horner_to_uint (p : positive) : Key.horner (Pos.to_uint p) 0 = Z.pos p.
Proof. rewrite horner_zero, DecimalPos.Unsigned.of_to. reflexivity. Qed.

Lemma parseDigits_uint (d : Decimal.uint) (acc : Z) :
  Key.parseDigits (DecimalString.NilEmpty.string_of_uint d) (Some acc) = Some (Key.horner d acc).
Proof.
  revert acc. induction d; intros acc; cbn [DecimalString.NilEmpty.string_of_uint Key.parseDigits Key.horner];
    try reflexivity; exact (IHd _).
Qed.


Lemma parseDigits_to_uint (p : positive) :
  Key.parseDigits (DecimalString.NilEmpty.string_of_uint (Pos.to_uint p)) None = Some (Z.pos p).
Proof.
  pose proof (DecimalPos.Unsigned.to_uint_nonnil p) as Hnn.
  pose proof (horner_to_uint p) as Hh.
  destruct (Pos.to_uint p) as [|d|d|d|d|d|d|d|d|d|d]; [contradiction|..];
    cbn [DecimalString.NilEmpty.string_of_uint Key.parseDigits Key.horner] in *;
    rewrite <- Hh; exact (parseDigits_uint d _).
Qed.


Lemma string_of_uint_free (d : Decimal.uint) :
  Key.free_of ","%char (DecimalString.NilEmpty.string_of_uint d).
Proof. induction d; cbn; auto. Qed.

Lemma numberToString_free (n : Z) : Key.free_of ","%char (Key.numberToString n).
Proof.
  unfold Key.numberToString. destruct n; cbn; auto using string_of_uint_free.
Qed.

Lemma trimStart_uint (d : Decimal.uint) :
  Key.trimStart (DecimalString.NilEmpty.string_of_uint d) = DecimalString.NilEmpty.string_of_uint d.
Proof. destruct d; reflexivity. Qed.

Lemma parseInt_numberToString (n : Z) : Key.parseInt (Key.numberToString n) = Some n.
Proof.
  unfold Key.numberToString, Key.parseInt. destruct n as [|p|p]; [reflexivity|..];
    cbn [Z.to_int DecimalString.NilEmpty.string_of_int].
  - rewrite trimStart_uint.
    pose proof (parseDigits_to_uint p) as Hp.
    destruct (Pos.to_uint p); cbn [DecimalString.NilEmpty.string_of_uint] in *; exact Hp.
  - cbn [Key.trimStart Key.isWhiteSpace existsb]. cbn. rewrite parseDigits_to_uint. reflexivity.
Qed.

Lemma split_free (c : Ascii.ascii) (s : String.string) :
  Key.free_of c s → Key.split c s = [s].
Proof.
  induction s as [|c' s IH]; [reflexivity|]. intros [Hc Hs].
  cbn [Key.split]. rewrite Hc, (IH Hs). reflexivity.
Qed.

Lemma split_append (c : Ascii.ascii) (s rest : String.string) :
  Key.free_of c s → Key.split c (String.append s (String.String c rest)) = s :: Key.split c rest.
Proof.
  induction s as [|c' s IH]; intros Hs.
  - change (String.append "" (String.String c rest)) with (String.String c rest).
    cbn [Key.split]. rewrite Ascii.eqb_refl. reflexivity.
  - destruct Hs as [Hc Hs].
    change (String.append (String.String c' s) (String.String c rest))
      with (String.String c' (String.append s (String.String c rest))).
    cbn [Key.split]. rewrite Hc, (IH Hs). reflexivity.
Qed.

Lemma split_posKey (x y z : Z) :
  Key.split ","%char (Key.posKey (x, y, z)) = [Key.numberToString x; Key.numberToString y; Key.numberToString z].
Proof.
  unfold Key.posKey.
  rewrite split_append by apply numberToString_free.
  rewrite split_append by apply numberToString_free.
  rewrite split_free by apply numberToString_free. reflexivity.
Qed.

Lemma decode_posKey (x y z : Z) : Key.decode (Key.posKey (x, y, z)) = (Some x, Some y, Some z).
Proof.
  unfold Key.decode. rewrite split_posKey. cbn [lookup list_lookup mbind option_bind].
  now rewrite !parseInt_numberToString.
Qed.

Lemma posKey_inj (p q : Pos) : Key.posKey p = Key.posKey q → p = q.
Proof.
  destruct p as [[x y] z], q as [[x' y'] z']. intros Heq.
  pose proof (decode_posKey x y z) as Hp. rewrite Heq, decode_posKey in Hp.
  congruence.
Qed.

Lemma eqb_posKey (p q : Pos) : String.eqb (Key.posKey p) (Key.posKey q) = bool_decide (p = q).
Proof.
  destruct (decide (p = q)) as [->|Hne].
  - rewrite String.eqb_refl. symmetry. now apply bool_decide_eq_true.
  - rewrite bool_decide_eq_false_2 by exact Hne.
    apply String.eqb_neq. intros Heq. apply Hne, posKey_inj, Heq.
Qed.

Lemma has_posKey (p : Pos) (ps : list Pos) :
  Key.has (Key.posKey p) (map Key.posKey ps) = bool_decide (p ∈ ps).
Proof.
  unfold Key.has. induction ps as [|q ps IH]; [reflexivity|].
  cbn [map existsb]. rewrite IH, eqb_posKey.
  destruct (decide (p = q)) as [->|Hne].
  - rewrite bool_decide_eq_true_2 by reflexivity. symmetry. apply bool_decide_eq_true. now left.
  - rewrite (bool_decide_eq_false_2 (p = q)) by exact Hne. cbn [orb].
    apply bool_decide_ext. rewrite elem_of_cons. tauto.
Qed.

(** X1. Decoding a registry key gives back the coordinates it was printed
    from.  For a registry whose coordinates JavaScript prints in plain
    digits (below 10^21 in absolute value), splitting each key ["x,y,z"]
    at the commas and parsing the parts, as [getSpawnerPositions] does,
    yields the x, y and z of the position that [createSpawnerBlock]
    encoded, in the order of insertion and with no [NaN]; and every key
    splits into exactly three parts, so the guard [parts.length >= 3] of
    [clearAllSpawners] never skips one. *)
Theorem registry_key_round_trip (st : Terraforming) :
  (∀ x y z, (x, y, z) ∈ spawnerPositions st →
            Key.printable x ∧ Key.printable y ∧ Key.printable z) →
  map Key.decode (map Key.posKey (spawnerPositions st)) =
    map (fun p => (Some p.1.1, Some p.1.2, Some p.2)) (getSpawnerPositions st) ∧
  (∀ p, p ∈ spawnerPositions st → length (Key.split ","%char (Key.posKey p)) = 3%nat).
Proof.
  intros _. unfold getSpawnerPositions. split.
  - induction (spawnerPositions st) as [|[[x y] z] ps IH]; [reflexivity|].
    cbn [map]. now rewrite decode_posKey, IH.
  - intros [[x y] z] _. now rewrite split_posKey.
Qed.

Lemma registry_key_round_trip_witness :
  map Key.decode (map Key.posKey (spawnerPositions hillSpread)) =
    [(Some 0, Some 2, Some 0); (Some 6, Some 2, Some 0)].
Proof.
  refine (proj1 (registry_key_round_trip hillSpread _)).
  intros x y z Hin. unfold Key.printable.
  apply elem_of_cons in Hin as [Heq|Hin];
    [|apply elem_of_cons in Hin as [Heq|Hin]; [|inversion Hin]];
    inversion Heq; subst; repeat split; reflexivity.
Defined.

(** X2. The text keys of the registry name coordinates one to one.
    Distinct coordinates have distinct keys, so [has], [add] and [delete]
    with the key ["x,y,z"] act on the set of strings as membership,
    insertion and removal of the coordinate [(x, y, z)] act on the
    registry of positions, and [isSpawnerBlock x y z] answers whether that
    coordinate is registered. *)
Theorem registry_keys_as_positions (this : Lifecycle.Instance) (x y z : Z) :
  Key.printable x → Key.printable y → Key.printable z →
  (∀ x' y' z', (x', y', z') ∈ spawnerPositions (Lifecycle.fields this) →
               Key.printable x' ∧ Key.printable y' ∧ Key.printable z') →
  let registry := spawnerPositions (Lifecycle.fields this) in
  let keys := map Key.posKey registry in
  let posKey := Key.posKey (x, y, z) in
  Key.has posKey keys = Lifecycle.isSpawnerBlock this x y z ∧
  Key.add posKey keys = map Key.posKey (set_add (x, y, z) registry) ∧
  Key.delete posKey keys = map Key.posKey (set_delete (x, y, z) registry) ∧
  (∀ p q, Key.posKey p = Key.posKey q → p = q).
Proof.
  intros _ _ _ _ registry keys posKey. subst keys posKey.
  split; [apply has_posKey|]. split; [|split; [|exact posKey_inj]].
  - unfold Key.add, set_add. rewrite has_posKey.
    destruct (bool_decide ((x, y, z) ∈ registry)); [reflexivity|].
    now rewrite map_app.
  - unfold Key.delete, set_delete. induction registry as [|q ps IH]; [reflexivity|].
    cbn [map List.filter]. rewrite eqb_posKey, filter_cons, IH.
    destruct (decide (q ≠ (x, y, z))) as [Hne|Heq].
    + now rewrite bool_decide_eq_false_2 by exact Hne.
    + rewrite bool_decide_eq_true_2; [reflexivity|].
      destruct (decide (q = (x, y, z))); [done|contradiction].
Qed.

Lemma registry_keys_as_positions_witness :
  Key.has (Key.posKey (6, 2, 0)) (map Key.posKey [(0, 2, 0); (6, 2, 0)]) = true.
Proof.
  pose (this := Lifecycle.mkInstance hillZone hillSpread true (Some 0%nat) []).
  assert (Hsafe : ∀ x' y' z', (x', y', z') ∈ spawnerPositions (Lifecycle.fields this) →
                    Key.printable x' ∧ Key.printable y' ∧ Key.printable z').
  { intros x y z Hin. unfold Key.printable.
    apply elem_of_cons in Hin as [Heq|Hin];
      [|apply elem_of_cons in Hin as [Heq|Hin]; [|inversion Hin]];
      inversion Heq; subst; repeat split; reflexivity. }
  exact (proj1 (registry_keys_as_positions this 6 2 0 eq_refl eq_refl eq_refl Hsafe)).
Defined.

(** ** Start, stop and the timer *)

Lemma start_options now rnd sys :
  Lifecycle.options (fst (Lifecycle.start now rnd sys)) = Lifecycle.options (fst sys).
Proof. destruct sys as [this tm]. unfold Lifecycle.start. now destruct (Lifecycle.isActive this). Qed.

Lemma stop_options sys :
  Lifecycle.options (fst (Lifecycle.stop sys)) = Lifecycle.options (fst sys).
Proof.
  destruct sys as [this tm]. unfold Lifecycle.stop.
  destruct (Lifecycle.isActive this); [|reflexivity]. cbn.
  now destruct (Lifecycle.intervalId this).
Qed.

Lemma handle_options sys e :
  Lifecycle.options (fst (Lifecycle.handle sys e)) = Lifecycle.options (fst sys).
Proof.
  destruct e as [now rnd| |now rnd|id now rnd1 rnd2|]; cbn [Lifecycle.handle].
  - apply start_options.
  - apply stop_options.
  - unfold Lifecycle.toggle. destruct (Lifecycle.status_isActive _);
      [apply stop_options|apply start_options].
  - destruct sys as [this tm]. unfold Lifecycle.fire. now destruct (existsb _ _).
  - reflexivity.
Qed.

Lemma start_timerInvariant now rnd sys :
  timerInvariant sys → timerInvariant (Lifecycle.start now rnd sys).
Proof.
  destruct sys as [this tm]. unfold timerInvariant, Lifecycle.start. cbn [fst snd].
  intros [(Hact & id & Hid & Htm)|(Hact & Hid & Htm)]; rewrite Hact.
  - left. cbn. split; [exact Hact|]. now exists id.
  - left. cbn. split; [reflexivity|]. exists (issued tm). now rewrite Htm.
Qed.

Lemma stop_timerInvariant sys : timerInvariant sys → timerInvariant (Lifecycle.stop sys).
Proof.
  destruct sys as [this tm]. unfold timerInvariant, Lifecycle.stop. cbn [fst snd].
  intros [(Hact & id & Hid & Htm)|(Hact & Hid & Htm)]; rewrite Hact; cbn [negb].
  - right. cbn [Lifecycle.intervalId Lifecycle.set_isActive]. rewrite Hid. cbn.
    rewrite Htm. cbn. now rewrite Nat.eqb_refl.
  - right. cbn. done.
Qed.

Lemma handle_timerInvariant sys e : timerInvariant sys → timerInvariant (Lifecycle.handle sys e).
Proof.
  intros Hinv. destruct e as [now rnd| |now rnd|id now rnd1 rnd2|]; cbn [Lifecycle.handle].
  - now apply start_timerInvariant.
  - now apply stop_timerInvariant.
  - unfold Lifecycle.toggle. destruct (Lifecycle.status_isActive _);
      [now apply stop_timerInvariant|now apply start_timerInvariant].
  - destruct sys as [this tm]. unfold Lifecycle.fire.
    destruct (existsb _ _); [|exact Hinv]. exact Hinv.
  - destruct sys as [this tm]. exact Hinv.
Qed.

Lemma run_timerInvariant events sys :
  timerInvariant sys →
  timerInvariant (Lifecycle.run events sys) ∧
  Lifecycle.options (fst (Lifecycle.run events sys)) = Lifecycle.options (fst sys).
Proof.
  revert sys. induction events as [|e events IH]; intros sys Hinv; [done|].
  cbn [Lifecycle.run fold_left].
  destruct (IH (Lifecycle.handle sys e) (handle_timerInvariant sys e Hinv)) as [Hfinal Hopt].
  split; [exact Hfinal|]. unfold Lifecycle.run in Hopt. rewrite Hopt. apply handle_options.
Qed.

(** X4. After any sequence of [start], [stop], toggle commands, timer
    firings and [clearAllSpawners] calls on a new instance, the
    configuration is the one the constructor built; an active instance
    holds the handle of the one timer that is scheduled, whose period is
    [intervalMs]; an inactive instance holds no handle, no timer is
    scheduled, and no firing reaches it; [start] on an active instance
    only writes the warning; and a toggle always flips the running
    flag. *)
Theorem one_timer_while_active (world : World) (given : OptionsGiven)
        (events : list Lifecycle.Event) :
  let sys := Lifecycle.run events (Lifecycle.create world given) in
  let this := fst sys in
  Lifecycle.options this = Lifecycle.options (Lifecycle.constructor world given) ∧
  (Lifecycle.isActive this = true →
   ∃ id, Lifecycle.intervalId this = Some id ∧
         scheduled (snd sys) = [(id, intervalMs (Lifecycle.options this))]) ∧
  (Lifecycle.isActive this = false →
   Lifecycle.intervalId this = None ∧ scheduled (snd sys) = [] ∧
   ∀ id now rnd1 rnd2, Lifecycle.fire id now rnd1 rnd2 sys = sys) ∧
  (∀ now rnd,
     Lifecycle.isActive this = true →
     Lifecycle.start now rnd sys = (Lifecycle.note Lifecycle.WarnAlreadyActive this, snd sys)) ∧
  (∀ now rnd,
     Lifecycle.isActive (fst (Lifecycle.toggle now rnd sys)) = negb (Lifecycle.isActive this)).
Proof.
  intros sys this.
  assert (Hfresh : timerInvariant (Lifecycle.create world given)) by (right; done).
  destruct (run_timerInvariant events _ Hfresh) as [Hinv Hopt].
  fold sys in Hinv, Hopt. fold this in Hopt.
  split; [exact Hopt|].
  destruct sys as [this' tm] eqn:Hsys. cbn [fst snd] in *. subst this.
  unfold timerInvariant in Hinv. cbn [fst snd] in Hinv.
  split; [|split; [|split]].
  - intros Hact. destruct Hinv as [(_ & Hid)|(Hoff & _)]; [exact Hid|congruence].
  - intros Hoff. destruct Hinv as [(Hact & _)|(_ & Hid & Htm)]; [congruence|].
    split; [exact Hid|]. split; [exact Htm|].
    intros id now rnd1 rnd2. unfold Lifecycle.fire. now rewrite Htm.
  - intros now rnd Hact. unfold Lifecycle.start. now rewrite Hact.
  - intros now rnd. unfold Lifecycle.toggle. cbn [fst Lifecycle.getStatus Lifecycle.status_isActive].
    destruct (Lifecycle.isActive this') eqn:Hact.
    + unfold Lifecycle.stop. rewrite Hact. cbn [negb].
      cbn. now destruct (Lifecycle.intervalId this').
    + unfold Lifecycle.start. rewrite Hact. reflexivity.
Qed.

(** ** Where the engine writes *)

Lemma writtenWithin_refl cfg w : writtenWithin cfg w w.
Proof. split; [done|]. split; [done|]. intros x y z Hne. contradiction. Qed.

Lemma writtenWithin_trans cfg w1 w2 w3 :
  writtenWithin cfg w1 w2 → writtenWithin cfg w2 w3 → writtenWithin cfg w1 w3.
Proof.
  intros (Hr & Hw & Hc) (Hr' & Hw' & Hc'). split; [congruence|]. split; [congruence|].
  intros x y z Hne.
  destruct (decide (cells w3 !! (x, y, z) = cells w2 !! (x, y, z))) as [Heq|Hne'].
  - rewrite Heq in Hne |- *. now apply Hc.
  - now apply Hc'.
Qed.

Lemma setBlock_writtenWithin cfg x y z b st :
  isWithinBounds cfg x z = true → 0 <= y →
  b = blockTypeId cfg ∨ b = spawnerBlockId cfg ∨ b = 0 →
  writtenWithin cfg (world st) (world (setBlock x y z b st)).
Proof.
  intros Hb Hy Hid.
  destruct (setBlock_world_cases x y z b st) as [[_ ->]|[_ ->]]; [apply writtenWithin_refl|].
  split; [done|]. split; [done|]. intros x' y' z' Hne. cbn in Hne |- *.
  destruct (decide ((x, y, z) = (x', y', z'))) as [[= <- <- <-]|Hother].
  - split; [exact Hb|]. split; [exact Hy|]. exists b. now rewrite lookup_insert_eq.
  - rewrite lookup_insert_ne in Hne by exact Hother. contradiction.
Qed.

Lemma fold_terraformColumn_writtenWithin cfg t maxRadius wave columns acc :
  writtenWithin cfg (world (zone acc))
    (world (zone (fold_left (terraformColumn cfg t maxRadius wave) columns acc))).
Proof.
  revert acc. induction columns as [|[x z] columns IH]; intros acc; [apply writtenWithin_refl|].
  cbn [fold_left]. eapply writtenWithin_trans; [|apply IH].
  destruct (terraformColumn_cases cfg t maxRadius wave acc x z)
    as [[_ ->]|[(_ & _ & ->)|[(_ & _ & _ & ->)|(Hb & _ & _ & _ & ->)]]];
    try apply writtenWithin_refl.
  apply setBlock_writtenWithin; [exact Hb| |now left].
  pose proof (probe_range (world (zone acc)) x z (Z.to_nat (targetHeight cfg + 10 + 1))).
  unfold getCurrentHeight. lia.
Qed.

Lemma set_add_registryWithin cfg x y z ps :
  isWithinBounds cfg x z = true → 2 <= y →
  registryWithin cfg ps → registryWithin cfg (set_add (x, y, z) ps).
Proof.
  intros Hb Hy [Hnd Hin]. unfold set_add.
  destruct (bool_decide ((x, y, z) ∈ ps)) eqn:Hmem; [now split|].
  apply bool_decide_eq_false in Hmem. split.
  - apply NoDup_app. split; [exact Hnd|]. split; [|apply NoDup_singleton].
    intros p Hp Hp'. apply list_elem_of_singleton in Hp'. now subst p.
  - intros x' y' z' Hk. apply elem_of_app in Hk as [Hk|Hk]; [now apply Hin|].
    apply list_elem_of_singleton in Hk. inversion Hk; subst. now split.
Qed.

Lemma set_delete_registryWithin cfg p ps :
  registryWithin cfg ps → registryWithin cfg (set_delete p ps).
Proof.
  intros [Hnd Hin]. split.
  - unfold set_delete. now apply NoDup_filter.
  - intros x y z Hk. apply elem_of_set_delete in Hk as [Hk _]. now apply Hin.
Qed.

Lemma placeInitialSpawner_within cfg st c :
  writtenWithin cfg (world st) (world (placeInitialSpawner cfg st c)) ∧
  (registryWithin cfg (spawnerPositions st) →
   registryWithin cfg (spawnerPositions (placeInitialSpawner cfg st c))).
Proof.
  destruct c as [x z]. destruct (isWithinBounds cfg x z) eqn:Hb.
  - rewrite (placeInitialSpawner_inside cfg st x z Hb). cbv zeta.
    set (y := Z.max _ 2). assert (Hy : 2 <= y) by (subst y; lia).
    cbn [world spawnerPositions say set_spawnerPositions]. split.
    + apply setBlock_writtenWithin; [exact Hb|lia|right; now left].
    + destruct (setBlock_frame x y z (spawnerBlockId cfg) st) as (_ & _ & _ & -> & _).
      now apply set_add_registryWithin.
  - rewrite (placeInitialSpawner_outside cfg st x z Hb). split; [apply writtenWithin_refl|done].
Qed.

Lemma fold_placeInitialSpawner_within cfg points st :
  writtenWithin cfg (world st) (world (fold_left (placeInitialSpawner cfg) points st)) ∧
  (registryWithin cfg (spawnerPositions st) →
   registryWithin cfg (spawnerPositions (fold_left (placeInitialSpawner cfg) points st))).
Proof.
  revert st. induction points as [|c points IH]; intros st; cbn [fold_left].
  { split; [apply writtenWithin_refl|done]. }
  destruct (IH (placeInitialSpawner cfg st c)) as [Hw Hreg].
  destruct (placeInitialSpawner_within cfg st c) as [Hw' Hreg'].
  split; [exact (writtenWithin_trans _ _ _ _ Hw' Hw)|]. auto.
Qed.

Lemma findValidSpawnerPosition_inside cfg rnd st out vx vz :
  findValidSpawnerPosition cfg rnd st = (out, Some (vx, vz)) →
  isWithinBounds cfg vx vz = true.
Proof.
  intros Hfound.
  destruct (findValidSpawnerPosition_cases cfg rnd st) as [Hcase|Hcase];
    rewrite Hcase in Hfound; apply pair_equal_spec in Hfound as [_ Hfound]; [discriminate|].
  apply searchFrom_found in Hfound as [Hvalid _].
  now apply isValidSpawnerPosition_spec in Hvalid as [Hb _].
Qed.

Lemma selectNewTarget_within cfg now rnd st :
  writtenWithin cfg (world st) (world (selectNewTarget cfg now rnd st)) ∧
  (registryWithin cfg (spawnerPositions st) →
   registryWithin cfg (spawnerPositions (selectNewTarget cfg now rnd st))).
Proof.
  destruct (hasInitialSpawners st) eqn:Hinit.
  - destruct (findValidSpawnerPosition cfg rnd st) as [out [[vx vz]|]] eqn:Hfound.
    + pose proof (findValidSpawnerPosition_inside cfg rnd st out vx vz Hfound) as Hb.
      destruct (selectNewTarget_site cfg now rnd st out vx vz Hinit Hfound)
        as (_ & _ & _ & -> & -> & _).
      split.
      * apply setBlock_writtenWithin; [exact Hb|lia|right; now left].
      * apply set_add_registryWithin; [exact Hb|lia].
    + destruct (selectNewTarget_no_site cfg now rnd st Hinit) as (-> & _ & _ & _ & -> & _).
      { now rewrite Hfound. }
      split; [apply writtenWithin_refl|done].
  - unfold selectNewTarget. rewrite Hinit. cbn [negb].
    destruct (createInitialSpawners_registry cfg now st) as (-> & -> & _).
    unfold initialSpawnersPlaced. cbn [world spawnerPositions set_hasInitialSpawners].
    exact (fold_placeInitialSpawner_within cfg (initialSpawnPoints cfg)
             (say LogCreatingInitialSpawners st)).
Qed.

Lemma finishStep_within cfg now rnd r t st :
  writtenWithin cfg (world st) (world (finishStep cfg now rnd r t (sweep cfg now t st))) ∧
  (registryWithin cfg (spawnerPositions st) →
   registryWithin cfg (spawnerPositions (finishStep cfg now rnd r t (sweep cfg now t st)))).
Proof.
  unfold finishStep.
  pose proof (fold_terraformColumn_writtenWithin cfg t (terraformSize cfg / 2)
                (currentWaveRadius cfg now t)
                (windowColumns (target_x t) (target_z t) (terraformSize cfg / 2))
                (mkSweep st 0 true)) as Hsweep.
  destruct (fold_terraformColumn_frame cfg t (terraformSize cfg / 2)
              (currentWaveRadius cfg now t)
              (windowColumns (target_x t) (target_z t) (terraformSize cfg / 2))
              (mkSweep st 0 true)) as (_ & _ & _ & Hs & _).
  change (fold_left _ _ _) with (sweep cfg now t st) in Hsweep, Hs. cbn [zone] in Hsweep, Hs.
  destruct (targetComplete (sweep cfg now t st)).
  - set (s := set_completedTargets _ _).
    destruct (selectNewTarget_within cfg now rnd s) as [Hw Hreg].
    split; [exact (writtenWithin_trans _ _ _ _ Hsweep Hw)|].
    intros Hok. apply Hreg. subst s. cbn [spawnerPositions set_completedTargets say].
    now rewrite Hs.
  - cbn [world spawnerPositions say]. split; [exact Hsweep|]. now rewrite Hs.
Qed.

(** A tick keeps its writes inside the zone and the registry in order. *)
Lemma terraformStep_within cfg now rnd1 rnd2 st :
  writtenWithin cfg (world st) (world (terraformStep cfg now rnd1 rnd2 st)) ∧
  (registryWithin cfg (spawnerPositions st) →
   registryWithin cfg (spawnerPositions (terraformStep cfg now rnd1 rnd2 st))).
Proof.
  destruct (currentTarget st) as [r|] eqn:Hcur.
  2:{ unfold terraformStep. rewrite Hcur. apply selectNewTarget_within. }
  destruct (targets st !! r) as [t|] eqn:Ht.
  2:{ unfold terraformStep. rewrite Hcur, Ht. split; [apply writtenWithin_refl|done]. }
  destruct (isActive t) eqn:Hact.
  2:{ unfold terraformStep. rewrite Hcur, Ht, Hact. cbn [negb].
      exact (selectNewTarget_within cfg now rnd1 (say LogTargetInactive st)). }
  destruct (spawnerPosition t) as [p|] eqn:Hp.
  - destruct (isSpawnerBlockPresent cfg (world st) p) eqn:Hlive.
    + rewrite (terraformStep_grow cfg now rnd1 rnd2 st r t Hcur Ht Hact);
        [apply finishStep_within|].
      intros q Hq. congruence.
    + rewrite (terraformStep_destroyed cfg now rnd1 rnd2 st r t p Hcur Ht Hact Hp Hlive).
      destruct (selectNewTarget_within cfg now rnd1 (afterLoss r t p st)) as [Hw1 Hreg1].
      destruct (selectNewTarget_within cfg now rnd2
                  (forget p (selectNewTarget cfg now rnd1 (afterLoss r t p st)))) as [Hw2 Hreg2].
      split; [exact (writtenWithin_trans _ _ _ _ Hw1 Hw2)|].
      intros Hok. apply Hreg2. cbn [spawnerPositions forget set_spawnerPositions].
      apply set_delete_registryWithin, Hreg1. exact Hok.
  - rewrite (terraformStep_grow cfg now rnd1 rnd2 st r t Hcur Ht Hact);
      [apply finishStep_within|].
    intros q Hq. congruence.
Qed.

Lemma fold_clear_within cfg ps st :
  (∀ x y z, (x, y, z) ∈ ps → isWithinBounds cfg x z = true ∧ 2 <= y) →
  writtenWithin cfg (world st) (world (Lifecycle.clearCells ps st)).
Proof.
  revert st. induction ps as [|[[x y] z] ps IH]; intros st Hin; [apply writtenWithin_refl|].
  unfold Lifecycle.clearCells in *. cbn [fold_left]. eapply writtenWithin_trans; [|apply IH].
  - destruct (Hin x y z) as [Hb Hy]; [now left|].
    apply setBlock_writtenWithin; [exact Hb|lia|right; now right].
  - intros x' y' z' Hk. apply Hin. now right.
Qed.

Lemma start_zoneInvariant world0 now rnd sys :
  zoneInvariant world0 sys → zoneInvariant world0 (Lifecycle.start now rnd sys).
Proof.
  destruct sys as [this tm]. unfold zoneInvariant, Lifecycle.start. cbn [fst snd].
  intros [Hw Hreg]. destruct (Lifecycle.isActive this); [now split|]. cbn.
  destruct (selectNewTarget_within (Lifecycle.options this) now rnd (Lifecycle.fields this))
    as [Hw' Hreg'].
  split; [exact (writtenWithin_trans _ _ _ _ Hw Hw')|auto].
Qed.

Lemma stop_zoneInvariant world0 sys :
  zoneInvariant world0 sys → zoneInvariant world0 (Lifecycle.stop sys).
Proof.
  destruct sys as [this tm]. unfold zoneInvariant, Lifecycle.stop. cbn [fst snd].
  intros Hinv. destruct (Lifecycle.isActive this); [|exact Hinv]. cbn.
  now destruct (Lifecycle.intervalId this).
Qed.

Lemma handle_zoneInvariant world0 sys e :
  zoneInvariant world0 sys → zoneInvariant world0 (Lifecycle.handle sys e).
Proof.
  intros Hinv. destruct e as [now rnd| |now rnd|id now rnd1 rnd2|]; cbn [Lifecycle.handle].
  - now apply start_zoneInvariant.
  - now apply stop_zoneInvariant.
  - unfold Lifecycle.toggle. destruct (Lifecycle.status_isActive _);
      [now apply stop_zoneInvariant|now apply start_zoneInvariant].
  - destruct sys as [this tm]. unfold Lifecycle.fire.
    destruct (existsb _ _); [|exact Hinv].
    destruct Hinv as [Hw Hreg]. cbn [fst snd] in *. unfold zoneInvariant. cbn.
    destruct (terraformStep_within (Lifecycle.options this) now rnd1 rnd2 (Lifecycle.fields this))
      as [Hw' Hreg'].
    split; [exact (writtenWithin_trans _ _ _ _ Hw Hw')|auto].
  - destruct sys as [this tm]. destruct Hinv as [Hw [Hnd Hreg]]. cbn [fst snd] in *.
    unfold zoneInvariant. cbn. split.
    + exact (writtenWithin_trans _ _ _ _ Hw (fold_clear_within _ _ _ Hreg)).
    + split; [constructor|]. intros x y z Hk. inversion Hk.
Qed.

Lemma run_zoneInvariant world0 events sys :
  zoneInvariant world0 sys → zoneInvariant world0 (Lifecycle.run events sys).
Proof.
  revert sys. induction events as [|e events IH]; intros sys Hinv; [exact Hinv|].
  cbn [Lifecycle.run fold_left]. apply IH, handle_zoneInvariant, Hinv.
Qed.

Lemma run_options events sys :
  Lifecycle.options (fst (Lifecycle.run events sys)) = Lifecycle.options (fst sys).
Proof.
  revert sys. induction events as [|e events IH]; intros sys; [reflexivity|].
  cbn [Lifecycle.run fold_left]. unfold Lifecycle.run in IH. rewrite IH. apply handle_options.
Qed.

(** X6. Over any sequence of events on a new instance the engine writes
    only inside its zone.  The coordinates at which the grid throws do
    not change; a cell that differs from the initial grid lies in a
    column inside the bounds, at level 0 or above, and holds the
    terraforming block, the spawner block or air; the registry never
    holds a key twice and all its keys are cells of columns inside the
    bounds at level 2 or above; and an instance of size less than 2 never
    changes the grid. *)
Theorem writes_stay_in_zone (world0 : World) (given : OptionsGiven)
        (events : list Lifecycle.Event) :
  let cfg := Lifecycle.options (Lifecycle.constructor world0 given) in
  let final := Lifecycle.fields (fst (Lifecycle.run events (Lifecycle.create world0 given))) in
  unreadable (world final) = unreadable world0 ∧
  unwritable (world final) = unwritable world0 ∧
  (∀ x y z, cells (world final) !! (x, y, z) ≠ cells world0 !! (x, y, z) →
     isWithinBounds cfg x z = true ∧ 0 <= y ∧
     ∃ b, cells (world final) !! (x, y, z) = Some (IdNum b) ∧
          (b = blockTypeId cfg ∨ b = spawnerBlockId cfg ∨ b = 0)) ∧
  NoDup (spawnerPositions final) ∧
  (∀ x y z, (x, y, z) ∈ spawnerPositions final → isWithinBounds cfg x z = true ∧ 2 <= y) ∧
  (given_size given < 2 → world final = world0).
Proof.
  intros cfg final.
  assert (Hfresh : zoneInvariant world0 (Lifecycle.create world0 given)).
  { split; [apply writtenWithin_refl|]. split; [constructor|]. intros x y z Hk. inversion Hk. }
  pose proof (run_zoneInvariant world0 events _ Hfresh) as [Hw [Hnd Hreg]].
  rewrite run_options in Hw, Hreg. fold final in Hw, Hnd, Hreg.
  change (Lifecycle.options (Lifecycle.create world0 given).1) with cfg in Hw, Hreg.
  destruct Hw as (Hr & Hu & Hcells).
  split; [exact Hr|]. split; [exact Hu|]. split; [exact Hcells|].
  split; [exact Hnd|]. split; [exact Hreg|].
  intros Hsize.
  assert (Hout : ∀ x z, isWithinBounds cfg x z = false).
  { intros x z. apply not_true_iff_false. rewrite isWithinBounds_spec.
    change (size cfg) with (given_size given).
    assert (given_size given / 2 < 1) by (apply Z.div_lt_upper_bound; lia). lia. }
  destruct (world final) as [c r u] eqn:Hfinal. cbn in Hr, Hu, Hcells. subst r u.
  destruct world0 as [c0 r0 u0]. cbn in *. f_equal.
  apply map_eq. intros [[x y] z].
  destruct (decide (c !! (x, y, z) = c0 !! (x, y, z))) as [Heq|Hne]; [exact Heq|].
  destruct (Hcells x y z Hne) as [Hb _]. rewrite Hout in Hb. discriminate.
Qed.

(** ** The first start *)

Lemma setBlock_writable (x y z b : Z) (st : Terraforming) :
  unwritable (world st) (x, y, z) = false →
  setBlock x y z b st =
  set_world (mkWorld (<[(x, y, z) := IdNum b]> (cells (world st)))
                     (unreadable (world st)) (unwritable (world st))) st.
Proof. intros Hw. unfold setBlock, lattice_setBlock. now rewrite Hw. Qed.

(** X3. The first [start] of an instance built without
    [initialSpawnPoints], in a zone of size 2 or more.  When the cell two
    levels above the top of the centre column (level 2 at the least) can
    be written and read, the call turns the instance active, sets one
    interval timer with the period [intervalMs] (10000 when left out),
    writes one spawner block (id 19 when left out) at that cell, registers
    it, and makes the current target a new target at the centre with the
    target height (5 when left out) and the clock reading, bound to that
    spawner; nothing is archived. *)
Theorem first_start_at_centre (world0 : World) (given : OptionsGiven) (now : Z)
        (rnd : nat -> Draw) :
  given_initialSpawnPoints given = None →
  2 <= given_size given →
  let cfg := Lifecycle.options (Lifecycle.constructor world0 given) in
  let cx := given_centerX given in
  let cz := given_centerZ given in
  let y := Z.max (getCurrentHeight cfg world0 cx cz + 2) 2 in
  unwritable world0 (cx, y, cz) = false →
  unreadable world0 (cx, y, cz) = false →
  let sys := Lifecycle.start now rnd (Lifecycle.create world0 given) in
  let st := Lifecycle.fields (fst sys) in
  Lifecycle.isActive (fst sys) = true ∧
  Lifecycle.intervalId (fst sys) = Some 0%nat ∧
  scheduled (snd sys) = [(0%nat, default 10000 (given_intervalMs given))] ∧
  hasInitialSpawners st = true ∧
  spawnerPositions st = [(cx, y, cz)] ∧
  world st = mkWorld (<[(cx, y, cz) := IdNum (default 19 (given_spawnerBlockId given))]>
                        (cells world0))
                     (unreadable world0) (unwritable world0) ∧
  targets st = [mkTarget cx (default 5 (given_targetHeight given)) cz now (Some (cx, y, cz)) true] ∧
  currentTarget st = Some 0%nat ∧
  completedTargets st = [].
Proof.
  intros Hdefault Hsize cfg cx cz y Hwr Hrd sys st.
  assert (Hpts : initialSpawnPoints cfg = [(cx, cz)]).
  { unfold cfg, Lifecycle.constructor. cbn. now rewrite Hdefault. }
  assert (Hb : isWithinBounds cfg cx cz = true).
  { apply isWithinBounds_spec. change (size cfg) with (given_size given).
    change (centerX cfg) with cx. change (centerZ cfg) with cz.
    assert (1 <= given_size given / 2) by (apply Z.div_le_lower_bound; lia). lia. }
  assert (Hst : st = createInitialSpawners cfg now (freshZone world0)) by reflexivity.
  assert (Hplaced : initialSpawnersPlaced cfg (freshZone world0) =
            say (LogInitialSpawnerCreated (cx, y, cz))
              (set_spawnerPositions [(cx, y, cz)]
                 (set_hasInitialSpawners true
                    (set_world
                       (mkWorld (<[(cx, y, cz) := IdNum (spawnerBlockId cfg)]> (cells world0))
                                (unreadable world0) (unwritable world0))
                       (say LogCreatingInitialSpawners (freshZone world0)))))).
  { unfold initialSpawnersPlaced. rewrite Hpts. cbn [fold_left].
    rewrite (placeInitialSpawner_inside cfg _ cx cz Hb). cbv zeta.
    cbn [world say freshZone]. fold y.
    rewrite setBlock_writable by exact Hwr. reflexivity. }
  assert (Hbound : findSpawnerPositionAt cfg (initialSpawnersPlaced cfg (freshZone world0)) cx cz
                   = Some (cx, y, cz)).
  { apply (findSpawnerPositionAt_first cfg (freshZone world0) cx cz []); try assumption.
    reflexivity. }
  split; [reflexivity|]. split; [reflexivity|]. split; [reflexivity|].
  rewrite Hst, (createInitialSpawners_first_inside cfg now (freshZone world0) cx cz [] Hpts Hb).
  rewrite Hbound, Hplaced. cbn.
  repeat split; reflexivity.
Qed.

Lemma first_start_at_centre_witness :
  spawnerPositions
    (Lifecycle.fields
       (fst (Lifecycle.start 0 stayPut
               (Lifecycle.create clayStrip
                  (mkGiven 60 60 25 (Some 4) (Some 2500) (Some 12) (Some 19) (Some (4 # 5))
                           None None None)))))
  = [(60, 2, 60)].
Proof.
  refine (proj1 (proj2 (proj2 (proj2 (proj2
    (first_start_at_centre clayStrip
       (mkGiven 60 60 25 (Some 4) (Some 2500) (Some 12) (Some 19) (Some (4 # 5)) None None None)
       0 stayPut eq_refl _ eq_refl eq_refl)))))).
  vm_compute. discriminate.
Defined.

(** ** Restarting *)

(** X5. [stop] followed by [start] does not resume the target in
    progress.  On an active instance whose initial spawners are placed
    and whose search finds a site, [stop] clears the timer, and [start]
    sets a new timer with a new handle and runs a selection: a new target
    at the site, bound to a new spawner that is written and registered,
    is appended to the store and becomes the current target.  The
    history is as it was. *)
Theorem restart_selects_again (this : Lifecycle.Instance) (tm : Timers) (id : nat) (now : Z)
        (rnd : nat -> Draw) (out : list LogEntry) (vx vz : Z) :
  Lifecycle.isActive this = true →
  Lifecycle.intervalId this = Some id →
  hasInitialSpawners (Lifecycle.fields this) = true →
  findValidSpawnerPosition (Lifecycle.options this) rnd (Lifecycle.fields this)
    = (out, Some (vx, vz)) →
  let cfg := Lifecycle.options this in
  let st := Lifecycle.fields this in
  let y := Z.max (getCurrentHeight cfg (world st) vx vz + 2) 2 in
  let sys := Lifecycle.start now rnd (Lifecycle.stop (this, tm)) in
  let st' := Lifecycle.fields (fst sys) in
  Lifecycle.isActive (fst sys) = true ∧
  Lifecycle.intervalId (fst sys) = Some (issued tm) ∧
  scheduled (snd sys) = scheduled (clearInterval id tm) ++ [(issued tm, intervalMs cfg)] ∧
  targets st' = targets st ++ [mkTarget vx (targetHeight cfg) vz now (Some (vx, y, vz)) true] ∧
  currentTarget st' = Some (length (targets st)) ∧
  completedTargets st' = completedTargets st ∧
  spawnerPositions st' = set_add (vx, y, vz) (spawnerPositions st) ∧
  world st' = world (setBlock vx y vz (spawnerBlockId cfg) st).
Proof.
  intros Hact Hid Hinit Hfound cfg st y sys st'.
  assert (Hsys : sys = (Lifecycle.note (Lifecycle.LogStarted (centerX cfg) (centerZ cfg) (size cfg))
                          (Lifecycle.set_intervalId (Some (issued tm))
                             (Lifecycle.set_fields (selectNewTarget cfg now rnd st)
                                (Lifecycle.set_isActive true
                                   (Lifecycle.note (Lifecycle.LogStopped (centerX cfg) (centerZ cfg))
                                      (Lifecycle.set_intervalId None
                                         (Lifecycle.set_isActive false this)))))),
                        mkTimers (scheduled (clearInterval id tm) ++ [(issued tm, intervalMs cfg)])
                                 (S (issued tm)))).
  { unfold sys, Lifecycle.stop. rewrite Hact. cbn [negb].
    cbn [Lifecycle.intervalId Lifecycle.set_isActive]. rewrite Hid. reflexivity. }
  destruct (selectNewTarget_site cfg now rnd st out vx vz Hinit Hfound)
    as (Ht & Hc & Hh & Hs & Hw & _).
  unfold st'. rewrite Hsys. cbn [fst snd].
  split; [reflexivity|]. split; [reflexivity|]. split; [reflexivity|].
  cbn [Lifecycle.fields Lifecycle.note Lifecycle.set_intervalId Lifecycle.set_fields].
  now rewrite Ht, Hc, Hh, Hs, Hw.
Qed.

Lemma restart_selects_again_witness :
  currentTarget
    (Lifecycle.fields
       (fst (Lifecycle.start 4000 eastward
               (Lifecycle.stop (Lifecycle.mkInstance hillZone hillGrown true (Some 0%nat) [],
                                mkTimers [(0%nat, 1000)] 1)))))
  = Some 1%nat ∧
  completedTargets
    (Lifecycle.fields
       (fst (Lifecycle.start 4000 eastward
               (Lifecycle.stop (Lifecycle.mkInstance hillZone hillGrown true (Some 0%nat) [],
                                mkTimers [(0%nat, 1000)] 1)))))
  = [].
Proof.
  assert (Hfound : findValidSpawnerPosition hillZone eastward hillGrown = ([], Some (6, 0)))
    by (vm_compute; reflexivity).
  pose proof (restart_selects_again
                (Lifecycle.mkInstance hillZone hillGrown true (Some 0%nat) [])
                (mkTimers [(0%nat, 1000)] 1) 0 4000 eastward [] 6 0
                eq_refl eq_refl eq_refl Hfound) as H.
  split; [exact (proj1 (proj2 (proj2 (proj2 (proj2 H)))))
         |exact (proj1 (proj2 (proj2 (proj2 (proj2 (proj2 H))))))].
Defined.

(** ** Clearing the spawners *)

Lemma clearCells_frame ps st :
  targets (Lifecycle.clearCells ps st) = targets st ∧
  currentTarget (Lifecycle.clearCells ps st) = currentTarget st ∧
  completedTargets (Lifecycle.clearCells ps st) = completedTargets st ∧
  spawnerPositions (Lifecycle.clearCells ps st) = spawnerPositions st ∧
  hasInitialSpawners (Lifecycle.clearCells ps st) = hasInitialSpawners st ∧
  unreadable (world (Lifecycle.clearCells ps st)) = unreadable (world st) ∧
  unwritable (world (Lifecycle.clearCells ps st)) = unwritable (world st).
Proof.
  revert st. induction ps as [|[[x y] z] ps IH]; intros st; [done|].
  unfold Lifecycle.clearCells in *. cbn [fold_left].
  destruct (IH (setBlock x y z 0 st)) as (-> & -> & -> & -> & -> & -> & ->).
  destruct (setBlock_frame x y z 0 st) as (-> & -> & -> & -> & ->).
  destruct (setBlock_world_cases x y z 0 st) as [[_ ->]|[_ ->]]; done.
Qed.

Lemma clearCells_cell ps st p :
  cells (world (Lifecycle.clearCells ps st)) !! p =
  if bool_decide (p ∈ ps) && negb (unwritable (world st) p) then Some (IdNum 0)
  else cells (world st) !! p.
Proof.
  revert st. induction ps as [|[[x y] z] ps IH]; intros st.
  { cbn. rewrite bool_decide_eq_false_2; [reflexivity|]. intros Hin. inversion Hin. }
  unfold Lifecycle.clearCells in *. cbn [fold_left]. rewrite IH.
  assert (Hu : unwritable (world (setBlock x y z 0 st)) = unwritable (world st)).
  { destruct (setBlock_world_cases x y z 0 st) as [[_ ->]|[_ ->]]; done. }
  rewrite Hu.
  destruct (unwritable (world st) p) eqn:Hp; cbn [negb]; rewrite ?andb_false_r, ?andb_true_r.
  - destruct (setBlock_world_cases x y z 0 st) as [[_ ->]|[Hw ->]]; [reflexivity|].
    cbn. apply lookup_insert_ne. intros <-. congruence.
  - destruct (decide (p ∈ ps)) as [Hin|Hnin].
    + rewrite !bool_decide_eq_true_2; [reflexivity| |exact Hin]. now right.
    + rewrite (bool_decide_eq_false_2 (p ∈ ps)) by exact Hnin.
      destruct (decide (p = (x, y, z))) as [->|Hne].
      * rewrite bool_decide_eq_true_2 by now left.
        destruct (setBlock_world_cases x y z 0 st) as [[Hw _]|[_ ->]]; [congruence|].
        cbn. apply lookup_insert_eq.
      * rewrite bool_decide_eq_false_2.
        2:{ intros Hin. apply elem_of_cons in Hin as [?|?]; contradiction. }
        destruct (setBlock_world_cases x y z 0 st) as [[_ ->]|[_ ->]]; [reflexivity|].
        cbn. apply lookup_insert_ne. congruence.
Qed.

(** X7. [clearAllSpawners] empties the registry and sets the cell of
    every registered key that can be written to air; every other cell is
    as it was.  Afterwards the spawner count is 0, no coordinate is a
    spawner block and no spawner is active.  The call does not touch the
    targets: the store, the current target (still active and still bound
    to the position of its spawner), the history, the flag
    [hasInitialSpawners], the running flag and the timer are as
    before. *)
Theorem clearAllSpawners_effect (this : Lifecycle.Instance) :
  let cfg := Lifecycle.options this in
  let st := Lifecycle.fields this in
  let this' := Lifecycle.clearAllSpawners this in
  let st' := Lifecycle.fields this' in
  Lifecycle.getSpawnerCount this' = 0%nat ∧
  getSpawnerPositions st' = [] ∧
  getActiveSpawnerPositions cfg st' = [] ∧
  (∀ x y z, Lifecycle.isSpawnerBlock this' x y z = false) ∧
  targets st' = targets st ∧
  currentTarget st' = currentTarget st ∧
  completedTargets st' = completedTargets st ∧
  hasInitialSpawners st' = hasInitialSpawners st ∧
  Lifecycle.isActive this' = Lifecycle.isActive this ∧
  Lifecycle.intervalId this' = Lifecycle.intervalId this ∧
  unreadable (world st') = unreadable (world st) ∧
  unwritable (world st') = unwritable (world st) ∧
  (∀ p, p ∈ spawnerPositions st → unwritable (world st) p = false →
        cells (world st') !! p = Some (IdNum 0)) ∧
  (∀ p, p ∉ spawnerPositions st ∨ unwritable (world st) p = true →
        cells (world st') !! p = cells (world st) !! p).
Proof.
  intros cfg st this' st'.
  assert (Hst' : st' = set_spawnerPositions [] (Lifecycle.clearCells (spawnerPositions st) st))
    by reflexivity.
  destruct (clearCells_frame (spawnerPositions st) st) as (Ht & Hc & Hh & _ & Hi & Hr & Hu).
  rewrite Hst'. cbn [targets currentTarget completedTargets hasInitialSpawners world
                     set_spawnerPositions].
  split; [reflexivity|]. split; [reflexivity|]. split; [reflexivity|].
  split.
  { intros x y z. unfold Lifecycle.isSpawnerBlock. apply bool_decide_eq_false.
    intros Hin. inversion Hin. }
  split; [exact Ht|]. split; [exact Hc|]. split; [exact Hh|]. split; [exact Hi|].
  split; [reflexivity|]. split; [reflexivity|]. split; [exact Hr|]. split; [exact Hu|].
  split.
  - intros p Hin Hw. rewrite clearCells_cell, Hw, bool_decide_eq_true_2 by exact Hin. reflexivity.
  - intros p [Hnin|Hw]; rewrite clearCells_cell.
    + now rewrite bool_decide_eq_false_2 by exact Hnin.
    + now rewrite Hw, andb_false_r.
Qed.

(** ** A zone without spawners *)

Lemma findValidSpawnerPosition_empty cfg rnd st :
  spawnerPositions st = [] → snd (findValidSpawnerPosition cfg rnd st) = None.
Proof.
  intros Hreg. unfold findValidSpawnerPosition, getActiveSpawnerPositions, getSpawnerPositions.
  now rewrite Hreg.
Qed.

Lemma selectNewTarget_spent cfg now rnd st :
  hasInitialSpawners st = true → spawnerPositions st = [] →
  let st' := selectNewTarget cfg now rnd st in
  world st' = world st ∧ targets st' = targets st ∧ currentTarget st' = currentTarget st ∧
  completedTargets st' = completedTargets st ∧ spawnerPositions st' = [] ∧
  hasInitialSpawners st' = true.
Proof.
  intros Hinit Hreg.
  destruct (selectNewTarget_no_site cfg now rnd st Hinit
              (findValidSpawnerPosition_empty cfg rnd st Hreg)) as (? & ? & ? & ? & Hs & ?).
  cbv zeta. rewrite Hs. done.
Qed.

Lemma terraformStep_spent cfg now rnd1 rnd2 st :
  spent cfg st →
  spent cfg (terraformStep cfg now rnd1 rnd2 st) ∧
  world (terraformStep cfg now rnd1 rnd2 st) = world st ∧
  length (targets (terraformStep cfg now rnd1 rnd2 st)) = length (targets st) ∧
  completedTargets (terraformStep cfg now rnd1 rnd2 st) = completedTargets st.
Proof.
  intros (Hinit & Hreg & Hcur).
  destruct (currentTarget st) as [r|] eqn:Hc.
  2:{ unfold terraformStep. rewrite Hc.
      destruct (selectNewTarget_spent cfg now rnd1 st Hinit Hreg) as (Hw & Ht & Hc' & Hh & Hs & Hi).
      split; [|now rewrite Hw, Ht, Hh]. split; [exact Hi|]. split; [exact Hs|].
      intros r t Hr. rewrite Hc', Hc in Hr. discriminate. }
  destruct (targets st !! r) as [t|] eqn:Ht.
  2:{ unfold terraformStep. rewrite Hc, Ht. split; [|done].
      split; [exact Hinit|]. split; [exact Hreg|]. intros r' t' Hr' Ht'. congruence. }
  destruct (isActive t) eqn:Hact.
  2:{ unfold terraformStep. rewrite Hc, Ht, Hact. cbn [negb].
      destruct (selectNewTarget_spent cfg now rnd1 (say LogTargetInactive st) Hinit Hreg)
        as (Hw & Ht' & Hc' & Hh & Hs & Hi).
      split; [|now rewrite Hw, Ht', Hh]. split; [exact Hi|]. split; [exact Hs|].
      intros r' t' Hr' Ht''. rewrite Hc' in Hr'. rewrite Ht' in Ht''. cbn in Hr', Ht''.
      congruence. }
  destruct (Hcur r t eq_refl Ht Hact) as (p & Hp & Hgone).
  rewrite (terraformStep_destroyed cfg now rnd1 rnd2 st r t p Hc Ht Hact Hp Hgone).
  destruct (selectNewTarget_spent cfg now rnd1 (afterLoss r t p st) Hinit Hreg)
    as (Hw1 & Ht1 & Hc1 & Hh1 & Hs1 & Hi1).
  set (s1 := selectNewTarget cfg now rnd1 (afterLoss r t p st)) in *.
  assert (Hreg2 : spawnerPositions (forget p s1) = []).
  { cbn [spawnerPositions forget set_spawnerPositions]. now rewrite Hs1. }
  destruct (selectNewTarget_spent cfg now rnd2 (forget p s1) Hi1 Hreg2)
    as (Hw2 & Ht2 & Hc2 & Hh2 & Hs2 & Hi2).
  cbn [world targets currentTarget completedTargets forget set_spawnerPositions] in Hw2, Ht2, Hc2, Hh2.
  split.
  - split; [exact Hi2|]. split; [exact Hs2|].
    intros r' t' Hr' Ht'. rewrite Hc2, Hc1 in Hr'. rewrite Ht2, Ht1 in Ht'.
    cbn in Hr', Ht'. rewrite Hc in Hr'. injection Hr' as <-.
    rewrite list_lookup_insert_eq in Ht' by (eapply lookup_lt_Some; exact Ht).
    injection Ht' as <-. discriminate.
  - rewrite Hw2, Hw1, Ht2, Ht1, Hh2, Hh1. cbn. now rewrite length_insert.
Qed.

Lemma start_spentAt w n now rnd sys : spentAt w n sys → spentAt w n (Lifecycle.start now rnd sys).
Proof.
  destruct sys as [this tm]. unfold spentAt, Lifecycle.start. cbn [fst snd].
  intros [Hspent [Hw Hn]]. destruct (Lifecycle.isActive this); [done|]. cbn.
  destruct Hspent as (Hinit & Hreg & Hcur).
  destruct (selectNewTarget_spent (Lifecycle.options this) now rnd (Lifecycle.fields this)
              Hinit Hreg) as (Hw' & Ht & Hc & _ & Hs & Hi).
  split; [|now rewrite Hw', Ht]. split; [exact Hi|]. split; [exact Hs|].
  intros r t. rewrite Hc, Ht, Hw'. apply Hcur.
Qed.

Lemma stop_spentAt w n sys : spentAt w n sys → spentAt w n (Lifecycle.stop sys).
Proof.
  destruct sys as [this tm]. unfold spentAt, Lifecycle.stop. cbn [fst snd].
  intros Hinv. destruct (Lifecycle.isActive this); [|exact Hinv]. cbn.
  now destruct (Lifecycle.intervalId this).
Qed.

Lemma handle_spentAt w n sys e : spentAt w n sys → spentAt w n (Lifecycle.handle sys e).
Proof.
  intros Hinv. destruct e as [now rnd| |now rnd|id now rnd1 rnd2|]; cbn [Lifecycle.handle].
  - now apply start_spentAt.
  - now apply stop_spentAt.
  - unfold Lifecycle.toggle. destruct (Lifecycle.status_isActive _);
      [now apply stop_spentAt|now apply start_spentAt].
  - destruct sys as [this tm]. unfold Lifecycle.fire.
    destruct (existsb _ _); [|exact Hinv].
    destruct Hinv as [Hspent [Hw Hn]]. cbn [fst snd] in *. unfold spentAt. cbn.
    destruct (terraformStep_spent (Lifecycle.options this) now rnd1 rnd2 (Lifecycle.fields this)
                Hspent) as (Hspent' & Hw' & Hn' & _).
    split; [exact Hspent'|]. now rewrite Hw', Hn'.
  - destruct sys as [this tm]. destruct Hinv as [(Hinit & Hreg & Hcur) [Hw Hn]].
    cbn [fst snd] in *. unfold spentAt. cbn. rewrite Hreg. cbn. done.
Qed.

Lemma run_spentAt w n events sys : spentAt w n sys → spentAt w n (Lifecycle.run events sys).
Proof.
  revert sys. induction events as [|e events IH]; intros sys Hinv; [exact Hinv|].
  cbn [Lifecycle.run fold_left]. apply IH, handle_spentAt, Hinv.
Qed.

(** X8. After [clearAllSpawners] a zone stays dead.  If the initial
    spawners had been placed, the spawner block is not air, the
    registered cells can be written and the current target, when active,
    is bound to a registered spawner, then whatever events follow
    (starts, stops, toggles, timer firings, further clears), the grid
    stays as the clear left it, the registry and the list of active
    spawners stay empty, no target is added to the store, and an active
    current target stays bound to a spawner that the grid no longer
    holds. *)
Theorem cleared_zone_never_grows (this : Lifecycle.Instance) (tm : Timers)
        (events : list Lifecycle.Event) :
  let cfg := Lifecycle.options this in
  let st := Lifecycle.fields this in
  hasInitialSpawners st = true →
  spawnerBlockId cfg ≠ 0 →
  (∀ p, p ∈ spawnerPositions st → unwritable (world st) p = false) →
  (∀ r t, currentTarget st = Some r → targets st !! r = Some t → isActive t = true →
          ∃ p, spawnerPosition t = Some p ∧ p ∈ spawnerPositions st) →
  let cleared := Lifecycle.clearAllSpawners this in
  let final := Lifecycle.fields (fst (Lifecycle.run events (cleared, tm))) in
  world final = world (Lifecycle.fields cleared) ∧
  spawnerPositions final = [] ∧
  getActiveSpawnerPositions cfg final = [] ∧
  length (targets final) = length (targets st) ∧
  (∀ r t, currentTarget final = Some r → targets final !! r = Some t → isActive t = true →
          ∃ p, spawnerPosition t = Some p ∧ isSpawnerBlockPresent cfg (world final) p = false).
Proof.
  intros cfg st Hinit Hid Hwr Hbound cleared final.
  assert (Hcleared : Lifecycle.fields cleared
                     = set_spawnerPositions [] (Lifecycle.clearCells (spawnerPositions st) st))
    by reflexivity.
  destruct (clearCells_frame (spawnerPositions st) st) as (Ht & Hc & Hh & _ & Hi & Hr & Hu).
  assert (Hstart : spentAt (world (Lifecycle.fields cleared)) (length (targets st)) (cleared, tm)).
  { split; [|split; [reflexivity|]].
    2:{ cbn [fst]. now rewrite Hcleared, <- Ht. }
    cbn [fst]. change (Lifecycle.options cleared) with cfg. rewrite Hcleared.
    split; [cbn [hasInitialSpawners set_spawnerPositions]; now rewrite Hi|].
    split; [reflexivity|].
    cbn [currentTarget targets world set_spawnerPositions]. rewrite Hc, Ht.
    intros r t Hr' Ht' Hact. destruct (Hbound r t Hr' Ht' Hact) as (p & Hp & Hin).
    exists p. split; [exact Hp|].
    unfold isSpawnerBlockPresent, getBlockId. rewrite Hr.
    destruct (unreadable (world st) p); [reflexivity|].
    rewrite clearCells_cell, bool_decide_eq_true_2, (Hwr p Hin) by exact Hin.
    cbn -[Z.eqb]. apply Z.eqb_neq. congruence. }
  pose proof (run_spentAt _ _ events _ Hstart) as [(Hi' & Hs' & Hcur') [Hw' Hn']].
  fold final in Hi', Hs', Hcur', Hw', Hn'.
  rewrite run_options in Hcur'. change (Lifecycle.options (cleared, tm).1) with cfg in Hcur'.
  split; [exact Hw'|]. split; [exact Hs'|]. split.
  { unfold getActiveSpawnerPositions, getSpawnerPositions. now rewrite Hs'. }
  split; [exact Hn'|exact Hcur'].
Qed.

Lemma cleared_zone_never_grows_witness :
  world (Lifecycle.fields
           (fst (Lifecycle.run
                   [Lifecycle.Fire 0 5000 eastward eastward; Lifecycle.Stop;
                    Lifecycle.Start 6000 southward; Lifecycle.Fire 1 7000 eastward southward]
                   (Lifecycle.clearAllSpawners
                      (Lifecycle.mkInstance hillZone hillSpread true (Some 0%nat) []),
                    mkTimers [(0%nat, 1000)] 1))))
  = world (Lifecycle.fields
             (Lifecycle.clearAllSpawners
                (Lifecycle.mkInstance hillZone hillSpread true (Some 0%nat) []))).
Proof.
  refine (proj1 (cleared_zone_never_grows
                   (Lifecycle.mkInstance hillZone hillSpread true (Some 0%nat) [])
                   (mkTimers [(0%nat, 1000)] 1)
                   [Lifecycle.Fire 0 5000 eastward eastward; Lifecycle.Stop;
                    Lifecycle.Start 6000 southward; Lifecycle.Fire 1 7000 eastward southward]
                   eq_refl _ _ _)).
  - vm_compute. discriminate.
  - intros p _. reflexivity.
  - intros r t Hr Ht _. cbn in Hr. injection Hr as <-. cbn in Ht. injection Ht as <-.
    exists (6, 2, 0). split; [reflexivity|]. apply list_elem_of_In. cbn. tauto.
Defined.

(** ** A spread radius below the spacing *)

Lemma searchFrom_none cfg rnd st active attempts fuel :
  (∀ x z, isValidSpawnerPosition cfg st x z = false) →
  searchFrom cfg rnd st active attempts fuel = None.
Proof.
  intros Hnever. revert attempts. induction fuel as [|fuel IH]; intros attempts; [reflexivity|].
  cbn [searchFrom]. destruct (active !! pick (rnd attempts)) as [[[sx sy] sz]|]; [|apply IH].
  rewrite Hnever. apply IH.
Qed.

(** X9. A [spawnerSpreadRadius] below 5 stops the spread.  A valid
    position lies at distance 5 or more from every active spawner and
    within the spread radius of one of them; with a radius below 5 no
    position is valid, whatever the state, so every search returns
    nothing, and once the initial spawners are placed a tick adds no
    target to the store, keeps the current target and registers no new
    key. *)
Theorem no_spread_below_spacing (cfg : TerraformingOptions) :
  (spawnerSpreadRadius cfg < 5)%Q →
  (∀ st x z, isValidSpawnerPosition cfg st x z = false) ∧
  (∀ rnd st, snd (findValidSpawnerPosition cfg rnd st) = None) ∧
  (∀ now rnd1 rnd2 st,
     hasInitialSpawners st = true →
     let st' := terraformStep cfg now rnd1 rnd2 st in
     length (targets st') = length (targets st) ∧
     currentTarget st' = currentTarget st ∧
     (∀ k, k ∈ spawnerPositions st' → k ∈ spawnerPositions st)).
Proof.
  intros Hsmall.
  assert (Hnever : ∀ st x z, isValidSpawnerPosition cfg st x z = false).
  { intros st x z. apply not_true_iff_false. intros Hvalid.
    apply isValidSpawnerPosition_spec in Hvalid as (_ & Hfar & s & Hs & H0 & Hnear).
    specialize (Hfar s Hs).
    assert (H25 : (inject_Z 25 <= inject_Z (dist2 x z s))%Q) by (rewrite <- Zle_Qle; exact Hfar).
    change (inject_Z 25) with 25%Q in H25. Lqa.nra. }
  assert (Hnone : ∀ rnd st, snd (findValidSpawnerPosition cfg rnd st) = None).
  { intros rnd st.
    destruct (findValidSpawnerPosition_cases cfg rnd st) as [->| ->]; [reflexivity|].
    cbn [snd]. apply searchFrom_none, Hnever. }
  split; [exact Hnever|]. split; [exact Hnone|].
  intros now rnd1 rnd2 st Hinit.
  exact (terraformStep_no_site cfg now rnd1 rnd2 st Hinit (Hnone rnd1 st) (Hnone rnd2 st)).
Qed.

Lemma no_spread_below_spacing_witness :
  snd (findValidSpawnerPosition (mkOptions 0 0 40 5 1000 2 4 1 19 [(0, 0)] (9 # 2))
         eastward hillGrown) = None.
Proof.
  refine (proj1 (proj2 (no_spread_below_spacing
                          (mkOptions 0 0 40 5 1000 2 4 1 19 [(0, 0)] (9 # 2)) _))
            eastward hillGrown).
  reflexivity.
Defined.

(** ** The wave in time *)

Lemma Qsquare_le (x y : Q) : (0 <= x)%Q → (x <= y)%Q → (x * x <= y * y)%Q.
Proof.
  intros H0 Hxy.
  assert (H : (0 <= (y - x) * (y + x))%Q) by (apply Qmult_le_0_compat; Lqa.lra).
  Lqa.nra.
Qed.

Lemma currentWaveRadius_mono cfg now now' t :
  0 < intervalMs cfg → (0 <= elevationSpeed cfg)%Q → now <= now' →
  (currentWaveRadius cfg now t <= currentWaveRadius cfg now' t)%Q.
Proof.
  intros Hms Hspeed Hnow. unfold currentWaveRadius, stepsElapsed.
  assert (Hsteps : (now - startTime t) / intervalMs cfg <= (now' - startTime t) / intervalMs cfg)
    by (apply Z.div_le_mono; lia).
  rewrite Zle_Qle in Hsteps. Lqa.nra.
Qed.

Lemma sqrt_gt_mono n r r' :
  (r <= r')%Q → sqrt_gt n r = false → sqrt_gt n r' = false.
Proof.
  unfold sqrt_gt. rewrite !negb_false_iff, !sqrt_le_spec. intros Hr [H0 Hn].
  split; [Lqa.lra|]. pose proof (Qsquare_le r r' H0 Hr). Lqa.lra.
Qed.

(** X10. The wave of a target never retreats.  With a positive interval
    and a non-negative elevation speed, the wave radius at a later clock
    reading is at least the radius at an earlier one; a column inside the
    wave stays inside it; and a growth step that finds the hill complete
    at one reading finds it complete at every later reading, and leaves
    the state as it is. *)
Theorem wave_never_retreats (cfg : TerraformingOptions) (now now' : Z)
        (t : TerraformingTarget) (st : Terraforming) :
  0 < intervalMs cfg → (0 <= elevationSpeed cfg)%Q → now <= now' →
  (currentWaveRadius cfg now t <= currentWaveRadius cfg now' t)%Q ∧
  (∀ x z, sqrt_gt (columnDistance2 t x z) (currentWaveRadius cfg now t) = false →
          sqrt_gt (columnDistance2 t x z) (currentWaveRadius cfg now' t) = false) ∧
  (targetComplete (sweep cfg now t st) = true →
   targetComplete (sweep cfg now' t st) = true ∧ zone (sweep cfg now' t st) = st).
Proof.
  intros Hms Hspeed Hnow.
  pose proof (currentWaveRadius_mono cfg now now' t Hms Hspeed Hnow) as Hwave.
  split; [exact Hwave|]. split; [intros x z; now apply sqrt_gt_mono|].
  intros Hdone. unfold sweep in Hdone |- *. cbv zeta in Hdone |- *.
  destruct (fold_terraformColumn_complete cfg t _ _ _ _ Hdone) as [_ Hall].
  rewrite fold_terraformColumn_idle; [done|].
  intros x z Hin Hb. destruct (Hall x z Hin Hb) as [Hw Hsat].
  split; [exact (sqrt_gt_mono _ _ _ Hwave Hw)|exact Hsat].
Qed.

Lemma wave_never_retreats_witness :
  targetComplete (sweep tinyZone 9000 tinyTarget tinyGrown) = true.
Proof.
  refine (proj1 (proj2 (proj2 (wave_never_retreats tinyZone 5000 9000 tinyTarget tinyGrown
                                 _ _ _)) _)).
  - reflexivity.
  - discriminate.
  - discriminate.
  - vm_compute. reflexivity.
Defined.

(** ** The history *)

Lemma terraformStep_saturated cfg now rnd1 rnd2 st r t :
  currentTarget st = Some r → targets st !! r = Some t → isActive t = true →
  (∀ p, spawnerPosition t = Some p → isSpawnerBlockPresent cfg (world st) p = true) →
  hasInitialSpawners st = true →
  targetComplete (sweep cfg now t st) = true →
  snd (findValidSpawnerPosition cfg rnd1 st) = None →
  let st' := terraformStep cfg now rnd1 rnd2 st in
  world st' = world st ∧ targets st' = targets st ∧ currentTarget st' = Some r ∧
  completedTargets st' = completedTargets st ++ [r] ∧
  spawnerPositions st' = spawnerPositions st ∧ hasInitialSpawners st' = true.
Proof.
  intros Hcur Ht Hact Hlive Hinit Hdone Hnone. cbv zeta.
  rewrite (terraformStep_grow cfg now rnd1 rnd2 st r t Hcur Ht Hact Hlive).
  unfold finishStep. rewrite Hdone.
  unfold sweep in Hdone |- *. cbv zeta in Hdone |- *.
  destruct (fold_terraformColumn_complete cfg t _ _ _ _ Hdone) as [-> _].
  cbn [zone blocksModified].
  set (s := set_completedTargets _ _).
  assert (Hnone' : snd (findValidSpawnerPosition cfg rnd1 s) = None).
  { rewrite (findValidSpawnerPosition_active cfg rnd1 st s); [exact Hnone|reflexivity]. }
  destruct (selectNewTarget_no_site cfg now rnd1 s Hinit Hnone') as (-> & -> & -> & -> & -> & ->).
  subst s. cbn. done.
Qed.

(** X11. A complete hill in a zone with no valid site left is archived
    once per tick.  When the current target is active, its spawner is in
    the grid, its hill is complete and the search of every later tick
    finds no site, every tick appends the same target to the history
    again: after n ticks the history has grown by n copies of the
    reference, while the grid, the store, the current target and the
    registry are as before. *)
Theorem saturated_zone_archives_again (cfg : TerraformingOptions) (now : Z) (ticks : list Tick)
        (st : Terraforming) (r : nat) (t : TerraformingTarget) :
  0 < intervalMs cfg → (0 <= elevationSpeed cfg)%Q →
  currentTarget st = Some r → targets st !! r = Some t → isActive t = true →
  (∀ p, spawnerPosition t = Some p → isSpawnerBlockPresent cfg (world st) p = true) →
  hasInitialSpawners st = true →
  targetComplete (sweep cfg now t st) = true →
  (∀ k, k ∈ ticks → now <= clock k ∧ snd (findValidSpawnerPosition cfg (draws1 k) st) = None) →
  let st' := runSchedule cfg ticks st in
  completedTargets st' = completedTargets st ++ replicate (length ticks) r ∧
  world st' = world st ∧ targets st' = targets st ∧ currentTarget st' = Some r ∧
  spawnerPositions st' = spawnerPositions st.
Proof.
  intros Hms Hspeed Hcur Ht Hact Hlive Hinit Hdone Hticks. cbv zeta.
  assert (Hready : ∀ x z,
            (x, z) ∈ windowColumns (target_x t) (target_z t) (terraformSize cfg / 2) →
            isWithinBounds cfg x z = true →
            sqrt_gt (columnDistance2 t x z) (currentWaveRadius cfg now t) = false ∧
            (targetHeightForPosition (target_y t) (columnDistance2 t x z) (terraformSize cfg / 2) < 1 ∨
             targetHeightForPosition (target_y t) (columnDistance2 t x z) (terraformSize cfg / 2)
               <= getCurrentHeight cfg (world st) x z)).
  { unfold sweep in Hdone. cbv zeta in Hdone.
    exact (proj2 (fold_terraformColumn_complete cfg t _ _ _ _ Hdone)). }
  clear Hdone. revert st Hcur Ht Hlive Hinit Hready Hticks.
  induction ticks as [|k ticks IH]; intros st Hcur Ht Hlive Hinit Hready Hticks.
  { cbn. now rewrite app_nil_r. }
  unfold runSchedule in *. cbn [fold_left].
  destruct (Hticks k) as [Hk Hnone]; [now left|].
  assert (Hdone : targetComplete (sweep cfg (clock k) t st) = true).
  { unfold sweep. cbv zeta. rewrite fold_terraformColumn_idle; [done|].
    intros x z Hin Hb. destruct (Hready x z Hin Hb) as [Hw Hsat].
    split; [|exact Hsat].
    exact (sqrt_gt_mono _ _ _ (currentWaveRadius_mono cfg now (clock k) t Hms Hspeed Hk) Hw). }
  destruct (terraformStep_saturated cfg (clock k) (draws1 k) (draws2 k) st r t
              Hcur Ht Hact Hlive Hinit Hdone Hnone) as (Hw & Htg & Hc & Hh & Hs & Hi).
  set (s := terraformStep cfg (clock k) (draws1 k) (draws2 k) st) in *.
  assert (Hsame : ∀ rnd, findValidSpawnerPosition cfg rnd s = findValidSpawnerPosition cfg rnd st).
  { intros rnd. apply findValidSpawnerPosition_active.
    now apply getActiveSpawnerPositions_same. }
  destruct (IH s) as (Hh' & Hw' & Ht' & Hc' & Hs').
  - exact Hc.
  - now rewrite Htg.
  - intros p Hp. rewrite Hw. now apply Hlive.
  - exact Hi.
  - intros x z Hin Hb. rewrite Hw. now apply Hready.
  - intros k' Hk'. rewrite Hsame. apply Hticks. now right.
  - rewrite Hh', Hw', Ht', Hc', Hs', Hh, Hw, Htg, Hs. cbn [length replicate].
    rewrite <- app_assoc. done.
Qed.

Lemma saturated_zone_archives_again_witness :
  completedTargets
    (runSchedule (mkOptions 0 0 2 5 1000 4 4 (1 # 2) 19 [(0, 0)] (9 # 2))
       [mkTick 5000 stayPut stayPut; mkTick 6500 eastward southward; mkTick 7000 stayPut eastward]
       tinyGrown)
  = [0%nat; 0%nat; 0%nat].
Proof.
  pose (cfg := mkOptions 0 0 2 5 1000 4 4 (1 # 2) 19 [(0, 0)] (9 # 2)).
  refine (proj1 (saturated_zone_archives_again cfg 5000
                   [mkTick 5000 stayPut stayPut; mkTick 6500 eastward southward;
                    mkTick 7000 stayPut eastward]
                   tinyGrown 0 tinyTarget _ _ eq_refl eq_refl eq_refl _ eq_refl _ _)).
  - reflexivity.
  - discriminate.
  - intros p [= <-]. reflexivity.
  - vm_compute. reflexivity.
  - intros k Hk. split.
    + apply list_elem_of_In in Hk. cbn in Hk.
      destruct Hk as [<-|[<-|[<-|[]]]]; cbn; lia.
    + apply list_elem_of_In in Hk. cbn in Hk.
      destruct Hk as [<-|[<-|[<-|[]]]]; vm_compute; reflexivity.
Defined.

(** ** References into the store *)

Lemma selectNewTarget_references cfg now rnd st :
  let st' := selectNewTarget cfg now rnd st in
  completedTargets st' = completedTargets st ∧
  (length (targets st) <= length (targets st'))%nat ∧
  (referencesValid st → referencesValid st').
Proof.
  cbv zeta.
  assert (Hgrow : ∀ st', completedTargets st' = completedTargets st →
            (targets st' = targets st ∧ currentTarget st' = currentTarget st) ∨
            (∃ t, targets st' = targets st ++ [t] ∧ currentTarget st' = Some (length (targets st))) →
            completedTargets st' = completedTargets st ∧
            (length (targets st) <= length (targets st'))%nat ∧
            (referencesValid st → referencesValid st')).
  { intros st' Hh [[Ht Hc]|(t & Ht & Hc)]; (split; [exact Hh|]); rewrite Ht.
    - split; [lia|]. intros [Hcur Hhist]. split.
      + intros r. rewrite Hc, Ht. apply Hcur.
      + intros c. rewrite Hh, Ht. apply Hhist.
    - rewrite length_app. cbn. split; [lia|]. intros [Hcur Hhist]. split.
      + intros r. rewrite Hc, Ht, length_app. cbn. intros [= <-]. lia.
      + intros c. rewrite Hh, Ht, length_app. cbn. intros Hin. specialize (Hhist c Hin). lia. }
  destruct (hasInitialSpawners st) eqn:Hinit.
  - destruct (findValidSpawnerPosition cfg rnd st) as [out [[vx vz]|]] eqn:Hfound.
    + destruct (selectNewTarget_site cfg now rnd st out vx vz Hinit Hfound)
        as (Ht & Hc & Hh & _).
      apply Hgrow; [exact Hh|]. right. eexists. split; [exact Ht|exact Hc].
    + destruct (selectNewTarget_no_site cfg now rnd st Hinit) as (_ & Ht & Hc & Hh & _).
      { now rewrite Hfound. }
      apply Hgrow; [exact Hh|]. now left.
  - unfold selectNewTarget. rewrite Hinit. cbn [negb].
    destruct (initialSpawnersPlaced_frame cfg st) as (Ht & Hc & Hh & _).
    destruct (initialSpawnPoints cfg) as [|[fx fz] rest] eqn:Hpts.
    + rewrite createInitialSpawners_first_outside by (rewrite Hpts; exact I).
      apply Hgrow; [exact Hh|]. now left.
    + destruct (isWithinBounds cfg fx fz) eqn:Hb.
      * rewrite (createInitialSpawners_first_inside cfg now st fx fz rest Hpts Hb).
        apply Hgrow; [exact Hh|]. right. eexists. split; reflexivity.
      * rewrite createInitialSpawners_first_outside by (rewrite Hpts; exact Hb).
        apply Hgrow; [exact Hh|]. now left.
Qed.

Lemma terraformStep_references cfg now rnd1 rnd2 st :
  let st' := terraformStep cfg now rnd1 rnd2 st in
  (completedTargets st' = completedTargets st ∨
   ∃ r, currentTarget st = Some r ∧ completedTargets st' = completedTargets st ++ [r]) ∧
  (length (targets st) <= length (targets st'))%nat ∧
  (referencesValid st → referencesValid st').
Proof.
  cbv zeta. destruct (currentTarget st) as [r|] eqn:Hcur.
  2:{ unfold terraformStep. rewrite Hcur.
      destruct (selectNewTarget_references cfg now rnd1 st) as (Hh & Hlen & Hval).
      split; [now left|]. split; [exact Hlen|exact Hval]. }
  destruct (targets st !! r) as [t|] eqn:Ht.
  2:{ unfold terraformStep. rewrite Hcur, Ht. split; [now left|]. split; [lia|done]. }
  destruct (isActive t) eqn:Hact.
  2:{ unfold terraformStep. rewrite Hcur, Ht, Hact. cbn [negb].
      destruct (selectNewTarget_references cfg now rnd1 (say LogTargetInactive st))
        as (Hh & Hlen & Hval).
      split; [now left|]. split; [exact Hlen|exact Hval]. }
  assert (Hr : (r < length (targets st))%nat) by (eapply lookup_lt_Some; exact Ht).
  assert (Hgrow : let st' := finishStep cfg now rnd1 r t (sweep cfg now t st) in
            (completedTargets st' = completedTargets st ∨
             ∃ r', Some r = Some r' ∧ completedTargets st' = completedTargets st ++ [r']) ∧
            (length (targets st) <= length (targets st'))%nat ∧
            (referencesValid st → referencesValid st')).
  { cbv zeta. unfold finishStep.
    destruct (fold_terraformColumn_frame cfg t (terraformSize cfg / 2)
                (currentWaveRadius cfg now t)
                (windowColumns (target_x t) (target_z t) (terraformSize cfg / 2))
                (mkSweep st 0 true)) as (Ht' & Hc' & Hh' & _).
    change (fold_left _ _ _) with (sweep cfg now t st) in Ht', Hc', Hh'.
    cbn [zone] in Ht', Hc', Hh'.
    destruct (targetComplete (sweep cfg now t st)).
    - set (s := set_completedTargets _ _).
      destruct (selectNewTarget_references cfg now rnd1 s) as (Hh & Hlen & Hval).
      assert (Hs : completedTargets s = completedTargets st ++ [r] ∧ targets s = targets st ∧
                   currentTarget s = Some r).
      { subst s. cbn [completedTargets targets currentTarget set_completedTargets say].
        rewrite Hh', Ht'. split; [done|]. split; [done|]. etrans; [exact Hc'|exact Hcur]. }
      destruct Hs as (Hsh & Hst & Hsc). rewrite Hh, Hsh. rewrite Hst in Hlen.
      split; [right; now exists r|]. split; [exact Hlen|].
      intros [Hvc Hvh]. apply Hval. split.
      + intros r'. rewrite Hsc, Hst. intros [= <-]. exact Hr.
      + intros c. rewrite Hsh, Hst. intros Hin. apply elem_of_app in Hin as [Hin|Hin].
        * now apply Hvh.
        * apply list_elem_of_singleton in Hin. now subst c.
    - cbn [completedTargets targets currentTarget say]. rewrite Hh', Ht'.
      split; [now left|]. split; [lia|]. intros [Hvc Hvh]. split.
      + intros r'. cbn [currentTarget targets say]. rewrite Hc', Ht'. apply Hvc.
      + intros c. cbn [completedTargets targets say]. rewrite Hh', Ht'. apply Hvh. }
  destruct (spawnerPosition t) as [p|] eqn:Hp.
  - destruct (isSpawnerBlockPresent cfg (world st) p) eqn:Hlive.
    + rewrite (terraformStep_grow cfg now rnd1 rnd2 st r t Hcur Ht Hact); [exact Hgrow|].
      intros q Hq. congruence.
    + rewrite (terraformStep_destroyed cfg now rnd1 rnd2 st r t p Hcur Ht Hact Hp Hlive).
      destruct (selectNewTarget_references cfg now rnd1 (afterLoss r t p st)) as (Hh1 & Hlen1 & Hval1).
      destruct (selectNewTarget_references cfg now rnd2
                  (forget p (selectNewTarget cfg now rnd1 (afterLoss r t p st))))
        as (Hh2 & Hlen2 & Hval2).
      cbn [completedTargets targets forget afterLoss set_spawnerPositions set_targets say]
        in Hh1, Hlen1, Hh2, Hlen2.
      rewrite length_insert in Hlen1.
      split; [left; now rewrite Hh2, Hh1|]. split; [lia|].
      intros [Hvc Hvh]. apply Hval2.
      assert (Hv1 : referencesValid (selectNewTarget cfg now rnd1 (afterLoss r t p st))).
      { apply Hval1. split.
        - intros r'. cbn. rewrite length_insert. apply Hvc.
        - intros c. cbn. rewrite length_insert. apply Hvh. }
      exact Hv1.
  - rewrite (terraformStep_grow cfg now rnd1 rnd2 st r t Hcur Ht Hact); [exact Hgrow|].
    intros q Hq. congruence.
Qed.

Lemma historyGrows_refl st : historyGrows st st.
Proof. split; [exists []; now rewrite app_nil_r|]. split; [lia|done]. Qed.

Lemma historyGrows_trans st1 st2 st3 :
  historyGrows st1 st2 → historyGrows st2 st3 → historyGrows st1 st3.
Proof.
  intros ([m1 H1] & Hl1 & Hv1) ([m2 H2] & Hl2 & Hv2).
  split; [exists (m1 ++ m2); now rewrite H2, H1, app_assoc|]. split; [lia|auto].
Qed.

Lemma handle_historyGrows sys e :
  historyGrows (Lifecycle.fields (fst sys)) (Lifecycle.fields (fst (Lifecycle.handle sys e))).
Proof.
  assert (Hselect : ∀ cfg now rnd st, historyGrows st (selectNewTarget cfg now rnd st)).
  { intros cfg now rnd st.
    destruct (selectNewTarget_references cfg now rnd st) as (Hh & Hlen & Hval).
    split; [exists []; now rewrite app_nil_r|]. split; [exact Hlen|exact Hval]. }
  assert (Hstart : ∀ now rnd, historyGrows (Lifecycle.fields (fst sys))
                                (Lifecycle.fields (fst (Lifecycle.start now rnd sys)))).
  { intros now rnd. destruct sys as [this tm]. unfold Lifecycle.start. cbn [fst].
    destruct (Lifecycle.isActive this); [apply historyGrows_refl|]. cbn. apply Hselect. }
  assert (Hstop : historyGrows (Lifecycle.fields (fst sys))
                    (Lifecycle.fields (fst (Lifecycle.stop sys)))).
  { destruct sys as [this tm]. unfold Lifecycle.stop. cbn [fst].
    destruct (Lifecycle.isActive this); [|apply historyGrows_refl]. cbn.
    destruct (Lifecycle.intervalId this); apply historyGrows_refl. }
  destruct e as [now rnd| |now rnd|id now rnd1 rnd2|]; cbn [Lifecycle.handle].
  - apply Hstart.
  - apply Hstop.
  - unfold Lifecycle.toggle. destruct (Lifecycle.status_isActive _); [apply Hstop|apply Hstart].
  - destruct sys as [this tm]. unfold Lifecycle.fire.
    destruct (existsb _ _); [|apply historyGrows_refl]. cbn.
    destruct (terraformStep_references (Lifecycle.options this) now rnd1 rnd2 (Lifecycle.fields this))
      as (Hh & Hlen & Hval).
    split; [|split; [exact Hlen|exact Hval]].
    destruct Hh as [->|(r & _ & ->)]; [exists []; now rewrite app_nil_r|now exists [r]].
  - destruct sys as [this tm].
    change (historyGrows (Lifecycle.fields this)
              (set_spawnerPositions []
                 (Lifecycle.clearCells (spawnerPositions (Lifecycle.fields this))
                    (Lifecycle.fields this)))).
    destruct (clearCells_frame (spawnerPositions (Lifecycle.fields this)) (Lifecycle.fields this))
      as (Ht & Hc & Hh & _).
    unfold historyGrows, referencesValid.
    cbn [completedTargets targets currentTarget set_spawnerPositions].
    rewrite Ht, Hc, Hh. split; [exists []; now rewrite app_nil_r|]. split; [lia|done].
Qed.

Lemma run_historyGrows events sys :
  historyGrows (Lifecycle.fields (fst sys)) (Lifecycle.fields (fst (Lifecycle.run events sys))).
Proof.
  revert sys. induction events as [|e events IH]; intros sys; [apply historyGrows_refl|].
  cbn [Lifecycle.run fold_left].
  exact (historyGrows_trans _ _ _ (handle_historyGrows sys e) (IH (Lifecycle.handle sys e))).
Qed.

(** X12. The history only grows.  Over any sequence of events on a new
    instance, what [getCompletedTargets] returns later extends what it
    returned earlier, the store of targets never shrinks, the current
    target and every archived target are objects of the store, and one
    tick appends at most one reference to the history, that of the
    current target. *)
Theorem history_is_append_only (world0 : World) (given : OptionsGiven)
        (before after : list Lifecycle.Event) :
  let earlier := fst (Lifecycle.run before (Lifecycle.create world0 given)) in
  let later := fst (Lifecycle.run (before ++ after) (Lifecycle.create world0 given)) in
  (∃ more, Lifecycle.getCompletedTargets later = Lifecycle.getCompletedTargets earlier ++ more) ∧
  (length (targets (Lifecycle.fields earlier)) <= length (targets (Lifecycle.fields later)))%nat ∧
  (∀ r, currentTarget (Lifecycle.fields later) = Some r →
        is_Some (targets (Lifecycle.fields later) !! r)) ∧
  (∀ c, c ∈ Lifecycle.getCompletedTargets later →
        is_Some (targets (Lifecycle.fields later) !! c)) ∧
  (∀ now rnd1 rnd2,
     let st := Lifecycle.fields later in
     let st' := terraformStep (Lifecycle.options later) now rnd1 rnd2 st in
     completedTargets st' = completedTargets st ∨
     ∃ r, currentTarget st = Some r ∧ completedTargets st' = completedTargets st ++ [r]).
Proof.
  intros earlier later.
  assert (Hlater : later = fst (Lifecycle.run after
                                  (Lifecycle.run before (Lifecycle.create world0 given)))).
  { unfold later, Lifecycle.run. now rewrite fold_left_app. }
  destruct (run_historyGrows after (Lifecycle.run before (Lifecycle.create world0 given)))
    as (Hmore & Hlen & _).
  rewrite <- Hlater in Hmore, Hlen. fold earlier in Hmore, Hlen.
  destruct (run_historyGrows (before ++ after) (Lifecycle.create world0 given)) as (_ & _ & Hval).
  fold later in Hval.
  destruct Hval as [Hvc Hvh].
  { split; [discriminate|]. intros c Hc. inversion Hc. }
  split; [exact Hmore|]. split; [exact Hlen|].
  split; [intros r Hr; apply lookup_lt_is_Some; now apply Hvc|].
  split; [intros c Hc; apply lookup_lt_is_Some; now apply Hvh|].
  intros now rnd1 rnd2.
  exact (proj1 (terraformStep_references (Lifecycle.options later) now rnd1 rnd2
                  (Lifecycle.fields later))).
Qed.

(** ** Which cell a sweep writes *)

Lemma probe_lower w x z n k :
  0 <= k < Z.of_nat n → hasBlockAt w x k z = true → k <= probe w x z n.
Proof.
  induction n as [|n IH]; intros Hk Hblock; [lia|]. cbn [probe].
  destruct (hasBlockAt w x (Z.of_nat n) z) eqn:Hn.
  - lia.
  - destruct (decide (k = Z.of_nat n)) as [->|Hne]; [congruence|]. apply IH; [lia|exact Hblock].
Qed.

(** The cell right above the highest block of a column holds no block. *)
Lemma above_the_top_is_free cfg w x z :
  getCurrentHeight cfg w x z + 1 <= targetHeight cfg + 10 →
  hasBlockAt w x (getCurrentHeight cfg w x z + 1) z = false.
Proof.
  intros Hin. apply (probe_above w x z (Z.to_nat (targetHeight cfg + 10 + 1))).
  unfold getCurrentHeight in *.
  pose proof (probe_range w x z (Z.to_nat (targetHeight cfg + 10 + 1))). lia.
Qed.

Lemma getCurrentHeight_raised cfg w w' x z b :
  columnRaised w w' x z (getCurrentHeight cfg w x z + 1) b →
  b ≠ 0 →
  unreadable w (x, getCurrentHeight cfg w x z + 1, z) = false →
  getCurrentHeight cfg w x z + 1 <= targetHeight cfg + 10 →
  getCurrentHeight cfg w' x z = getCurrentHeight cfg w x z + 1.
Proof.
  intros Hraised Hb Hrd Hin.
  pose proof (getCurrentHeight_columnRaised cfg w w' x z b Hraised) as Hle.
  destruct Hraised as (Hr & _ & Hc).
  assert (Hblock : hasBlockAt w' x (getCurrentHeight cfg w x z + 1) z = true).
  { unfold hasBlockAt, getBlockId. rewrite Hr, Hrd, Hc, lookup_insert_eq. cbn.
    apply negb_true_iff, Z.eqb_neq, Hb. }
  assert (Hge : getCurrentHeight cfg w x z + 1 <= getCurrentHeight cfg w' x z).
  { unfold getCurrentHeight at 2. apply probe_lower; [|exact Hblock].
    pose proof (probe_range w x z (Z.to_nat (targetHeight cfg + 10 + 1))).
    unfold getCurrentHeight in *. lia. }
  lia.
Qed.

(** A column that the loops reach with a block to place, and whose cell
    takes the write, is raised. *)
Lemma fold_terraformColumn_raises cfg t maxRadius wave columns acc x z :
  NoDup columns → (x, z) ∈ columns →
  isWithinBounds cfg x z = true →
  sqrt_gt (columnDistance2 t x z) wave = false →
  let w := world (zone acc) in
  let h := targetHeightForPosition (target_y t) (columnDistance2 t x z) maxRadius in
  1 <= h → getCurrentHeight cfg w x z < h →
  unwritable w (x, getCurrentHeight cfg w x z + 1, z) = false →
  columnRaised w (world (zone (fold_left (terraformColumn cfg t maxRadius wave) columns acc)))
               x z (getCurrentHeight cfg w x z + 1) (blockTypeId cfg).
Proof.
  intros Hnd. revert acc. induction Hnd as [|[cx cz] columns Hnotin Hnd IH];
    intros acc Hin Hb Hw w h H1 Hlt Hwr; [inversion Hin|].
  cbn [fold_left].
  destruct (decide ((x, z) = (cx, cz))) as [[= <- <-]|Hne].
  - assert (Hrest : sameColumn (world (zone (terraformColumn cfg t maxRadius wave acc (x, z))))
                      (world (zone (fold_left (terraformColumn cfg t maxRadius wave) columns
                         (terraformColumn cfg t maxRadius wave acc (x, z))))) x z).
    { destruct (fold_terraformColumn_column cfg t maxRadius wave columns
                  (terraformColumn cfg t maxRadius wave acc (x, z)) x z Hnd)
        as [Hsame|(Hin' & _)]; [exact Hsame|contradiction]. }
    destruct (terraformColumn_cases cfg t maxRadius wave acc x z)
      as [[Hb' _]|[(_ & Hw' & _)|[(_ & _ & Hsat & _)|(_ & _ & _ & _ & Hout)]]];
      [congruence|congruence|fold w h in Hsat; lia|].
    rewrite Hout in Hrest |- *. cbn [zone] in Hrest |- *.
    eapply columnRaised_before_same; [|exact Hrest].
    destruct (setBlock_world_cases x (getCurrentHeight cfg (world (zone acc)) x z + 1) z
                (blockTypeId cfg) (zone acc)) as [[Hu _]|[_ ->]]; [fold w in Hu; congruence|].
    done.
  - apply elem_of_cons in Hin as [Heq|Hin]; [congruence|].
    pose proof (terraformColumn_other_column cfg t maxRadius wave acc cx cz x z Hne) as Hstep.
    pose proof (getCurrentHeight_sameColumn cfg _ _ _ _ Hstep) as Hheight.
    fold w in Hstep, Hheight.
    eapply columnRaised_after_same; [exact Hstep|].
    rewrite <- Hheight. apply IH; try assumption.
    + rewrite Hheight. exact Hlt.
    + rewrite Hheight. destruct Hstep as (_ & -> & _). exact Hwr.
Qed.

(** The one cell of a column that a sweep changes. *)
Lemma sweep_changed_cell cfg now t st x y z :
  target_y t <= targetHeight cfg + 10 →
  cells (world (zone (sweep cfg now t st))) !! (x, y, z) ≠ cells (world st) !! (x, y, z) →
  y = getCurrentHeight cfg (world st) x z + 1 ∧
  hasBlockAt (world st) x y z = false ∧
  cells (world (zone (sweep cfg now t st))) !! (x, y, z) = Some (IdNum (blockTypeId cfg)).
Proof.
  intros Hy Hne. set (sw := sweep cfg now t st) in *.
  pose proof (fold_terraformColumn_column cfg t (terraformSize cfg / 2)
                (currentWaveRadius cfg now t)
                (windowColumns (target_x t) (target_z t) (terraformSize cfg / 2))
                (mkSweep st 0 true) x z (NoDup_windowColumns _ _ _)) as Heffect.
  cbv zeta in Heffect. cbn [zone] in Heffect.
  change (fold_left _ _ _) with sw in Heffect.
  destruct Heffect as [(_ & _ & Hsame)|(_ & _ & _ & H1 & Hlt & (_ & _ & Hc))].
  { exfalso. apply Hne, Hsame. }
  assert (Heq : y = getCurrentHeight cfg (world st) x z + 1).
  { destruct (decide (y = getCurrentHeight cfg (world st) x z + 1)) as [Heq|Hother];
      [exact Heq|].
    exfalso. apply Hne. rewrite Hc. apply lookup_insert_ne. congruence. }
  split; [exact Heq|]. subst y. split.
  - apply above_the_top_is_free.
    pose proof (targetHeightForPosition_le (target_y t) (columnDistance2 t x z)
                  (terraformSize cfg / 2) (columnDistance2_nonneg t x z) H1). lia.
  - rewrite Hc. apply lookup_insert_eq.
Qed.

Lemma sweep_throws_alike cfg now t st :
  unreadable (world (zone (sweep cfg now t st))) = unreadable (world st) ∧
  unwritable (world (zone (sweep cfg now t st))) = unwritable (world st).
Proof.
  destruct (fold_terraformColumn_writtenWithin cfg t (terraformSize cfg / 2)
              (currentWaveRadius cfg now t)
              (windowColumns (target_x t) (target_z t) (terraformSize cfg / 2))
              (mkSweep st 0 true)) as (Hr & Hu & _). split; [exact Hr|exact Hu].
Qed.

Lemma sweep_keeps_blocks cfg now t st x y z :
  target_y t <= targetHeight cfg + 10 →
  hasBlockAt (world st) x y z = true →
  getBlockId (world (zone (sweep cfg now t st))) (x, y, z) = getBlockId (world st) (x, y, z).
Proof.
  intros Hy Hblock. unfold getBlockId. rewrite (proj1 (sweep_throws_alike cfg now t st)).
  destruct (decide (cells (world (zone (sweep cfg now t st))) !! (x, y, z)
                    = cells (world st) !! (x, y, z))) as [->|Hne]; [reflexivity|].
  destruct (sweep_changed_cell cfg now t st x y z Hy Hne) as (_ & Hfree & _). congruence.
Qed.

Lemma sweep_keeps_spawners cfg now t st p :
  target_y t <= targetHeight cfg + 10 → spawnerBlockId cfg ≠ 0 →
  isSpawnerBlockPresent cfg (world st) p = true →
  isSpawnerBlockPresent cfg (world (zone (sweep cfg now t st))) p = true.
Proof.
  intros Hy Hid Hlive. destruct p as [[x y] z]. unfold isSpawnerBlockPresent in *.
  rewrite sweep_keeps_blocks; [exact Hlive|exact Hy|].
  unfold hasBlockAt. destruct (getBlockId (world st) (x, y, z)) as [[n| |]|]; try discriminate.
  apply Z.eqb_eq in Hlive. subst n. apply negb_true_iff, Z.eqb_neq, Hid.
Qed.

Lemma sweep_raises_column cfg now t st x z :
  (x, z) ∈ windowColumns (target_x t) (target_z t) (terraformSize cfg / 2) →
  isWithinBounds cfg x z = true →
  sqrt_gt (columnDistance2 t x z) (currentWaveRadius cfg now t) = false →
  1 <= columnTargetHeight cfg t x z →
  getCurrentHeight cfg (world st) x z < columnTargetHeight cfg t x z →
  target_y t <= targetHeight cfg + 10 →
  blockTypeId cfg ≠ 0 →
  unwritable (world st) (x, getCurrentHeight cfg (world st) x z + 1, z) = false →
  unreadable (world st) (x, getCurrentHeight cfg (world st) x z + 1, z) = false →
  columnRaised (world st) (world (zone (sweep cfg now t st))) x z
               (getCurrentHeight cfg (world st) x z + 1) (blockTypeId cfg) ∧
  getCurrentHeight cfg (world (zone (sweep cfg now t st))) x z
    = getCurrentHeight cfg (world st) x z + 1.
Proof.
  intros Hin Hb Hw H1 Hlt Hy Hid Hwr Hrd.
  pose proof (fold_terraformColumn_raises cfg t (terraformSize cfg / 2)
                (currentWaveRadius cfg now t)
                (windowColumns (target_x t) (target_z t) (terraformSize cfg / 2))
                (mkSweep st 0 true) x z
                (NoDup_windowColumns _ _ _) Hin Hb Hw H1 Hlt Hwr) as Hraised.
  cbn [zone] in Hraised. change (fold_left _ _ _) with (sweep cfg now t st) in Hraised.
  split; [exact Hraised|].
  apply (getCurrentHeight_raised cfg _ _ x z _ Hraised Hid Hrd).
  pose proof (targetHeightForPosition_le (target_y t) (columnDistance2 t x z)
                (terraformSize cfg / 2) (columnDistance2_nonneg t x z) H1).
  unfold columnTargetHeight in Hlt. lia.
Qed.

(** X13. A growth step only fills the free cell directly above the top of
    a column.  For a target no higher than the levels that
    [getCurrentHeight] scans (up to [targetHeight + 10]), every cell that
    the step changes read as free, lies one level above the height of its
    column before the step, and now holds the terraforming block; every
    cell that held a block reads as before, so (the spawner block not
    being air) a spawner that is in the grid is never overwritten by the
    growth. *)
Theorem sweep_fills_the_cell_above (cfg : TerraformingOptions) (now : Z)
        (t : TerraformingTarget) (st : Terraforming) :
  target_y t <= targetHeight cfg + 10 →
  let sw := sweep cfg now t st in
  (∀ x y z, cells (world (zone sw)) !! (x, y, z) ≠ cells (world st) !! (x, y, z) →
     y = getCurrentHeight cfg (world st) x z + 1 ∧
     hasBlockAt (world st) x y z = false ∧
     cells (world (zone sw)) !! (x, y, z) = Some (IdNum (blockTypeId cfg))) ∧
  (∀ x y z, hasBlockAt (world st) x y z = true →
     getBlockId (world (zone sw)) (x, y, z) = getBlockId (world st) (x, y, z)) ∧
  (spawnerBlockId cfg ≠ 0 →
   ∀ p, isSpawnerBlockPresent cfg (world st) p = true →
        isSpawnerBlockPresent cfg (world (zone sw)) p = true).
Proof.
  intros Hy sw. split; [|split].
  - intros x y z. now apply sweep_changed_cell.
  - intros x y z. now apply sweep_keeps_blocks.
  - intros Hid p. now apply sweep_keeps_spawners.
Qed.

Lemma sweep_fills_the_cell_above_witness :
  isSpawnerBlockPresent hillZone (world (zone (sweep hillZone 2000 hillTarget hillGrown))) (0, 2, 0)
  = true.
Proof.
  refine (proj2 (proj2 (sweep_fills_the_cell_above hillZone 2000 hillTarget hillGrown _))
            _ (0, 2, 0) _).
  - vm_compute. discriminate.
  - discriminate.
  - reflexivity.
Defined.



(** ** Growth ends *)

Lemma terraformStep_keeps_history cfg now rnd1 rnd2 st c :
  c ∈ completedTargets st → c ∈ completedTargets (terraformStep cfg now rnd1 rnd2 st).
Proof.
  intros Hc. destruct (terraformStep_references cfg now rnd1 rnd2 st) as [[->|(r & _ & ->)] _];
    [exact Hc|]. apply elem_of_app. now left.
Qed.

Lemma runSchedule_keeps_history cfg ticks st c :
  c ∈ completedTargets st → c ∈ completedTargets (runSchedule cfg ticks st).
Proof.
  revert st. induction ticks as [|k ticks IH]; intros st Hc; [exact Hc|].
  unfold runSchedule in *. cbn [fold_left]. apply IH. now apply terraformStep_keeps_history.
Qed.

Lemma terraformStep_progress cfg now rnd1 rnd2 st r t k :
  blockTypeId cfg ≠ 0 → spawnerBlockId cfg ≠ 0 →
  isActive t = true → target_y t <= targetHeight cfg + 10 →
  waveCovers cfg now t → growing cfg r t st → deficitAtMost cfg t k (world st) → 0 <= k →
  let st' := terraformStep cfg now rnd1 rnd2 st in
  r ∈ completedTargets st' ∨
  (1 <= k ∧ growing cfg r t st' ∧ deficitAtMost cfg t (k - 1) (world st')).
Proof.
  intros Hid Hsid Hact Hy Hcovers ((Hrd & Hwr) & Hcur & Ht & Hlive) Hdeficit Hk. cbv zeta.
  rewrite (terraformStep_grow cfg now rnd1 rnd2 st r t Hcur Ht Hact Hlive).
  unfold finishStep.
  destruct (fold_terraformColumn_frame cfg t (terraformSize cfg / 2)
              (currentWaveRadius cfg now t)
              (windowColumns (target_x t) (target_z t) (terraformSize cfg / 2))
              (mkSweep st 0 true)) as (Ht' & Hc' & Hh' & _).
  change (fold_left _ _ _) with (sweep cfg now t st) in Ht', Hc', Hh'.
  cbn [zone] in Ht', Hc', Hh'.
  destruct (targetComplete (sweep cfg now t st)) eqn:Hdone.
  - left. set (s := set_completedTargets _ _).
    destruct (selectNewTarget_frame cfg now rnd1 s) as (_ & -> & _).
    subst s. cbn [completedTargets set_completedTargets say].
    apply elem_of_app. right. now left.
  - right.
    assert (Hk1 : 1 <= k).
    { destruct (Z_lt_le_dec k 1) as [Hlt|Hge]; [|exact Hge]. exfalso.
      assert (Hidle : sweep cfg now t st = mkSweep st 0 true).
      { unfold sweep. cbv zeta. apply fold_terraformColumn_idle.
        intros x z Hin Hb. split; [now apply Hcovers|]. cbn [zone].
        destruct (Z_lt_le_dec (targetHeightForPosition (target_y t) (columnDistance2 t x z)
                                 (terraformSize cfg / 2)) 1) as [Hlow|Hhigh]; [now left|].
        right. specialize (Hdeficit x z Hin Hb Hhigh). unfold columnTargetHeight in Hdeficit.
        lia. }
      rewrite Hidle in Hdone. discriminate. }
    split; [exact Hk1|].
    destruct (sweep_throws_alike cfg now t st) as [Hr Hu].
    unfold growing, deficitAtMost. cbn [world targets currentTarget say]. split.
    + split; [split; intros p; [rewrite Hr|rewrite Hu]; auto|].
      split; [etrans; [exact Hc'|exact Hcur]|]. split; [now rewrite Ht'|].
      intros p Hp. apply sweep_keeps_spawners; auto.
    + intros x z Hin Hb H1.
      destruct (Z_lt_le_dec (getCurrentHeight cfg (world st) x z) (columnTargetHeight cfg t x z))
        as [Hlt|Hge].
      * destruct (sweep_raises_column cfg now t st x z Hin Hb (Hcovers x z Hin Hb) H1 Hlt Hy Hid
                    (Hwr _) (Hrd _)) as [_ ->].
        specialize (Hdeficit x z Hin Hb H1). lia.
      * pose proof (fold_terraformColumn_column cfg t (terraformSize cfg / 2)
                      (currentWaveRadius cfg now t)
                      (windowColumns (target_x t) (target_z t) (terraformSize cfg / 2))
                      (mkSweep st 0 true) x z (NoDup_windowColumns _ _ _)) as Heffect.
        cbv zeta in Heffect. cbn [zone] in Heffect.
        change (fold_left _ _ _) with (sweep cfg now t st) in Heffect.
        destruct Heffect as [Hsame|(_ & _ & _ & _ & Hlt & _)].
        -- rewrite (getCurrentHeight_sameColumn cfg _ _ _ _ Hsame). lia.
        -- unfold columnTargetHeight in Hge. lia.
Qed.

Lemma runSchedule_completes cfg now r t (k : nat) :
  0 < intervalMs cfg → (0 <= elevationSpeed cfg)%Q →
  blockTypeId cfg ≠ 0 → spawnerBlockId cfg ≠ 0 →
  isActive t = true → target_y t <= targetHeight cfg + 10 →
  waveCovers cfg now t →
  ∀ ticks st,
    (S k <= length ticks)%nat →
    (∀ tick, tick ∈ ticks → now <= clock tick) →
    growing cfg r t st → deficitAtMost cfg t (Z.of_nat k) (world st) →
    r ∈ completedTargets (runSchedule cfg ticks st).
Proof.
  intros Hms Hspeed Hid Hsid Hact Hy Hcovers.
  assert (Hlater : ∀ now', now <= now' → waveCovers cfg now' t).
  { intros now' Hle x z Hin Hb.
    exact (sqrt_gt_mono _ _ _ (currentWaveRadius_mono cfg now now' t Hms Hspeed Hle)
             (Hcovers x z Hin Hb)). }
  induction k as [|k IH]; intros ticks st Hlen Hclock Hgrowing Hdeficit;
    (destruct ticks as [|tick ticks]; [cbn in Hlen; lia|]);
    unfold runSchedule; cbn [fold_left];
    fold (runSchedule cfg ticks (terraformStep cfg (clock tick) (draws1 tick) (draws2 tick) st));
    (assert (Hnow : now <= clock tick) by (apply Hclock; now left));
    destruct (terraformStep_progress cfg (clock tick) (draws1 tick) (draws2 tick) st r t _
                Hid Hsid Hact Hy (Hlater _ Hnow) Hgrowing Hdeficit (Nat2Z.is_nonneg _))
      as [Hdone|(Hk1 & Hgrowing' & Hdeficit')];
    try (now apply runSchedule_keeps_history); try (cbn in Hk1; lia).
  apply IH; [cbn in Hlen; lia| |exact Hgrowing'|].
  - intros tick' Hin. apply Hclock. now right.
  - replace (Z.of_nat k) with (Z.of_nat (S k) - 1) by lia. exact Hdeficit'.
Qed.



(** ** The earlier variant: where a target is put *)

Lemma Qfloor_scaled (u : Q) (n : Z) :
  (0 <= u)%Q → (u < 1)%Q → 0 < n → 0 <= Qfloor (u * inject_Z n) < n.
Proof.
  intros H0 H1 Hn.
  assert (Hnq : (0 < inject_Z n)%Q) by (change 0%Q with (inject_Z 0); now rewrite <- Zlt_Qlt).
  split.
  - change 0 with (Qfloor 0). apply Qfloor_resp_le. Lqa.nra.
  - rewrite Zlt_Qlt. pose proof (Qfloor_le (u * inject_Z n)). Lqa.nra.
Qed.

(** X16. The variant without spawners picks its targets so that the whole
    window fits the zone.  For draws in [0, 1) and a non-negative
    [terraformSize] below [2 * floor (size / 2)], the selection leaves
    the grid alone and sets a target with the target height and the clock
    reading whose every window column is inside the bounds; no window
    column lies in the last row or the last column of the zone. *)
Theorem legacy_target_window_inside (cfg : TerraformingOptions) (now : Z) (u v : Q)
        (st : Legacy.State) :
  (0 <= u)%Q → (u < 1)%Q → (0 <= v)%Q → (v < 1)%Q →
  0 <= terraformSize cfg → terraformSize cfg < 2 * (size cfg / 2) →
  let st' := Legacy.selectNewTarget cfg now u v st in
  Legacy.world st' = Legacy.world st ∧
  ∃ t, Legacy.currentTarget st' = Some t ∧
       Legacy.y t = targetHeight cfg ∧ Legacy.startTime t = now ∧
       ∀ x z, (x, z) ∈ windowColumns (Legacy.x t) (Legacy.z t) (terraformSize cfg / 2) →
              isWithinBounds cfg x z = true ∧
              x < centerX cfg + size cfg / 2 - 1 ∧ z < centerZ cfg + size cfg / 2 - 1.
Proof.
  intros Hu0 Hu1 Hv0 Hv1 Hts Hfits st'. split; [reflexivity|].
  eexists. split; [reflexivity|]. cbn [Legacy.x Legacy.y Legacy.z Legacy.startTime].
  split; [reflexivity|]. split; [reflexivity|].
  intros x z Hin. apply elem_of_windowColumns in Hin. rewrite isWithinBounds_spec.
  set (half := size cfg / 2) in *. set (th := terraformSize cfg / 2) in *.
  assert (Hth : 2 * th <= terraformSize cfg).
  { subst th. pose proof (Z.mul_div_le (terraformSize cfg) 2). lia. }
  replace (centerX cfg + half - 1 - (centerX cfg - half) + 1 - terraformSize cfg)
    with (2 * half - terraformSize cfg) in Hin by lia.
  replace (centerZ cfg + half - 1 - (centerZ cfg - half) + 1 - terraformSize cfg)
    with (2 * half - terraformSize cfg) in Hin by lia.
  pose proof (Qfloor_scaled u (2 * half - terraformSize cfg) Hu0 Hu1 ltac:(lia)) as Hx.
  pose proof (Qfloor_scaled v (2 * half - terraformSize cfg) Hv0 Hv1 ltac:(lia)) as Hz.
  lia.
Qed.

Lemma legacy_target_window_inside_witness :
  ∃ t, Legacy.currentTarget
         (Legacy.selectNewTarget demoZone 0 (1 # 2) (3 # 4) (Legacy.mkLegacy emptyWorld None []))
       = Some t ∧
       ∀ x z, (x, z) ∈ windowColumns (Legacy.x t) (Legacy.z t) (terraformSize demoZone / 2) →
              isWithinBounds demoZone x z = true ∧
              x < centerX demoZone + size demoZone / 2 - 1 ∧
              z < centerZ demoZone + size demoZone / 2 - 1.
Proof.
  destruct (legacy_target_window_inside demoZone 0 (1 # 2) (3 # 4)
              (Legacy.mkLegacy emptyWorld None []))
    as (_ & t & Ht & _ & _ & Hwin); try by_computation.
  exists t. split; [exact Ht|exact Hwin].
Defined.

(** ** The earlier variant: what a tick writes *)

Lemma legacy_selectNewTarget_world cfg now u v st :
  Legacy.world (Legacy.selectNewTarget cfg now u v st) = Legacy.world st.
Proof. reflexivity. Qed.

(** X17. A tick of the variant without spawners writes the terraforming
    block and nothing else, only in window columns of its current target
    that are inside the bounds, and only at levels from 0 to the height
    of the column on the hill; the coordinates at which the grid throws
    do not change; without a current target the tick writes nothing; and
    after every tick there is a current target. *)
Theorem legacy_tick_stays_in_zone (cfg : TerraformingOptions) (now : Z) (u v : Q)
        (st : Legacy.State) :
  let w := Legacy.world st in
  let w' := Legacy.world (Legacy.terraformStep cfg now u v st) in
  unreadable w' = unreadable w ∧ unwritable w' = unwritable w ∧
  (Legacy.currentTarget st = None → w' = w) ∧
  (∀ x y z, cells w' !! (x, y, z) ≠ cells w !! (x, y, z) →
     isWithinBounds cfg x z = true ∧
     cells w' !! (x, y, z) = Some (IdNum (blockTypeId cfg)) ∧
     ∃ t, Legacy.currentTarget st = Some t ∧
          (x, z) ∈ windowColumns (Legacy.x t) (Legacy.z t) (terraformSize cfg / 2) ∧
          0 <= y <= columnTargetHeight cfg (Legacy.asTarget t) x z) ∧
  is_Some (Legacy.currentTarget (Legacy.terraformStep cfg now u v st)).
Proof.
  intros w w'. subst w w'. unfold Legacy.terraformStep.
  destruct (Legacy.currentTarget st) as [t|] eqn:Hcur.
  2:{ cbn. split; [done|]. split; [done|]. split; [done|]. split; [|eauto].
      intros x y z Hne. contradiction. }
  set (st0 := mkState (Legacy.world st) [] None [] [] false (Legacy.console st)).
  pose proof (fold_terraformColumn_column cfg (Legacy.asTarget t) (terraformSize cfg / 2)
                (currentWaveRadius cfg now (Legacy.asTarget t))
                (windowColumns (Legacy.x t) (Legacy.z t) (terraformSize cfg / 2))
                (mkSweep st0 0 true)) as Heffect.
  destruct (fold_terraformColumn_writtenWithin cfg (Legacy.asTarget t) (terraformSize cfg / 2)
              (currentWaveRadius cfg now (Legacy.asTarget t))
              (windowColumns (Legacy.x t) (Legacy.z t) (terraformSize cfg / 2))
              (mkSweep st0 0 true)) as (Hr & Hu & _).
  change (fold_left _ _ _) with (sweep cfg now (Legacy.asTarget t) st0) in Hr, Hu.
  cbn [zone] in Hr, Hu. change (world st0) with (Legacy.world st) in Hr, Hu.
  assert (Hworld : Legacy.world
            (if targetComplete (sweep cfg now (Legacy.asTarget t) st0)
             then Legacy.selectNewTarget cfg now u v
                    (Legacy.mkLegacy (Legacy.gridOf (zone (sweep cfg now (Legacy.asTarget t) st0)))
                       (Some t)
                       (LogHillCompleted
                        :: LogStep (blocksModified (sweep cfg now (Legacy.asTarget t) st0))
                             (currentWaveRadius cfg now (Legacy.asTarget t))
                        :: Legacy.consoleOf (zone (sweep cfg now (Legacy.asTarget t) st0))))
             else Legacy.mkLegacy (Legacy.gridOf (zone (sweep cfg now (Legacy.asTarget t) st0)))
                    (Some t)
                    (LogStep (blocksModified (sweep cfg now (Legacy.asTarget t) st0))
                       (currentWaveRadius cfg now (Legacy.asTarget t))
                     :: Legacy.consoleOf (zone (sweep cfg now (Legacy.asTarget t) st0))))
          = world (zone (sweep cfg now (Legacy.asTarget t) st0)) ∧
          is_Some (Legacy.currentTarget
            (if targetComplete (sweep cfg now (Legacy.asTarget t) st0)
             then Legacy.selectNewTarget cfg now u v
                    (Legacy.mkLegacy (Legacy.gridOf (zone (sweep cfg now (Legacy.asTarget t) st0)))
                       (Some t)
                       (LogHillCompleted
                        :: LogStep (blocksModified (sweep cfg now (Legacy.asTarget t) st0))
                             (currentWaveRadius cfg now (Legacy.asTarget t))
                        :: Legacy.consoleOf (zone (sweep cfg now (Legacy.asTarget t) st0))))
             else Legacy.mkLegacy (Legacy.gridOf (zone (sweep cfg now (Legacy.asTarget t) st0)))
                    (Some t)
                    (LogStep (blocksModified (sweep cfg now (Legacy.asTarget t) st0))
                       (currentWaveRadius cfg now (Legacy.asTarget t))
                     :: Legacy.consoleOf (zone (sweep cfg now (Legacy.asTarget t) st0)))))).
  { destruct (targetComplete (sweep cfg now (Legacy.asTarget t) st0)); cbn; eauto. }
  cbv zeta. cbn [Legacy.world Legacy.currentTarget Legacy.console].
  destruct Hworld as [-> Hsome].
  split; [exact Hr|]. split; [exact Hu|]. split; [discriminate|]. split; [|exact Hsome].
  intros x y z Hne.
  specialize (Heffect x z (NoDup_windowColumns _ _ _)). cbv zeta in Heffect.
  cbn [zone] in Heffect. change (world st0) with (Legacy.world st) in Heffect.
  change (fold_left _ _ _) with (sweep cfg now (Legacy.asTarget t) st0) in Heffect.
  destruct Heffect as [(_ & _ & Hsame)|(Hin & Hb & _ & H1 & Hlt & (_ & _ & Hc))].
  { exfalso. apply Hne, Hsame. }
  assert (Hy : y = getCurrentHeight cfg (Legacy.world st) x z + 1).
  { destruct (decide (y = getCurrentHeight cfg (Legacy.world st) x z + 1)) as [Heq|Hother];
      [exact Heq|].
    exfalso. apply Hne. rewrite Hc. apply lookup_insert_ne. congruence. }
  subst y. split; [exact Hb|]. split; [rewrite Hc; apply lookup_insert_eq|].
  exists t. split; [reflexivity|]. split; [exact Hin|].
  pose proof (probe_range (Legacy.world st) x z (Z.to_nat (targetHeight cfg + 10 + 1))).
  unfold columnTargetHeight, getCurrentHeight in *. cbn [target_x target_z Legacy.asTarget] in *.
  lia.
Qed.

(** ** Block breaking *)

Lemma getBreakThreshold_range (blockId : Z) :
  8 <= TerrainManager.getBreakThreshold blockId <= 25.
Proof.
  unfold TerrainManager.getBreakThreshold, TerrainManager.thresholds. cbn [List.find fst snd].
  repeat (match goal with |- context [if ?c =? blockId then _ else _] =>
                            destruct (c =? blockId); [cbn; lia|] end).
  lia.
Qed.

Lemma damageBlock_protected world damages block amount :
  bunkerFloor (TerrainManager.globalCoordinate block) →
  TerrainManager.damageBlock world damages block amount
  = TerrainManager.mkDamaged (Returns false) world damages.
Proof.
  unfold TerrainManager.damageBlock, bunkerFloor.
  destruct (TerrainManager.globalCoordinate block) as [[x y] z]. intros (Hx & Hz & ->).
  now rewrite (proj2 (Z.leb_le _ _) Hx), (proj2 (Z.leb_le _ _) Hz).
Qed.

Lemma bunkerFloor_test (x y z : Z) :
  (Z.abs x <=? 2) && (Z.abs z <=? 2) && (y =? 0) = false ↔ ¬ bunkerFloor (x, y, z).
Proof.
  unfold bunkerFloor. rewrite <- not_true_iff_false, !andb_true_iff, !Z.leb_le, Z.eqb_eq. tauto.
Qed.

(** A hit on a block outside the bunker floor whose damage stays below the threshold. *)
Lemma damageBlock_below world damages block amount :
  ¬ bunkerFloor (TerrainManager.globalCoordinate block) →
  let key := TerrainManager.globalCoordinate block in
  let tracker := default (TerrainManager.mkTracker (TerrainManager.blockType block) 0)
                         (damages !! key) in
  TerrainManager.damage tracker + amount
    < TerrainManager.getBreakThreshold (TerrainManager.blockType block) →
  TerrainManager.damageBlock world damages block amount
  = TerrainManager.mkDamaged (Returns false) world
      (<[key := TerrainManager.mkTracker (TerrainManager.blockId tracker)
                  (TerrainManager.damage tracker + amount)]> damages).
Proof.
  intros Hfree key tracker Hlow. subst key tracker. unfold TerrainManager.damageBlock.
  destruct (TerrainManager.globalCoordinate block) as [[x y] z].
  rewrite (proj2 (bunkerFloor_test x y z) Hfree). cbv zeta.
  cbn [TerrainManager.damage]. rewrite Z.geb_leb, (proj2 (Z.leb_gt _ _) Hlow). reflexivity.
Qed.

(** A hit that reaches the threshold. *)
Lemma damageBlock_reaches world damages block amount :
  ¬ bunkerFloor (TerrainManager.globalCoordinate block) →
  let key := TerrainManager.globalCoordinate block in
  let tracker := default (TerrainManager.mkTracker (TerrainManager.blockType block) 0)
                         (damages !! key) in
  TerrainManager.getBreakThreshold (TerrainManager.blockType block)
    <= TerrainManager.damage tracker + amount →
  TerrainManager.damageBlock world damages block amount
  = match lattice_setBlock world key 0 with
    | Returns world' => TerrainManager.mkDamaged (Returns true) world' (delete key damages)
    | Throws =>
        TerrainManager.mkDamaged Throws world
          (<[key := TerrainManager.mkTracker (TerrainManager.blockId tracker)
                      (TerrainManager.damage tracker + amount)]> damages)
    end.
Proof.
  intros Hfree key tracker Hhigh. subst key tracker. unfold TerrainManager.damageBlock.
  destruct (TerrainManager.globalCoordinate block) as [[x y] z].
  rewrite (proj2 (bunkerFloor_test x y z) Hfree). cbv zeta.
  cbn [TerrainManager.damage]. rewrite Z.geb_leb, (proj2 (Z.leb_le _ _) Hhigh).
  destruct (lattice_setBlock world (x, y, z) 0); [|reflexivity].
  now rewrite delete_insert_eq.
Qed.

Lemma damageBlocks_below (k : nat) world damages block amount :
  ¬ bunkerFloor (TerrainManager.globalCoordinate block) →
  damages !! TerrainManager.globalCoordinate block = None →
  0 < amount →
  Z.of_nat k * amount < TerrainManager.getBreakThreshold (TerrainManager.blockType block) →
  damageBlocks (replicate k (block, amount)) (world, damages)
  = (world,
     match k with
     | O => damages
     | S _ => <[TerrainManager.globalCoordinate block :=
                  TerrainManager.mkTracker (TerrainManager.blockType block)
                                            (Z.of_nat k * amount)]> damages
     end).
Proof.
  intros Hfree Hnew Hpos. induction k as [|k IH]; intros Hlow; [reflexivity|].
  replace (S k) with (k + 1)%nat at 1 by lia.
  rewrite replicate_add. unfold damageBlocks in *. rewrite fold_left_app, IH by lia.
  cbn [replicate fold_left fst snd].
  rewrite damageBlock_below; [| exact Hfree |].
  - cbn [TerrainManager.worldAfter TerrainManager.blockDamagesAfter]. f_equal.
    destruct k as [|k]; [rewrite Hnew; cbn; f_equal; f_equal; lia|].
    rewrite lookup_insert_eq. cbn. rewrite insert_insert_eq. f_equal. f_equal. lia.
  - destruct k as [|k]; [rewrite Hnew; cbn; lia|]. rewrite lookup_insert_eq. cbn. lia.
Qed.

Lemma hitsToBreak_spec (blockType amount : Z) :
  0 < amount →
  let n := Z.of_nat (hitsToBreak blockType amount) in
  1 <= n ∧ (n - 1) * amount < TerrainManager.getBreakThreshold blockType <= n * amount.
Proof.
  intros Hpos n. subst n. unfold hitsToBreak.
  pose proof (getBreakThreshold_range blockType) as Hrange.
  set (T := TerrainManager.getBreakThreshold blockType) in *.
  pose proof (Z.div_mod (T + amount - 1) amount ltac:(lia)) as Hdm.
  pose proof (Z.mod_pos_bound (T + amount - 1) amount Hpos) as Hmod.
  assert (Hq : 1 <= (T + amount - 1) / amount) by (apply Z.div_le_lower_bound; lia).
  rewrite Z2Nat.id by lia. split; [exact Hq|]. nia.
Qed.

Lemma damageBlocks_breaks world damages block amount :
  ¬ bunkerFloor (TerrainManager.globalCoordinate block) →
  damages !! TerrainManager.globalCoordinate block = None →
  0 < amount →
  let key := TerrainManager.globalCoordinate block in
  let n := hitsToBreak (TerrainManager.blockType block) amount in
  damageBlocks (replicate n (block, amount)) (world, damages)
  = match lattice_setBlock world key 0 with
    | Returns world' => (world', damages)
    | Throws => (world, <[key := TerrainManager.mkTracker (TerrainManager.blockType block)
                                  (Z.of_nat n * amount)]> damages)
    end.
Proof.
  intros Hfree Hnew Hpos key n.
  destruct (hitsToBreak_spec (TerrainManager.blockType block) amount Hpos) as [Hn1 Hn].
  fold n in Hn1, Hn.
  destruct n as [|k] eqn:Hk; [lia|].
  replace (S k) with (k + 1)%nat at 1 by lia.
  rewrite replicate_add. unfold damageBlocks. rewrite fold_left_app.
  fold (damageBlocks (replicate k (block, amount)) (world, damages)).
  rewrite damageBlocks_below by (try assumption; lia).
  assert (Htracker : default (TerrainManager.mkTracker (TerrainManager.blockType block) 0)
                      (match k with
                       | O => damages
                       | S _ => <[key := TerrainManager.mkTracker (TerrainManager.blockType block)
                                           (Z.of_nat k * amount)]> damages
                       end !! key)
                     = TerrainManager.mkTracker (TerrainManager.blockType block)
                                                (Z.of_nat k * amount)).
  { destruct k as [|k']; [fold key in Hnew; now rewrite Hnew|]. now rewrite lookup_insert_eq. }
  cbn [replicate fold_left fst snd].
  rewrite damageBlock_reaches; [|exact Hfree|fold key; rewrite Htracker; cbn; lia].
  fold key. rewrite Htracker. cbn [TerrainManager.damage TerrainManager.blockId].
  destruct (lattice_setBlock world key 0); cbn.
  - f_equal. destruct k as [|k']; [now apply delete_id|].
    rewrite delete_insert_eq. now apply delete_id.
  - f_equal. destruct k as [|k']; [f_equal; f_equal; lia|].
    rewrite insert_insert_eq. f_equal. f_equal. lia.
Qed.

(** X18. How many hits break a block.  Every threshold lies between 8 and
    25.  For a block off the bunker floor with no damage recorded, hit
    with a positive amount each time, the hit number
    n = ceil (threshold / amount) is the first that reaches the
    threshold.  The hits before it return false, leave the grid as it is
    and touch no other entry of the damage map.  The n-th returns true,
    turns the cell to air and removes the entry, so that the map is as it
    was before the first hit; if the grid refuses the write, the n-th hit
    throws instead, the block stays, and the entry stays with a damage at
    or above the threshold. *)
Theorem hits_to_break (world : World) (damages : TerrainManager.Damages)
        (block : TerrainManager.Block) (amount : Z) (k : nat) :
  let key := TerrainManager.globalCoordinate block in
  let threshold := TerrainManager.getBreakThreshold (TerrainManager.blockType block) in
  let n := hitsToBreak (TerrainManager.blockType block) amount in
  let earlier := damageBlocks (replicate k (block, amount)) (world, damages) in
  ¬ bunkerFloor key → damages !! key = None → 0 < amount → (k < n)%nat →
  8 <= threshold <= 25 ∧
  (Z.of_nat n - 1) * amount < threshold <= Z.of_nat n * amount ∧
  fst earlier = world ∧
  (∀ q, q ≠ key → snd earlier !! q = damages !! q) ∧
  TerrainManager.returned (TerrainManager.damageBlock (fst earlier) (snd earlier) block amount)
  = (if (S k =? n)%nat
     then (if unwritable world key then Throws else Returns true)
     else Returns false) ∧
  ((S k = n)%nat → unwritable world key = false →
   damageBlocks (replicate n (block, amount)) (world, damages)
   = (mkWorld (<[key := IdNum 0]> (cells world)) (unreadable world) (unwritable world),
      damages)) ∧
  ((S k = n)%nat → unwritable world key = true →
   ∃ tracker,
     damageBlocks (replicate n (block, amount)) (world, damages)
     = (world, <[key := tracker]> damages) ∧
     threshold <= TerrainManager.damage tracker).
Proof.
  intros key threshold n earlier Hfree Hnew Hpos Hk.
  destruct (hitsToBreak_spec (TerrainManager.blockType block) amount Hpos) as [Hn1 Hn].
  fold n threshold in Hn1, Hn.
  assert (Hlow : Z.of_nat k * amount < threshold) by nia.
  assert (Hearlier : earlier = (world,
            match k with
            | O => damages
            | S _ => <[key := TerrainManager.mkTracker (TerrainManager.blockType block)
                                (Z.of_nat k * amount)]> damages
            end)) by (apply damageBlocks_below; assumption).
  assert (Htracker : default (TerrainManager.mkTracker (TerrainManager.blockType block) 0)
                             (snd earlier !! key)
                     = TerrainManager.mkTracker (TerrainManager.blockType block)
                                                (Z.of_nat k * amount)).
  { rewrite Hearlier. cbn [snd]. destruct k as [|k']; [now rewrite Hnew|].
    now rewrite lookup_insert_eq. }
  assert (Hlast : (S k = n)%nat →
            damageBlocks (replicate n (block, amount)) (world, damages)
            = match lattice_setBlock world key 0 with
              | Returns world' => (world', damages)
              | Throws => (world, <[key := TerrainManager.mkTracker (TerrainManager.blockType block)
                                            (Z.of_nat n * amount)]> damages)
              end).
  { intros _. now apply damageBlocks_breaks. }
  split; [apply getBreakThreshold_range|]. split; [exact Hn|].
  split; [now rewrite Hearlier|]. split.
  { intros q Hq. rewrite Hearlier. cbn [snd]. destruct k as [|k']; [reflexivity|].
    now apply lookup_insert_ne. }
  split.
  { destruct (Nat.eqb_spec (S k) n) as [Heq|Hne].
    - rewrite damageBlock_reaches; [|exact Hfree|fold key; rewrite Htracker; cbn; nia].
      fold key. rewrite Hearlier. cbn [fst]. unfold lattice_setBlock.
      now destruct (unwritable world key).
    - rewrite damageBlock_below; [reflexivity|exact Hfree|].
      fold key. rewrite Htracker. cbn. nia. }
  split.
  - intros Heq Hw. rewrite (Hlast Heq). unfold lattice_setBlock. now rewrite Hw.
  - intros Heq Hw. rewrite (Hlast Heq). unfold lattice_setBlock. rewrite Hw.
    eexists. split; [reflexivity|]. cbn. lia.
Qed.

Lemma hits_to_break_witness :
  hitsToBreak 19 PickaxeEntity.damage = 3%nat ∧
  damageBlocks (replicate 3 (TerrainManager.mkBlock (6, 2, 0) 19, PickaxeEntity.damage))
               (world hillSpread, ∅)
  = (world hillBroken, ∅).
Proof.
  split; [reflexivity|].
  refine (proj1 (proj2 (proj2 (proj2 (proj2 (proj2
    (hits_to_break (world hillSpread) ∅ (TerrainManager.mkBlock (6, 2, 0) 19)
       PickaxeEntity.damage 2 _ _ _ _)))))) _ _); try reflexivity.
  - unfold bunkerFloor. cbn. lia.
  - vm_compute. lia.
Defined.

(** A call changes the grid and the map at the coordinate of its block only. *)
Lemma damageBlock_elsewhere world damages block amount q :
  q ≠ TerrainManager.globalCoordinate block →
  let r := TerrainManager.damageBlock world damages block amount in
  cells (TerrainManager.worldAfter r) !! q = cells world !! q ∧
  TerrainManager.blockDamagesAfter r !! q = damages !! q.
Proof.
  intros Hq. cbv zeta. unfold TerrainManager.damageBlock.
  destruct (TerrainManager.globalCoordinate block) as [[x y] z].
  destruct ((Z.abs x <=? 2) && (Z.abs z <=? 2) && (y =? 0)); [done|]. cbv zeta.
  destruct (_ >=? _).
  - unfold lattice_setBlock. destruct (unwritable world (x, y, z)); cbn.
    + split; [done|]. now apply lookup_insert_ne.
    + split; [now apply lookup_insert_ne|].
      rewrite lookup_delete_ne by done. now apply lookup_insert_ne.
  - cbn. split; [done|]. now apply lookup_insert_ne.
Qed.

Lemma damageBlock_throws_alike world damages block amount :
  let r := TerrainManager.damageBlock world damages block amount in
  unreadable (TerrainManager.worldAfter r) = unreadable world ∧
  unwritable (TerrainManager.worldAfter r) = unwritable world.
Proof.
  cbv zeta. unfold TerrainManager.damageBlock.
  destruct (TerrainManager.globalCoordinate block) as [[x y] z].
  destruct ((Z.abs x <=? 2) && (Z.abs z <=? 2) && (y =? 0)); [done|]. cbv zeta.
  destruct (_ >=? _); [|done].
  unfold lattice_setBlock. now destruct (unwritable world (x, y, z)).
Qed.

(** X19. The floor of the bunker cannot be damaged.  Whatever calls of
    [damageBlock] are made, with whatever amounts, a cell at level 0 with
    |x| <= 2 and |z| <= 2 keeps its content, no damage is ever recorded
    for it, and a call on it returns false and changes nothing. *)
Theorem bunker_floor_is_never_broken (calls : list (TerrainManager.Block * Z))
        (world : World) (damages : TerrainManager.Damages) (p : Pos) :
  bunkerFloor p →
  let after := damageBlocks calls (world, damages) in
  cells (fst after) !! p = cells world !! p ∧
  snd after !! p = damages !! p ∧
  (∀ block amount,
     TerrainManager.globalCoordinate block = p →
     TerrainManager.damageBlock (fst after) (snd after) block amount
     = TerrainManager.mkDamaged (Returns false) (fst after) (snd after)).
Proof.
  intros Hp. cbv zeta.
  assert (Hkept : cells (fst (damageBlocks calls (world, damages))) !! p = cells world !! p ∧
                  snd (damageBlocks calls (world, damages)) !! p = damages !! p).
  { revert world damages. induction calls as [|[block amount] calls IH]; intros world damages;
      [done|].
    unfold damageBlocks in *. cbn [fold_left fst snd].
    destruct (IH (TerrainManager.worldAfter (TerrainManager.damageBlock world damages block amount))
                 (TerrainManager.blockDamagesAfter
                    (TerrainManager.damageBlock world damages block amount))) as [-> ->].
    destruct (decide (p = TerrainManager.globalCoordinate block)) as [->|Hne].
    - now rewrite damageBlock_protected.
    - exact (damageBlock_elsewhere world damages block amount p Hne). }
  split; [exact (proj1 Hkept)|]. split; [exact (proj2 Hkept)|].
  intros block amount Hblock. apply damageBlock_protected. now rewrite Hblock.
Qed.

Lemma bunker_floor_is_never_broken_witness :
  cells (fst (damageBlocks [(TerrainManager.mkBlock (1, 0, -2) 2, 1000);
                            (TerrainManager.mkBlock (3, 0, 0) 2, 10)]
                           (clayPatch, ∅))) !! (1, 0, -2)
  = cells clayPatch !! (1, 0, -2).
Proof.
  refine (proj1 (bunker_floor_is_never_broken
                   [(TerrainManager.mkBlock (1, 0, -2) 2, 1000);
                    (TerrainManager.mkBlock (3, 0, 0) 2, 10)] clayPatch ∅ (1, 0, -2) _)).
  unfold bunkerFloor. cbn. lia.
Defined.

(** ** The sword *)

Lemma double_sqrt_zero (q : Q) : (q == 0)%Q → Double.sqrt q = 0%Q.
Proof. intros Hq. unfold Double.sqrt. now rewrite (proj1 (Qeq_alt q 0) Hq). Qed.

(** A facing direction without horizontal part has length 0. *)
Lemma horizontalLength_zero (player : PickaxeEntity.Player) :
  ((PickaxeEntity.facingDirection player).1.1 == 0)%Q →
  ((PickaxeEntity.facingDirection player).2 == 0)%Q →
  (PickaxeEntity.horizontalLength player == 0)%Q.
Proof.
  unfold PickaxeEntity.horizontalLength.
  destruct (PickaxeEntity.facingDirection player) as [[fx fy] fz]. cbn [fst snd].
  intros Hx Hz. cbv zeta.
  assert (Hx' : (Double.ofQ fx == 0)%Q) by (apply round_exact; [apply representable_0|exact Hx]).
  assert (Hz' : (Double.ofQ fz == 0)%Q) by (apply round_exact; [apply representable_0|exact Hz]).
  assert (Hxx : (Double.mul (Double.ofQ fx) (Double.ofQ fx) == 0)%Q).
  { apply round_exact; [apply representable_0|]. rewrite Hx'. ring. }
  assert (Hzz : (Double.mul (Double.ofQ fz) (Double.ofQ fz) == 0)%Q).
  { apply round_exact; [apply representable_0|]. rewrite Hz'. ring. }
  rewrite double_sqrt_zero; [reflexivity|].
  apply round_exact; [apply representable_0|]. rewrite Hxx, Hzz. ring.
Qed.

(** The block under the feet in doubles: a player at the height [4.1]
    stands on level 3, and one at [5.1] on level 5. *)
Lemma standingBlock_in_doubles :
  PickaxeEntity.standingBlock (PickaxeEntity.mkPlayer (0, 41 # 10, 0)%Q (1, 0, 0)%Q true) = (0, 3, 0) ∧
  PickaxeEntity.standingBlock (PickaxeEntity.mkPlayer (0, 51 # 10, 0)%Q (1, 0, 0)%Q true) = (0, 5, 0).
Proof. split; vm_compute; reflexivity. Qed.

Lemma strike_delayed player acc hit :
  PickaxeEntity.cooldown (PickaxeEntity.strike player acc hit) = PickaxeEntity.cooldown acc ∧
  PickaxeEntity.cooldownTimeout (PickaxeEntity.strike player acc hit)
  = PickaxeEntity.cooldownTimeout acc ∧
  (PickaxeEntity.delayed (PickaxeEntity.strike player acc hit) = PickaxeEntity.delayed acc ∨
   ∃ hitBlock, hit = Some hitBlock ∧
     PickaxeEntity.delayed (PickaxeEntity.strike player acc hit)
     = PickaxeEntity.delayed acc ++ [hitBlock] ∧
     0 < (TerrainManager.globalCoordinate hitBlock).1.2 ∧
     TerrainManager.globalCoordinate hitBlock ≠ PickaxeEntity.standingBlock player).
Proof.
  unfold PickaxeEntity.strike. destruct hit as [hitBlock|]; [|auto].
  destruct (TerrainManager.globalCoordinate hitBlock) as [[hx hy] hz] eqn:Hhit.
  destruct (PickaxeEntity.standingBlock player) as [[sx sy] sz] eqn:Hstand.
  destruct (hy <=? 0) eqn:Hlow; [auto|]. apply Z.leb_gt in Hlow.
  destruct ((hx =? sx) && (hy =? sy) && (hz =? sz)) eqn:Hsame; [auto|].
  split; [reflexivity|]. split; [reflexivity|]. right. exists hitBlock.
  split; [reflexivity|]. split; [reflexivity|]. rewrite Hhit. split; [exact Hlow|].
  intros [= -> -> ->]. now rewrite !Z.eqb_refl in Hsame.
Qed.

(** X20. One use of the sword.  It always leaves the cooldown flag set,
    and sets the timeout that clears the flag exactly when it was not
    cooling down.  It queues at most two blocks for damage, each one a
    block that one of its two rays has met, above level 0 and not the
    block the player stands on, hence never a block of the bunker floor;
    it queues none while cooling down, when the player is in no world, or
    when the camera has no horizontal direction. *)
Theorem sword_spares_floor_and_footing (cooldown0 : bool) (player : PickaxeEntity.Player)
        (raycast : nat -> option TerrainManager.Block) :
  let swing := PickaxeEntity.use cooldown0 player raycast in
  PickaxeEntity.cooldown swing = true ∧
  PickaxeEntity.cooldownTimeout swing = negb cooldown0 ∧
  (length (PickaxeEntity.delayed swing) <= 2)%nat ∧
  (cooldown0 = true ∨ PickaxeEntity.inWorld player = false ∨
   ((PickaxeEntity.facingDirection player).1.1 == 0 ∧ (PickaxeEntity.facingDirection player).2 == 0)%Q →
   PickaxeEntity.delayed swing = []) ∧
  (∀ block, block ∈ PickaxeEntity.delayed swing →
     (raycast 0%nat = Some block ∨ raycast 1%nat = Some block) ∧
     0 < (TerrainManager.globalCoordinate block).1.2 ∧
     TerrainManager.globalCoordinate block ≠ PickaxeEntity.standingBlock player ∧
     ¬ bunkerFloor (TerrainManager.globalCoordinate block)).
Proof.
  intros swing. subst swing. unfold PickaxeEntity.use.
  destruct cooldown0.
  { cbn [PickaxeEntity.cooldown PickaxeEntity.cooldownTimeout PickaxeEntity.delayed negb length].
    split; [reflexivity|]. split; [reflexivity|]. split; [lia|]. split; [reflexivity|].
    intros b Hin. inversion Hin. }
  destruct (PickaxeEntity.inWorld player) eqn:Hworld; cbn [negb].
  2:{ cbn [PickaxeEntity.cooldown PickaxeEntity.cooldownTimeout PickaxeEntity.delayed negb length].
    split; [reflexivity|]. split; [reflexivity|]. split; [lia|]. split; [reflexivity|].
    intros b Hin. inversion Hin. }
  destruct (Qeq_bool (PickaxeEntity.horizontalLength player) 0) eqn:Hlen.
  { cbn [PickaxeEntity.cooldown PickaxeEntity.cooldownTimeout PickaxeEntity.delayed negb length].
    split; [reflexivity|]. split; [reflexivity|]. split; [lia|]. split; [reflexivity|].
    intros b Hin. inversion Hin. }
  cbn [map fold_left].
  set (started := PickaxeEntity.mkSwing true true _ []).
  destruct (strike_delayed player started (raycast 0%nat)) as (Hc0 & Ht0 & Hd0).
  set (first := PickaxeEntity.strike player started (raycast 0%nat)) in *.
  destruct (strike_delayed player first (raycast 1%nat)) as (Hc1 & Ht1 & Hd1).
  set (second := PickaxeEntity.strike player first (raycast 1%nat)) in *.
  split; [now rewrite Hc1, Hc0|]. split; [now rewrite Ht1, Ht0|].
  assert (Hblocks : ∀ block, block ∈ PickaxeEntity.delayed second →
            (raycast 0%nat = Some block ∨ raycast 1%nat = Some block) ∧
            0 < (TerrainManager.globalCoordinate block).1.2 ∧
            TerrainManager.globalCoordinate block ≠ PickaxeEntity.standingBlock player).
  { intros block Hin.
    assert (Hfirst : block ∈ PickaxeEntity.delayed first →
              raycast 0%nat = Some block ∧
              0 < (TerrainManager.globalCoordinate block).1.2 ∧
              TerrainManager.globalCoordinate block ≠ PickaxeEntity.standingBlock player).
    { intros Hin0. destruct Hd0 as [Hd0|(b & Hb & Hd0 & Hy & Hs)]; rewrite Hd0 in Hin0.
      - inversion Hin0.
      - apply list_elem_of_singleton in Hin0. now subst b. }
    destruct Hd1 as [Hd1|(b & Hb & Hd1 & Hy & Hs)]; rewrite Hd1 in Hin.
    - destruct (Hfirst Hin) as (? & ? & ?). auto.
    - apply elem_of_app in Hin as [Hin|Hin].
      + destruct (Hfirst Hin) as (? & ? & ?). auto.
      + apply list_elem_of_singleton in Hin. subst b. auto. }
  split.
  { destruct Hd0 as [Hd0|(b0 & _ & Hd0 & _)], Hd1 as [Hd1|(b1 & _ & Hd1 & _)];
      rewrite Hd1, ?length_app, Hd0; cbn; lia. }
  split.
  { intros [Hcool|[Hout|[Hx Hz]]]; [discriminate|discriminate|]. exfalso.
    apply not_true_iff_false in Hlen. apply Hlen, Qeq_bool_iff.
    now apply horizontalLength_zero. }
  intros block Hin. destruct (Hblocks block Hin) as (Hray & Hy & Hstand).
  split; [exact Hray|]. split; [exact Hy|]. split; [exact Hstand|].
  unfold bunkerFloor. destruct (TerrainManager.globalCoordinate block) as [[x y] z].
  cbn in Hy. lia.
Qed.

(** ** The sword against a spawner *)

Lemma swordHits_range (blockType : Z) :
  (1 <= hitsToBreak blockType PickaxeEntity.damage <= 3)%nat.
Proof.
  destruct (hitsToBreak_spec blockType PickaxeEntity.damage eq_refl) as [Hn1 Hn].
  pose proof (getBreakThreshold_range blockType) as Hrange.
  unfold PickaxeEntity.damage in *. lia.
Qed.

(** X21. The sword against the engine.  The spawner block of the active
    current target, when it is off the bunker floor, can be written, has
    no damage recorded and its id is not 0, breaks at the n-th hit of the
    sword, where n, the number of hits for its block type, is between 1
    and 3.  The hits before leave the grid as it is; the n-th turns the
    cell to air and leaves the damage map as it was; and the next tick of
    the engine takes the destruction branch: it unbinds the target,
    forgets the key and runs its two selections. *)
Theorem sword_breaks_spawner (cfg : TerraformingOptions) (now : Z) (rnd1 rnd2 : nat -> Draw)
        (st : Terraforming) (r : nat) (t : TerraformingTarget) (p : Pos)
        (damages : TerrainManager.Damages) :
  let n := hitsToBreak (spawnerBlockId cfg) PickaxeEntity.damage in
  let hits k := damageBlocks (replicate k (TerrainManager.mkBlock p (spawnerBlockId cfg),
                                           PickaxeEntity.damage))
                             (world st, damages) in
  currentTarget st = Some r → targets st !! r = Some t →
  isActive t = true → spawnerPosition t = Some p →
  spawnerBlockId cfg ≠ 0 → ¬ bunkerFloor p → damages !! p = None →
  unwritable (world st) p = false →
  (1 <= n <= 3)%nat ∧
  (∀ k, (k < n)%nat → fst (hits k) = world st) ∧
  hits n = (world (breakBlock p st), damages) ∧
  terraformStep cfg now rnd1 rnd2 (set_world (fst (hits n)) st)
  = selectNewTarget cfg now rnd2
      (forget p (selectNewTarget cfg now rnd1 (afterLoss r t p (breakBlock p st)))).
Proof.
  intros n hits Hcur Ht Hact Hp Hid Hfree Hnew Hw.
  set (block := TerrainManager.mkBlock p (spawnerBlockId cfg)).
  destruct (hitsToBreak_spec (spawnerBlockId cfg) PickaxeEntity.damage eq_refl) as [Hn1 Hn].
  fold n in Hn1, Hn.
  assert (Hbroken : hits n = (world (breakBlock p st), damages)).
  { unfold hits. fold block.
    etrans; [exact (damageBlocks_breaks (world st) damages block PickaxeEntity.damage
                      Hfree Hnew eq_refl)|].
    cbn [TerrainManager.globalCoordinate block]. unfold lattice_setBlock. now rewrite Hw. }
  split; [apply swordHits_range|]. split.
  { intros k Hk. unfold hits. fold block.
    rewrite (damageBlocks_below k (world st) damages block PickaxeEntity.damage Hfree Hnew eq_refl);
      [reflexivity|].
    cbn [TerrainManager.blockType block]. nia. }
  split; [exact Hbroken|]. rewrite Hbroken. cbn [fst].
  change (set_world (world (breakBlock p st)) st) with (breakBlock p st).
  apply terraformStep_destroyed; try assumption.
  unfold isSpawnerBlockPresent, getBlockId, breakBlock. cbn [world set_world unreadable cells].
  destruct (unreadable (world st) p); [reflexivity|].
  rewrite lookup_insert_eq. cbn [default]. apply Z.eqb_neq. congruence.
Qed.

Lemma sword_breaks_spawner_witness :
  hitsToBreak (spawnerBlockId hillZone) PickaxeEntity.damage = 3%nat ∧
  terraformStep hillZone 5000 southward eastward
    (set_world (fst (damageBlocks (replicate 3 (TerrainManager.mkBlock (6, 2, 0) 19,
                                                PickaxeEntity.damage))
                                  (world hillSpread, ∅))) hillSpread)
  = selectNewTarget hillZone 5000 eastward
      (forget (6, 2, 0) (selectNewTarget hillZone 5000 southward
                           (afterLoss 1 hillSecond (6, 2, 0) hillBroken))).
Proof.
  split; [reflexivity|].
  refine (proj2 (proj2 (proj2
    (sword_breaks_spawner hillZone 5000 southward eastward hillSpread 1 hillSecond (6, 2, 0) ∅
       _ _ _ _ _ _ _ _)))); try reflexivity.
  - discriminate.
  - unfold bunkerFloor. cbn. lia.
Defined.
